(** * pdf2djvu: the foreground quantizers of [image-filter.cc]

    A shallow embedding of the quantizers that turn a pair of page
    renderings (the full page and its background alone) into the colour
    layer read by csepdjvu, and the properties of the embedding. *)

From Stdlib Require Import ZArith List Sorted Bool Lia String Ascii Strings.Byte DecimalString.
From stdpp Require Import base option gmap.
Import ListNotations.

Local Open Scope Z_scope.

(** ** C++ integers *)

(** [a / b] on [int]: the quotient truncates towards zero. A zero divisor is
    undefined behaviour: the code below that divides tests its divisor
    first and gives no result when it is zero. *)
Notation "a ./ b" := (Z.quot a b) (at level 40, left associativity).

(** The result of a piece of code that may divide by zero, or whose loop is
    run here on a bounded number of iterations. *)
Inductive outcome (A : Type) : Type :=
| Returns (a : A)
| DivisionByZero
| OutOfFuel.
Arguments Returns {A} a.
Arguments DivisionByZero {A}.
Arguments OutOfFuel {A}.

(** ** The colour model *)

Module Rgb18.

(** [class Rgb18] holds one [int value]. *)
Abbreviation t := Z (only parsing).

(** [Rgb18()]: no colour. *)
Definition none : t := -1.

(** [Rgb18(int r, int g, int b)], and [Rgb18(const tp &components)] on
    [components = {r, g, b}]. *)
Definition make (r g b : Z) : t :=
  Z.lor (Z.lor (Z.shiftr r 2) (Z.shiftl (Z.shiftr g 2) 6))
        (Z.shiftl (Z.shiftr b 2) 12).

(** [operator [](int i)]. *)
Definition get (value : t) (i : Z) : Z :=
  Z.lor (Z.land (Z.shiftl (Z.shiftr value (6 * i)) 2) 0xff)
        (Z.land (Z.shiftr value (6 * i + 4)) 3).

(** [operator ==]. *)
Definition eqb (x y : t) : bool := x =? y.

(** One round of the loop of [reduce]: the component [i] of the result. *)
Definition reduce_component (value : t) (n c i : Z) : Z :=
  let m := (get value i * c) ./ n in
  ((n - 1) * m) ./ (c - 1).

(** [reduce(int k)]. Both divisors are checked before use: [k] in
    [(n + k - 1) / k] and [c - 1] in the loop. *)
Definition reduce (value : t) (k : Z) : option t :=
  let n := Z.shiftl 1 8 in
  if k =? 0 then None
  else
    let c := (n + k - 1) ./ k in
    if c - 1 =? 0 then None
    else Some (make (reduce_component value n c 0)
                    (reduce_component value n c 1)
                    (reduce_component value n c 2)).

End Rgb18.

(** The formula of the palette reduction in mathematical terms: floors, and
    the ceiling of [256 / k]. *)
Definition ceil_div (a b : Z) : Z :=
  if a mod b =? 0 then a / b else a / b + 1.

Definition bucket (v k : Z) : Z := v * ceil_div 256 k / 256.

Definition reduced_value (v k : Z) : Z :=
  255 * bucket v k / (ceil_div 256 k - 1).

(** ** Renderers, pixmaps and the output stream *)

(** A pixel of a rendering: three samples of eight bits, red, green, blue. *)
Definition pixel : Type := byte * byte * byte.

Definition sample (b : byte) : Z := Z.of_N (Byte.to_N b).

Definition component (p : pixel) (i : nat) : Z :=
  match p, i with
  | (r, _, _), O => sample r
  | (_, g, _), S O => sample g
  | (_, _, b), _ => sample b
  end.

(** [pdf::Renderer *]: the address the pointer holds, and the bitmap of the
    renderer it points to, by row and column. *)
Record Renderer : Type := {
  address : Z;
  bitmap : nat -> nat -> pixel
}.

(** Modelled from the spec: [pdf::Pixmap] and [pdf::Pixmap::iterator] are
    declared outside the sources at hand. The spec gives read-only row-major
    RGB pixel access with an explicit cursor: [p[i]] reads a sample of the
    pixel under the cursor, [p++] moves it one pixel to the right and
    [next_row()] moves it to the start of the following row. *)
Module Pixmap.
Record iterator : Type := {
  pixels : nat -> nat -> pixel;
  row : nat;
  column : nat
}.
Definition begin_ (r : Renderer) : iterator :=
  {| pixels := bitmap r; row := 0; column := 0 |}.
Definition at_ (p : iterator) (i : nat) : Z :=
  component (pixels p (row p) (column p)) i.
Definition incr (p : iterator) : iterator :=
  {| pixels := pixels p; row := row p; column := S (column p) |}.
Definition next_row (p : iterator) : iterator :=
  {| pixels := pixels p; row := S (row p); column := 0 |}.
End Pixmap.

Notation "p .[ i ]" := (Pixmap.at_ p i) (at level 1, format "p .[ i ]").

(** What reaches the [std::ostream]. A character written by the quantizers
    themselves is kept as its code. [rle::R4] is declared in [rle.hh],
    outside the sources at hand: the calls made to it are kept in call order
    in place of the characters the encoder writes for them. *)
Inductive item : Type :=
| Chr (c : Z)
| R4_new (width height : Z)
| R4_pixel (pixel : Z)
| R4_output_run (length : Z).

Abbreviation ostream := (list item) (only parsing).

(** Conversions to [unsigned char] and [uint32_t]. *)
Definition to_uchar (z : Z) : Z := z mod 2 ^ 8.
Definition to_uint32 (z : Z) : Z := z mod 2 ^ 32.

(** [stream << "..."]. *)
Definition chars (s : string) : list item :=
  map (fun a => Chr (Z.of_N (N_of_ascii a))) (list_ascii_of_string s).

(** [stream << n] on an integer: its decimal digits. *)
Definition decimal (n : Z) : list item :=
  chars (NilZero.string_of_int (Z.to_int n)).

(** [std::endl]. *)
Definition endl : list item := [Chr 10].

(** [for (int i = 0; i < n; i++) body], the body given the index. *)
Definition for_ {S : Type} (n : Z) (body : nat -> S -> S) (s : S) : S :=
  fold_left (fun s i => body i s) (seq 0 (Z.to_nat n)) s.

(** [write_uint32]. *)
Definition write_uint32 (stream : ostream) (item : Z) : ostream :=
  stream ++ map (fun i => Chr (to_uchar (Z.shiftr item ((3 - i) * 8)))) [0; 1; 2; 3].

(** [((uint32_t)color << 20) + length], as the [uint32_t] that
    [write_uint32] receives. *)
Definition run_word (color length : Z) : Z :=
  to_uint32 (to_uint32 (Z.shiftl (to_uint32 color) 20) + length).

(** What a quantizer receives by pointer or by reference from its caller
    and may write: [background_color[0..2]], [has_foreground],
    [has_background] and [stream]. *)
Record outputs : Type := {
  background_color : Z * Z * Z;
  has_foreground : bool;
  has_background : bool;
  stream : ostream
}.

Definition background (c : Z * Z * Z) (i : nat) : Z :=
  match c, i with
  | (r, _, _), O => r
  | (_, g, _), S O => g
  | (_, _, b), _ => b
  end.

Definition set_stream (o : outputs) (s : ostream) : outputs :=
  {| background_color := background_color o;
     has_foreground := has_foreground o;
     has_background := has_background o;
     stream := s |}.

Definition set_has_background (o : outputs) (b : bool) : outputs :=
  {| background_color := background_color o;
     has_foreground := has_foreground o;
     has_background := b;
     stream := stream o |}.

Definition set_has_foreground (o : outputs) (b : bool) : outputs :=
  {| background_color := background_color o;
     has_foreground := b;
     has_background := has_background o;
     stream := stream o |}.

Definition set_background_color (o : outputs) (c : Z * Z * Z) : outputs :=
  {| background_color := c;
     has_foreground := has_foreground o;
     has_background := has_background o;
     stream := stream o |}.

(** ** The tests shared by the quantizers *)

(** [if (!has_background) for (i...) if (background_color[i] != p_bg[i])
    { has_background = true; break; }] *)
Definition check_background (p_bg : Pixmap.iterator) (o : outputs) : outputs :=
  if negb (has_background o) then
    if negb (background (background_color o) 0 =? p_bg.[0%nat])
       || negb (background (background_color o) 1 =? p_bg.[1%nat])
       || negb (background (background_color o) 2 =? p_bg.[2%nat])
    then set_has_background o true
    else o
  else o.

(** [p_fg[0] != p_bg[0] || p_fg[1] != p_bg[1] || p_fg[2] != p_bg[2]] *)
Definition differ (p_fg p_bg : Pixmap.iterator) : bool :=
  negb (p_fg.[0%nat] =? p_bg.[0%nat])
  || negb (p_fg.[1%nat] =? p_bg.[1%nat])
  || negb (p_fg.[2%nat] =? p_bg.[2%nat]).

(** [p_fg[0] || p_fg[1] || p_fg[2]] *)
Definition nonzero (p_fg : Pixmap.iterator) : bool :=
  negb (p_fg.[0%nat] =? 0) || negb (p_fg.[1%nat] =? 0) || negb (p_fg.[2%nat] =? 0).

(** [if (!has_foreground && (p_fg[0] || p_fg[1] || p_fg[2]))
    has_foreground = true;] *)
Definition check_foreground (p_fg : Pixmap.iterator) (o : outputs) : outputs :=
  if negb (has_foreground o) && nonzero p_fg
  then set_has_foreground o true
  else o.

(** ** The dummy quantizer *)

(** [static void dummy_quantizer]. *)
Definition dummy_quantizer (width height : Z) (o : outputs) : outputs :=
  let stream := stream o ++ [R4_new width height] in
  let stream := for_ height (fun y stream => stream ++ [R4_output_run width]) stream in
  set_background_color (set_stream o stream) (0xff, 0xff, 0xff).

(** [DummyQuantizer::operator()]. *)
Definition DummyQuantizer (out_fg out_bg : Renderer) (width height : Z)
    (o : outputs) : outputs :=
  dummy_quantizer width height o.

(** ** The mask quantizer *)

(** The variables of the scan of [MaskQuantizer::operator()]. *)
Record scan : Type := {
  p_fg : Pixmap.iterator;
  p_bg : Pixmap.iterator;
  out : outputs
}.

(** The body of the loop on [x]. *)
Definition Mask_pixel (s : scan) : scan :=
  let o := check_background (p_bg s) (out s) in
  let o :=
    if differ (p_fg s) (p_bg s) then
      let o := check_foreground (p_fg s) o in
      set_stream o (stream o ++ [R4_pixel 1])
    else set_stream o (stream o ++ [R4_pixel 0]) in
  {| p_fg := Pixmap.incr (p_fg s); p_bg := Pixmap.incr (p_bg s); out := o |}.

(** The body of the loop on [y]. *)
Definition Mask_row (width : Z) (s : scan) : scan :=
  let s := for_ width (fun x => Mask_pixel) s in
  {| p_fg := Pixmap.next_row (p_fg s); p_bg := Pixmap.next_row (p_bg s);
     out := out s |}.

(** [MaskQuantizer::operator()]. *)
Definition MaskQuantizer (out_fg out_bg : Renderer) (width height : Z)
    (o : outputs) : outputs :=
  if address out_fg =? address out_bg then
    let o := dummy_quantizer width height o in
    set_has_background o true
  else
    let o := set_stream o (stream o ++ [R4_new width height]) in
    let s := {| p_fg := Pixmap.begin_ out_fg; p_bg := Pixmap.begin_ out_bg; out := o |} in
    out (for_ height (fun y => Mask_row width) s).

(** ** The web-safe quantizer *)

(** [WebSafeQuantizer::output_web_palette]. *)
Definition output_web_palette (stream : ostream) : ostream :=
  let stream := stream ++ chars "216" ++ endl in
  for_ 6 (fun r =>
    for_ 6 (fun g =>
      for_ 6 (fun b stream =>
        stream ++ [Chr (to_uchar (51 * Z.of_nat r));
                   Chr (to_uchar (51 * Z.of_nat g));
                   Chr (to_uchar (51 * Z.of_nat b))]))) stream.

(** The variables of the loop on [x] of [WebSafeQuantizer::operator()]:
    the scan and the run being built, [color] and [length]. *)
Record web_scan : Type := {
  web : scan;
  web_color : Z;
  web_length : Z
}.

(** The index of the web-safe colour that stands for the pixel under the
    cursor: the right-hand side of the assignment to [new_color]. *)
Definition WebSafe_index (p_fg : Pixmap.iterator) : Z :=
  (p_fg.[2%nat] + 1) ./ 43
  + 6 * ((p_fg.[1%nat] + 1) ./ 43 + 6 * ((p_fg.[0%nat] + 1) ./ 43)).

(** The body of the loop on [x]. *)
Definition WebSafe_pixel (s : web_scan) : web_scan :=
  let o := check_background (p_bg (web s)) (out (web s)) in
  let '(o, new_color) :=
    if differ (p_fg (web s)) (p_bg (web s))
    then (check_foreground (p_fg (web s)) o, WebSafe_index (p_fg (web s)))
    else (o, 0xfff) in
  let '(o, color, length) :=
    if web_color s =? new_color then (o, web_color s, web_length s + 1)
    else
      let o :=
        if web_length s >? 0
        then set_stream o (write_uint32 (stream o) (run_word (web_color s) (web_length s)))
        else o in
      (o, new_color, 1) in
  {| web := {| p_fg := Pixmap.incr (p_fg (web s));
               p_bg := Pixmap.incr (p_bg (web s));
               out := o |};
     web_color := color;
     web_length := length |}.

(** The body of the loop on [y]. *)
Definition WebSafe_row (width : Z) (s : scan) : scan :=
  let r := for_ width (fun x => WebSafe_pixel)
             {| web := s; web_color := 0xfff; web_length := 0 |} in
  let o := out (web r) in
  {| p_fg := Pixmap.next_row (p_fg (web r));
     p_bg := Pixmap.next_row (p_bg (web r));
     out := set_stream o (write_uint32 (stream o) (run_word (web_color r) (web_length r))) |}.

(** [for (int i = 0; i < 3; i++) background_color[i] = p_bg[i];] *)
Definition sample_background (p_bg : Pixmap.iterator) (o : outputs) : outputs :=
  set_background_color o (p_bg.[0%nat], p_bg.[1%nat], p_bg.[2%nat]).

(** [WebSafeQuantizer::operator()]. *)
Definition WebSafeQuantizer (out_fg out_bg : Renderer) (width height : Z)
    (o : outputs) : outputs :=
  if address out_fg =? address out_bg then
    let o := dummy_quantizer width height o in
    set_has_background o true
  else
    let stream :=
      stream o ++ chars "R6 " ++ decimal width ++ chars " " ++ decimal height
      ++ chars " " in
    let stream := output_web_palette stream in
    let p_fg := Pixmap.begin_ out_fg in
    let p_bg := Pixmap.begin_ out_bg in
    let o := sample_background p_bg (set_stream o stream) in
    out (for_ height (fun y => WebSafe_row width)
           {| p_fg := p_fg; p_bg := p_bg; out := o |}).

(** ** The default quantizer *)

(** [std::bitset<1 << 18>]: the bit at each position. *)
Abbreviation bitset := (Z -> bool) (only parsing).

Definition bitset_size : Z := Z.shiftl 1 18.

(** [reset()] and [set(i)]. *)
Definition bitset_reset : bitset := fun _ => false.
Definition bitset_set (b : bitset) (i : Z) : bitset :=
  fun j => if j =? i then true else b j.

(** [len] consecutive integers from [start]. *)
Fixpoint Zseq (start : Z) (len : nat) : list Z :=
  match len with
  | O => []
  | S len => start :: Zseq (start + 1) len
  end.

(** The values of [color] in [for (size_t color = 0; color < b.size();
    color++)]. *)
Definition positions : list Z := Zseq 0 (Z.to_nat bitset_size).

(** [class Run]. *)
Module Run.
Record t : Type := { color : Rgb18.t; length : Z }.
(** [Run(Rgb18 color)] and [Run()]. *)
Definition make (color : Rgb18.t) : t := {| color := color; length := 0 |}.
Definition empty : t := make Rgb18.none.
(** [operator ++(int)]. *)
Definition incr (r : t) : t := {| color := color r; length := length r + 1 |}.
Definition same_color (r : t) (other_color : Rgb18.t) : bool :=
  Rgb18.eqb (color r) other_color.
End Run.

(** [runs[y].push_back(run)]. *)
Definition push_back (runs : list (list Run.t)) (y : nat) (run : Run.t) :
    list (list Run.t) :=
  alter (fun line => line ++ [run]) y runs.

(** [m[key]] on a [std::map<int, uint32_t>]: the value at [key], and the
    map, in which a key that was missing now holds zero. *)
Definition map_at (m : gmap Z Z) (key : Z) : Z * gmap Z Z :=
  match m !! key with
  | Some v => (v, m)
  | None => (0, <[key := 0]> m)
  end.

(** The variables of the first scan of [DefaultQuantizer::operator()]. *)
Record pass1 : Type := {
  cursors : scan;
  color_counter : Z;
  original_colors : bitset;
  runs : list (list Run.t);
  run : Run.t
}.

(** The body of the loop on [x], in the row [y]. *)
Definition Default_pixel (y : nat) (s : pass1) : pass1 :=
  let p_fg := p_fg (cursors s) in
  let p_bg := p_bg (cursors s) in
  let o := check_background p_bg (out (cursors s)) in
  let '(o, new_color, color_counter, original_colors) :=
    if differ p_fg p_bg then
      let o := check_foreground p_fg o in
      let new_color := Rgb18.make p_fg.[0%nat] p_fg.[1%nat] p_fg.[2%nat] in
      if negb (original_colors s new_color)
      then (o, new_color, color_counter s + 1, bitset_set (original_colors s) new_color)
      else (o, new_color, color_counter s, original_colors s)
    else (o, Rgb18.none, color_counter s, original_colors s) in
  let '(runs, run) :=
    if Run.same_color (run s) new_color then (runs s, Run.incr (run s))
    else
      let runs :=
        if Run.length (run s) >? 0 then push_back (runs s) y (run s) else runs s in
      (runs, Run.incr (Run.make new_color)) in
  {| cursors := {| p_fg := Pixmap.incr p_fg; p_bg := Pixmap.incr p_bg; out := o |};
     color_counter := color_counter;
     original_colors := original_colors;
     runs := runs;
     run := run |}.

(** The body of the loop on [y]. *)
Definition Default_row (width : Z) (y : nat) (s : pass1) : pass1 :=
  let s := for_ width (fun x => Default_pixel y)
             {| cursors := cursors s;
                color_counter := color_counter s;
                original_colors := original_colors s;
                runs := runs s;
                run := Run.empty |} in
  {| cursors := {| p_fg := Pixmap.next_row (p_fg (cursors s));
                   p_bg := Pixmap.next_row (p_bg (cursors s));
                   out := out (cursors s) |};
     color_counter := color_counter s;
     original_colors := original_colors s;
     runs := if Run.length (run s) >? 0 then push_back (runs s) y (run s) else runs s;
     run := run s |}.

(** The first scan: from the declarations of the locals to the end of the
    loop on [y]. The vector [runs] is built with [height] rows, which is
    what the code does for [0 <= height]. Under a negative height the
    constructor of the vector throws [std::length_error], once the header
    is written; no outcome stands for it, and the definition is that of the
    code for the heights from 0 on only. *)
Definition Default_pass1 (out_fg out_bg : Renderer) (width height : Z)
    (o : outputs) : pass1 :=
  let stream :=
    stream o ++ chars "R6 " ++ decimal width ++ chars " " ++ decimal height
    ++ chars " " in
  let p_fg := Pixmap.begin_ out_fg in
  let p_bg := Pixmap.begin_ out_bg in
  let o := sample_background p_bg (set_stream o stream) in
  for_ height (Default_row width)
    {| cursors := {| p_fg := p_fg; p_bg := p_bg; out := o |};
       color_counter := 0;
       original_colors := bitset_reset;
       runs := replicate (Z.to_nat height) [];
       run := Run.empty |}.

Section Default.

(** [djvu::max_fg_colors], an unsigned constant of [djvuconst.hh], which
    is outside the sources at hand. *)
Variable max_fg_colors : N.

(** The loop that counts the colours left by [divisor], over the values
    [colors] that [color] has yet to take: [quantized_colors] and
    [new_color_counter] when the loop is left, by [break] or at its end. *)
Fixpoint count_reduced (original_colors : bitset) (divisor : Z)
    (colors : list Z) (quantized_colors : bitset) (new_color_counter : Z) :
    outcome (bitset * Z) :=
  match colors with
  | [] => Returns (quantized_colors, new_color_counter)
  | color :: colors =>
      if negb (original_colors color) then
        count_reduced original_colors divisor colors quantized_colors new_color_counter
      else
        match Rgb18.reduce color divisor with
        | None => DivisionByZero
        | Some new_color =>
            if negb (quantized_colors new_color) then
              let quantized_colors := bitset_set quantized_colors new_color in
              let new_color_counter := new_color_counter + 1 in
              if new_color_counter >? Z.of_N max_fg_colors
              then Returns (quantized_colors, new_color_counter)
              else count_reduced original_colors divisor colors
                     quantized_colors new_color_counter
            else
              count_reduced original_colors divisor colors
                quantized_colors new_color_counter
        end
  end.

(** The variables of [while (color_counter > djvu::max_fg_colors)]. *)
Record search : Type := {
  divisor : Z;
  found : Z;
  quantized_colors : bitset
}.

(** The [while] loop, run for [fuel] rounds at most. *)
Fixpoint find_palette (fuel : nat) (original_colors : bitset) (s : search) :
    outcome search :=
  if found s >? Z.of_N max_fg_colors then
    match fuel with
    | O => OutOfFuel
    | S fuel =>
        let divisor := divisor s + 1 in
        match count_reduced original_colors divisor positions bitset_reset 0 with
        | Returns (quantized_colors, new_color_counter) =>
            find_palette fuel original_colors
              {| divisor := divisor;
                 found := new_color_counter;
                 quantized_colors := quantized_colors |}
        | DivisionByZero => DivisionByZero
        | OutOfFuel => OutOfFuel
        end
    end
  else Returns s.

(** [if (divisor == 4) quantized_colors = original_colors;] *)
Definition settled (original_colors : bitset) (p : search) : search :=
  if divisor p =? 4
  then {| divisor := divisor p; found := found p;
          quantized_colors := original_colors |}
  else p.

(** The three characters written for one colour of the palette. *)
Definition palette_entry (color : Z) : list item :=
  map (fun i => Chr (to_uchar (Rgb18.get color i))) [0; 1; 2].

(** "Output the palette". *)
Definition output_palette (color_counter : Z) (quantized_colors : bitset)
    (stream : ostream) : ostream :=
  if color_counter =? 0 then
    stream ++ decimal 1 ++ endl ++ [Chr 0xff; Chr 0xff; Chr 0xff]
  else
    fold_left
      (fun stream color =>
         if quantized_colors color then stream ++ palette_entry color else stream)
      positions
      (stream ++ decimal color_counter ++ endl).

(** [for (color...) { if (!colors[color]) continue; m[color] =
    last_color_index++; }] *)
Definition number_colors (colors : bitset) (m : gmap Z Z) (last_color_index : Z) :
    gmap Z Z * Z :=
  fold_left
    (fun '(m, last_color_index) color =>
       if negb (colors color) then (m, last_color_index)
       else (<[color := last_color_index]> m, to_uint32 (last_color_index + 1)))
    positions (m, last_color_index).

(** [for (color...) { Rgb18 new_color = Rgb18(color).reduce(divisor);
    color_map[color] = quantized_color_map[new_color]; }] *)
Fixpoint map_reduced (divisor : Z) (colors : list Z)
    (color_map quantized_color_map : gmap Z Z) : outcome (gmap Z Z * gmap Z Z) :=
  match colors with
  | [] => Returns (color_map, quantized_color_map)
  | color :: colors =>
      match Rgb18.reduce color divisor with
      | None => DivisionByZero
      | Some new_color =>
          let '(index, quantized_color_map) := map_at quantized_color_map new_color in
          map_reduced divisor colors (<[color := index]> color_map) quantized_color_map
      end
  end.

(** "Map colors into color indices": [color_map] and
    [quantized_color_map] at the end. *)
Definition map_colors (divisor : Z) (original_colors quantized_colors : bitset) :
    outcome (gmap Z Z * gmap Z Z) :=
  let color_map : gmap Z Z := {[ -1 := 0xfff ]} in
  if divisor =? 4 then
    Returns (fst (number_colors original_colors color_map 0), ∅)
  else
    let quantized_color_map := fst (number_colors quantized_colors ∅ 0) in
    map_reduced divisor positions color_map quantized_color_map.

(** "Output runs". *)
Definition output_line (color_map : gmap Z Z) (line_runs : list Run.t)
    (stream : ostream) : gmap Z Z * ostream :=
  fold_left
    (fun '(color_map, stream) run =>
       let '(color_index, color_map) := map_at color_map (Run.color run) in
       (color_map, write_uint32 stream (run_word color_index (Run.length run))))
    line_runs (color_map, stream).

Definition output_runs (height : Z) (runs : list (list Run.t))
    (color_map : gmap Z Z) (stream : ostream) : gmap Z Z * ostream :=
  for_ height
    (fun y '(color_map, stream) => output_line color_map (nth y runs []) stream)
    (color_map, stream).

(** The locals of [DefaultQuantizer::operator()] and what it leaves to
    its caller, when it returns past the identity test. *)
Record Default_locals : Type := {
  first : pass1;
  palette : search;
  color_map : gmap Z Z;
  quantized_color_map : gmap Z Z;
  result : outputs
}.

(** The rounds allowed to the search of the palette. They are never
    exhausted: the round that takes the divisor to 256 divides by zero
    (see [Default_body_fuel]). *)
Definition rounds : nat := 252.

(** [DefaultQuantizer::operator()] past the identity test. *)
Definition Default_body (out_fg out_bg : Renderer) (width height : Z)
    (o : outputs) : outcome Default_locals :=
  let s := Default_pass1 out_fg out_bg width height o in
  let o := out (cursors s) in
  match find_palette rounds (original_colors s)
          {| divisor := 4; found := color_counter s;
             quantized_colors := bitset_reset |} with
  | Returns p =>
      let p := settled (original_colors s) p in
      let stream := output_palette (found p) (quantized_colors p) (stream o) in
      match map_colors (divisor p) (original_colors s) (quantized_colors p) with
      | Returns (color_map, quantized_color_map) =>
          let '(color_map, stream) := output_runs height (runs s) color_map stream in
          Returns {| first := s; palette := p; color_map := color_map;
                     quantized_color_map := quantized_color_map;
                     result := set_stream o stream |}
      | DivisionByZero => DivisionByZero
      | OutOfFuel => OutOfFuel
      end
  | DivisionByZero => DivisionByZero
  | OutOfFuel => OutOfFuel
  end.

(** [DefaultQuantizer::operator()]. *)
Definition DefaultQuantizer (out_fg out_bg : Renderer) (width height : Z)
    (o : outputs) : outcome outputs :=
  if address out_fg =? address out_bg then
    let o := dummy_quantizer width height o in
    Returns (set_has_background o true)
  else
    match Default_body out_fg out_bg width height o with
    | Returns l => Returns (result l)
    | DivisionByZero => DivisionByZero
    | OutOfFuel => OutOfFuel
    end.

End Default.

(** ** Notions used in the statements *)

Definition under (p : Pixmap.iterator) : pixel :=
  Pixmap.pixels p (Pixmap.row p) (Pixmap.column p).

Definition cursor (r : Renderer) (y x : nat) : Pixmap.iterator :=
  {| Pixmap.pixels := bitmap r; Pixmap.row := y; Pixmap.column := x |}.

(** The two pixels differ in a sample. *)
Definition pixels_differ (p q : pixel) : bool :=
  negb (component p 0 =? component q 0)
  || negb (component p 1 =? component q 1)
  || negb (component p 2 =? component q 2).

(** A sample of the pixel is not zero. *)
Definition pixel_nonzero (p : pixel) : bool :=
  negb (component p 0 =? 0) || negb (component p 1 =? 0) || negb (component p 2 =? 0).

(** A sample of the pixel is not that of the colour. *)
Definition off_color (c : Z * Z * Z) (p : pixel) : bool :=
  negb (background c 0 =? component p 0)
  || negb (background c 1 =? component p 1)
  || negb (background c 2 =? component p 2).

(** The pixels met before the one at row [y] and column [x], in rows of
    [w] pixels. *)
Definition cells (w y x : nat) : list (nat * nat) :=
  flat_map (fun y' => map (pair y') (seq 0 w)) (seq 0 y) ++ map (pair y) (seq 0 x).

(** The pixel of the page at a cell is foreground that is not black. *)
Definition lit (out_fg out_bg : Renderer) (c : nat * nat) : bool :=
  pixels_differ (bitmap out_fg (fst c) (snd c)) (bitmap out_bg (fst c) (snd c))
  && pixel_nonzero (bitmap out_fg (fst c) (snd c)).

(** The pixel of the background at a cell is off the colour. *)
Definition off (color : Z * Z * Z) (out_bg : Renderer) (c : nat * nat) : bool :=
  off_color color (bitmap out_bg (fst c) (snd c)).

(** The cursors and the flags once the pixels before row [y] and column
    [x] have been scanned, from the outputs [o]. *)
Definition scanned (out_fg out_bg : Renderer) (o : outputs) (w y x : nat)
    (s : scan) : Prop :=
  p_fg s = cursor out_fg y x /\
  p_bg s = cursor out_bg y x /\
  background_color (out s) = background_color o /\
  has_foreground (out s)
  = has_foreground o || existsb (lit out_fg out_bg) (cells w y x) /\
  has_background (out s)
  = has_background o || existsb (off (background_color o) out_bg) (cells w y x).

(** What the body of each loop on [x] does to the cursors and the flags. *)
Definition pixel_step (s s' : scan) : Prop :=
  p_fg s' = Pixmap.incr (p_fg s) /\
  p_bg s' = Pixmap.incr (p_bg s) /\
  background_color (out s') = background_color (out s) /\
  has_foreground (out s')
  = has_foreground (out s)
    || pixels_differ (under (p_fg s)) (under (p_bg s)) && pixel_nonzero (under (p_fg s)) /\
  has_background (out s')
  = has_background (out s) || off_color (background_color (out s)) (under (p_bg s)).

(** What the end of each loop on [y] does to them. *)
Definition row_step (s s' : scan) : Prop :=
  p_fg s' = Pixmap.next_row (p_fg s) /\
  p_bg s' = Pixmap.next_row (p_bg s) /\
  background_color (out s') = background_color (out s) /\
  has_foreground (out s') = has_foreground (out s) /\
  has_background (out s') = has_background (out s).

(** The outputs after the two tests of the body of a loop on [x]. *)
Definition tested (s : scan) : outputs :=
  let o := check_background (p_bg s) (out s) in
  if differ (p_fg s) (p_bg s) then check_foreground (p_fg s) o else o.

(** The pixel of the page at row [y] and column [x] is foreground: it is
    not the pixel of the background there. *)
Definition foreground (out_fg out_bg : Renderer) (y x : nat) : bool :=
  pixels_differ (bitmap out_fg y x) (bitmap out_bg y x).

(** Row by row, what [f] gives at each pixel of an image of [h] rows of [w]
    pixels. *)
Definition grid {A : Type} (f : nat -> nat -> A) (w h : nat) : list A :=
  flat_map (fun y => map (f y) (seq 0 w)) (seq 0 h).

(** What a call has appended to the stream of [o]. *)
Definition written (o o' : outputs) : ostream :=
  skipn (List.length (stream o)) (stream o').

(** The pixels given to the bitonal encoder. *)
Definition R4_pixels (s : ostream) : list Z :=
  flat_map (fun i => match i with R4_pixel b => [b] | _ => [] end) s.

(** The dummy encoding of an image: the encoder is set up, then given one
    run of the width of the image for each row. *)
Definition dummy_encoding (width height : Z) : ostream :=
  R4_new width height :: repeat (R4_output_run width) (Z.to_nat height).

(** The characters that [write_uint32] writes for a word: its four bytes,
    the most significant first. *)
Definition word_bytes (word : Z) : ostream :=
  map (fun i => Chr (to_uchar (Z.shiftr word ((3 - i) * 8)))) [0; 1; 2; 3].

(** A run as a pair: what stands for its colour, and its length. The
    characters written for a list of runs. *)
Definition run_bytes (l : list (Z * Z)) : ostream :=
  flat_map (fun r => word_bytes (run_word (fst r) (snd r))) l.

(** The pixels that a list of runs stands for. *)
Definition unrle (l : list (Z * Z)) : list Z :=
  flat_map (fun r => repeat (fst r) (Z.to_nat (snd r))) l.

(** What a word of the colour layer holds: an index in its twelve upper
    bits, a length in its twenty lower bits. *)
Definition word_index (word : Z) : Z := Z.shiftr word 20.
Definition word_length (word : Z) : Z := Z.land word 0xfffff.

(** The words of the colour layer read back from the characters written
    for them: four characters for a word, the most significant first. *)
Fixpoint read_words (s : list item) : list Z :=
  match s with
  | Chr a :: Chr b :: Chr c :: Chr d :: s =>
      (((a * 256 + b) * 256 + c) * 256 + d) :: read_words s
  | _ => []
  end.

(** The runs read back from the characters written for them. *)
Definition read_runs (s : list item) : list (Z * Z) :=
  map (fun word => (word_index word, word_length word)) (read_words s).

(** The web-safe colour at the place [i] of the palette, as the spec has
    it. *)
Definition web_color_at (i : Z) : list item :=
  [Chr (51 * (i / 36)); Chr (51 * ((i / 6) mod 6)); Chr (51 * (i mod 6))].

(** The index of the web-safe colour of a pixel, as the spec has it. *)
Definition web_index (p : pixel) : Z :=
  (component p 2 + 1) / 43
  + 6 * ((component p 1 + 1) / 43 + 6 * ((component p 0 + 1) / 43)).

(** What the web-safe quantizer makes of the pixel at row [y] and column
    [x]. *)
Definition WebSafe_code (out_fg out_bg : Renderer) (y x : nat) : Z :=
  if foreground out_fg out_bg y x then WebSafe_index (cursor out_fg y x) else 0xfff.

(** What the web-safe quantizer writes before the runs. *)
Definition WebSafe_header (width height : Z) : ostream :=
  chars "R6 " ++ decimal width ++ chars " " ++ decimal height ++ chars " "
  ++ chars "216" ++ endl ++ flat_map web_color_at (Zseq 0 216).

(** The colour of the background under the first pixel. *)
Definition first_pixel (out_bg : Renderer) : Z * Z * Z :=
  (component (bitmap out_bg 0 0) 0,
   component (bitmap out_bg 0 0) 1,
   component (bitmap out_bg 0 0) 2).

(** A run that the encoders may hold while they scan a row up to the column
    [x]: its colour stands in twelve bits, and its pixels are among those
    scanned. *)
Definition run_within (x : Z) (r : Z * Z) : Prop :=
  0 <= fst r <= 0xfff /\ 1 <= snd r <= x.

(** A run that the web-safe and the default quantizers write for a row of
    [width] pixels. *)
Definition run_of_row (width : Z) (r : Z * Z) : Prop :=
  0 <= fst r <= 0xfff /\ 0 <= snd r <= Z.of_nat (Z.to_nat width)
  /\ (0 < width -> 1 <= snd r).

(** The positions of a bit set at which the bit is set, in the order in
    which the loops on [color] meet them. *)
Definition members (b : bitset) : list Z := List.filter b positions.

(** [n] counts the bits set in [b], which are all at positions of the bit
    set. *)
Definition counted (b : bitset) (n : Z) : Prop :=
  n = Z.of_nat (List.length (members b)) /\
  forall c, b c = true -> 0 <= c < bitset_size.

(** What the default quantizer makes of the pixel at row [y] and column
    [x]: its colour in eighteen bits, or no colour. *)
Definition Default_code (out_fg out_bg : Renderer) (y x : nat) : Rgb18.t :=
  if foreground out_fg out_bg y x
  then Rgb18.make (component (bitmap out_fg y x) 0)
                  (component (bitmap out_fg y x) 1)
                  (component (bitmap out_fg y x) 2)
  else Rgb18.none.

(** A run of the first scan as a pair. *)
Definition run_pair (r : Run.t) : Z * Z := (Run.color r, Run.length r).

(** The colour of a run of the first scan is no colour or a colour met in
    the scan. *)
Definition known (original_colors : bitset) (r : Run.t) : Prop :=
  Run.color r = Rgb18.none \/ original_colors (Run.color r) = true.

(** The runs kept for the row [y] stand for the pixels of the row. *)
Definition row_of (out_fg out_bg : Renderer) (width : Z) (original_colors : bitset)
    (y : nat) (line : list Run.t) : Prop :=
  unrle (map run_pair line)
  = map (Default_code out_fg out_bg y) (seq 0 (Z.to_nat width)) /\
  Forall (fun r => known original_colors r
                   /\ 1 <= Run.length r <= Z.of_nat (Z.to_nat width)) line.

(** What the default quantizer writes before the palette. *)
Definition Default_header (width height : Z) : ostream :=
  chars "R6 " ++ decimal width ++ chars " " ++ decimal height ++ chars " ".

(** The colours that a divisor of 128 leaves: each sample is 0 or 255. *)
Definition corners : list Z :=
  [Rgb18.make 0 0 0; Rgb18.make 255 0 0; Rgb18.make 0 255 0; Rgb18.make 255 255 0;
   Rgb18.make 0 0 255; Rgb18.make 255 0 255; Rgb18.make 0 255 255;
   Rgb18.make 255 255 255].

(** [m[key]] read for its value. *)
Definition index_of (m : gmap Z Z) (key : Z) : Z := default 0 (m !! key).

(** The characters written for the palette of the default quantizer: its
    size and its colours, or a palette of one white colour when no colour
    was found. *)
Definition palette_block (color_counter : Z) (colors : list Z) : ostream :=
  if color_counter =? 0 then decimal 1 ++ endl ++ [Chr 0xff; Chr 0xff; Chr 0xff]
  else decimal color_counter ++ endl ++ flat_map palette_entry colors.

(** The runs of the first scan as they are written: the index of the colour
    of each run, and its length. *)
Definition indexed (m : gmap Z Z) (line : list Run.t) : list (Z * Z) :=
  map (fun r => (index_of m (Run.color r), Run.length r)) line.

(** ** The statements on the classification of the pixels *)

(** In the image of [H] rows of [W] pixels, [codes] holds, row by row, the
    code [none] exactly at the pixels that the page and the background
    have in common: the other pixels are classified foreground. *)
Definition classifies (out_fg out_bg : Renderer) (W H : nat) (none : Z)
    (codes : list Z) : Prop :=
  forall y x, (y < H)%nat -> (x < W)%nat ->
    (nth (y * W + x) codes none = none <-> bitmap out_fg y x = bitmap out_bg y x).

(** A pixel of the image is foreground and is not black. *)
Definition lit_pixel (out_fg out_bg : Renderer) (W H : nat) : Prop :=
  exists y x, (y < H)%nat /\ (x < W)%nat /\
    bitmap out_fg y x <> bitmap out_bg y x /\
    bitmap out_fg y x <> (x00, x00, x00).

(** The colours kept by the first scan of the default quantizer, pixel by
    pixel, row by row. *)
Definition scanned_codes (s : pass1) : list Z :=
  flat_map (fun line => unrle (map run_pair line)) (runs s).

(** The image of the scenario of the spec: two pixels in one row, over a
    background of the colour (10, 10, 10); the second pixel of the page is
    (200, 0, 0). *)
Definition scenario_fg : Renderer :=
  {| address := 1;
     bitmap := fun y x =>
       match x with 1%nat => (xc8, x00, x00) | _ => (x0a, x0a, x0a) end |}.

Definition scenario_bg : Renderer :=
  {| address := 2; bitmap := fun y x => (x0a, x0a, x0a) |}.

Definition scenario_outputs : outputs :=
  {| background_color := (10, 10, 10);
     has_foreground := false;
     has_background := false;
     stream := [] |}.

(** A second rendering of the background of the scenario: the same pixels,
    held by another renderer. *)
Definition scenario_copy : Renderer :=
  {| address := 3; bitmap := bitmap scenario_bg |}.

(** An image of eight pixels in one row, each with samples that are 0 or
    255, over a grey background: it holds the eight colours that a divisor
    of 128 leaves. *)
Definition corners_fg : Renderer :=
  {| address := 1;
     bitmap := fun y x =>
       match x with
       | 0%nat => (x00, x00, x00)
       | 1%nat => (xff, x00, x00)
       | 2%nat => (x00, xff, x00)
       | 3%nat => (xff, xff, x00)
       | 4%nat => (x00, x00, xff)
       | 5%nat => (xff, x00, xff)
       | 6%nat => (x00, xff, xff)
       | _ => (xff, xff, xff)
       end |}.

Definition corners_bg : Renderer :=
  {| address := 2; bitmap := fun y x => (x80, x80, x80) |}.

(** ** The quantizer of GraphicsMagick, built without the library *)

(** What the code may throw. *)
Inductive exception : Type :=
| NotImplementedError.

(** A piece of code that returns or throws, and the stream it leaves. *)
Inductive thrown (A : Type) : Type :=
| Normal (a : A)
| Throws (e : exception).
Arguments Normal {A} a.
Arguments Throws {A} e.

Module NoGraphicsMagick.

(** An object of the class, which keeps the configuration it was built
    with. *)
Record GraphicsMagickQuantizer (Config : Type) : Type := {
  config : Config
}.

(** [GraphicsMagickQuantizer::GraphicsMagickQuantizer(const Config &)],
    in the branch taken when [HAVE_GRAPHICSMAGICK] is not set. *)
Definition new {Config : Type} (config : Config) :
    thrown (GraphicsMagickQuantizer Config) :=
  Throws NotImplementedError.

(** [GraphicsMagickQuantizer::operator()] in the same branch: its body is
    empty. *)
Definition call {Config : Type} (q : GraphicsMagickQuantizer Config)
    (out_fg out_bg : Renderer) (width height : Z) (o : outputs) : outputs :=
  o.

(** A use of the quantizer: the object is built, then [use] does what it
    wants with it, from the outputs [o]. *)
Definition with_quantizer {Config A : Type} (config : Config)
    (use : GraphicsMagickQuantizer Config -> outputs -> thrown A * outputs)
    (o : outputs) : thrown A * outputs :=
  match new config with
  | Normal q => use q o
  | Throws e => (Throws e, o)
  end.

(** The use that calls the quantizer once on a pair of renderers. *)
Definition quantize {Config : Type} (config : Config) (out_fg out_bg : Renderer)
    (width height : Z) (o : outputs) : thrown unit * outputs :=
  with_quantizer config
    (fun q o => (Normal tt, call q out_fg out_bg width height o)) o.

End NoGraphicsMagick.

(** ** Notions used in the further statements *)

(** Each element of the list differs from the one that follows it. *)
Fixpoint adjacent_differ (l : list Z) : Prop :=
  match l with
  | a :: (b :: _) as l' => a <> b /\ adjacent_differ l'
  | _ => True
  end.

(** A row of runs is packed: no run is empty and no two runs that follow
    each other have the same colour. *)
Definition packed (l : list (Z * Z)) : Prop :=
  Forall (fun r => 1 <= snd r) l /\ adjacent_differ (map fst l).

(** The colour [c] is that of a pixel of the foreground among the pixels
    at the cells [l]. *)
Definition met (out_fg out_bg : Renderer) (l : list (nat * nat)) (c : Z) : Prop :=
  exists y x, In (y, x) l /\ foreground out_fg out_bg y x = true
              /\ Default_code out_fg out_bg y x = c.

(** Nine colours: the eight whose samples are 0 or 255, and the red of
    sample 8, which the divisors from 5 to 8 keep apart from black. *)
Definition nine_colors : Z -> bool :=
  fun c => existsb (Z.eqb c) (Rgb18.make 8 0 0 :: corners).

(** A page of white pixels. *)
Definition white_fg : Renderer :=
  {| address := 1; bitmap := fun y x => (xff, xff, xff) |}.

(** * Properties *)

(** ** Bit-level facts on the colour model *)

Lemma lor_bound (n a b : Z) :
  0 <= n -> 0 <= a < 2 ^ n -> 0 <= b < 2 ^ n -> 0 <= Z.lor a b < 2 ^ n.
Proof.
  intros Hn Ha Hb.
  assert (Hnn : 0 <= Z.lor a b) by (apply Z.lor_nonneg; lia).
  split; [exact Hnn|].
  destruct (Z.eq_dec (Z.lor a b) 0) as [->|Hne].
  - apply Z.pow_pos_nonneg; lia.
  - assert (0 < n).
    { destruct (Z.eq_dec n 0) as [->|]; [|lia].
      assert (a = 0) by lia. assert (b = 0) by lia. subst. discriminate Hne ||
      (exfalso; apply Hne; reflexivity). }
    apply Z.log2_lt_pow2; [lia|].
    rewrite Z.log2_lor by lia.
    apply Z.max_lub_lt.
    + destruct (Z.eq_dec a 0) as [->|Ha0]; [simpl|apply Z.log2_lt_pow2]; lia.
    + destruct (Z.eq_dec b 0) as [->|Hb0]; [simpl|apply Z.log2_lt_pow2]; lia.
Qed.

Lemma get_bounds (value i : Z) : 0 <= Rgb18.get value i <= 255.
Proof.
  unfold Rgb18.get.
  change 0xff with (Z.ones 8). change 3 with (Z.ones 2).
  rewrite !Z.land_ones by lia.
  pose proof (Z.mod_pos_bound (Z.shiftl (Z.shiftr value (6 * i)) 2) (2 ^ 8)
                ltac:(reflexivity)) as Hhi.
  pose proof (Z.mod_pos_bound (Z.shiftr value (6 * i + 4)) (2 ^ 2)
                ltac:(reflexivity)) as Hlo.
  enough (0 <= Z.lor (Z.shiftl (Z.shiftr value (6 * i)) 2 mod 2 ^ 8)
                     (Z.shiftr value (6 * i + 4) mod 2 ^ 2) < 2 ^ 8)
    by (change (Z.ones 8) with 255; change (2 ^ 8) with 256 in *; lia).
  apply lor_bound; [lia|exact Hhi|].
  change (2 ^ 2) with 4 in *. change (2 ^ 8) with 256. lia.
Qed.

Lemma make_bounds (r g b : Z) :
  0 <= r <= 255 -> 0 <= g <= 255 -> 0 <= b <= 255 ->
  0 <= Rgb18.make r g b < 2 ^ 18.
Proof.
  intros Hr Hg Hb. unfold Rgb18.make.
  rewrite !Z.shiftr_div_pow2, !Z.shiftl_mul_pow2 by lia.
  change (2 ^ 2) with 4. change (2 ^ 6) with 64. change (2 ^ 12) with 4096.
  assert (0 <= r / 4 < 64) by (split; [apply Z.div_pos|apply Z.div_lt_upper_bound]; lia).
  assert (0 <= g / 4 < 64) by (split; [apply Z.div_pos|apply Z.div_lt_upper_bound]; lia).
  assert (0 <= b / 4 < 64) by (split; [apply Z.div_pos|apply Z.div_lt_upper_bound]; lia).
  apply lor_bound; [lia| |lia].
  enough (0 <= Z.lor (r / 4) (g / 4 * 64) < 2 ^ 12) by lia.
  apply lor_bound; lia.
Qed.

Lemma ceil_div_quot (k : Z) : 0 < k -> (256 + k - 1) ./ k = ceil_div 256 k.
Proof.
  intros Hk. unfold ceil_div.
  rewrite Z.quot_div_nonneg by lia.
  pose proof (Z.div_mod 256 k ltac:(lia)) as Hdm.
  pose proof (Z.mod_pos_bound 256 k Hk) as Hm.
  destruct (Z.eqb_spec (256 mod k) 0) as [H0|Hn0].
  - symmetry. apply Z.div_unique with (r := k - 1); lia.
  - symmetry. apply Z.div_unique with (r := 256 mod k - 1); lia.
Qed.

Lemma reduce_component_spec (value k i : Z) :
  0 < k -> 2 <= ceil_div 256 k ->
  Rgb18.reduce_component value (Z.shiftl 1 8) ((256 + k - 1) ./ k) i
  = reduced_value (Rgb18.get value i) k.
Proof.
  intros Hk Hc. unfold Rgb18.reduce_component, reduced_value, bucket.
  change (Z.shiftl 1 8) with 256. rewrite ceil_div_quot by exact Hk.
  pose proof (get_bounds value i) as Hv.
  rewrite (Z.quot_div_nonneg (_ * _) 256) by nia.
  assert (0 <= Rgb18.get value i * ceil_div 256 k / 256)
    by (apply Z.div_pos; nia).
  rewrite Z.quot_div_nonneg by nia.
  reflexivity.
Qed.

Lemma reduced_value_bounds (v k : Z) :
  0 <= v <= 255 -> 0 < k -> 2 <= ceil_div 256 k ->
  0 <= reduced_value v k <= 255.
Proof.
  intros Hv Hk Hc. unfold reduced_value, bucket.
  set (c := ceil_div 256 k) in *.
  assert (Hm0 : 0 <= v * c / 256) by (apply Z.div_pos; nia).
  assert (Hm1 : v * c / 256 <= c - 1).
  { enough (v * c / 256 < c) by lia. apply Z.div_lt_upper_bound; nia. }
  split.
  - apply Z.div_pos; nia.
  - enough (255 * (v * c / 256) / (c - 1) < 256) by lia.
    apply Z.div_lt_upper_bound; nia.
Qed.

(** ** Loops *)

(** An invariant that holds before the loop and is kept by each round holds
    after the loop. *)
Lemma for_ind {S : Type} (P : nat -> S -> Prop) (n : Z) (body : nat -> S -> S) (s : S) :
  P O s ->
  (forall i s, (i < Z.to_nat n)%nat -> P i s -> P (Datatypes.S i) (body i s)) ->
  P (Z.to_nat n) (for_ n body s).
Proof.
  intros H0 Hstep. unfold for_.
  induction (Z.to_nat n) as [|k IH].
  - exact H0.
  - rewrite seq_S, fold_left_app. simpl. apply Hstep; [lia|].
    apply IH. intros i s' Hi. apply Hstep. lia.
Qed.

(** ** Pixels under the cursors *)

Lemma sample_bounds (b : byte) : 0 <= sample b <= 255.
Proof.
  unfold sample. pose proof (Byte.to_N_bounded b). lia.
Qed.

Lemma sample_inj (a b : byte) : sample a = sample b -> a = b.
Proof.
  unfold sample. intros H. apply N2Z.inj in H.
  pose proof (Byte.of_to_N a) as Ha. pose proof (Byte.of_to_N b) as Hb.
  rewrite H in Ha. congruence.
Qed.

Lemma component_bounds (p : pixel) (i : nat) : 0 <= component p i <= 255.
Proof.
  destruct p as [[r g] b]. destruct i as [|[|i]]; simpl; apply sample_bounds.
Qed.

(** Two pixels differ in a sample exactly when they are not the same. *)
Lemma pixels_differ_iff (p q : pixel) : pixels_differ p q = true <-> p <> q.
Proof.
  destruct p as [[r g] b], q as [[r' g'] b']. unfold pixels_differ. simpl.
  rewrite !orb_true_iff, !negb_true_iff, !Z.eqb_neq. split.
  - intros H E. injection E as -> -> ->. tauto.
  - intros H.
    destruct (Z.eq_dec (sample r) (sample r')) as [Er|]; [|tauto].
    destruct (Z.eq_dec (sample g) (sample g')) as [Eg|]; [|tauto].
    destruct (Z.eq_dec (sample b) (sample b')) as [Eb|]; [|tauto].
    apply sample_inj in Er, Eg, Eb. subst. contradiction.
Qed.

(** A sample of a pixel is not zero exactly when the pixel is not black. *)
Lemma pixel_nonzero_iff (p : pixel) : pixel_nonzero p = true <-> p <> (x00, x00, x00).
Proof.
  destruct p as [[r g] b]. unfold pixel_nonzero. simpl.
  rewrite !orb_true_iff, !negb_true_iff, !Z.eqb_neq.
  change 0 with (sample x00). split.
  - intros H E. injection E as -> -> ->. tauto.
  - intros H.
    destruct (Z.eq_dec (sample r) (sample x00)) as [Er|]; [|tauto].
    destruct (Z.eq_dec (sample g) (sample x00)) as [Eg|]; [|tauto].
    destruct (Z.eq_dec (sample b) (sample x00)) as [Eb|]; [|tauto].
    apply sample_inj in Er, Eg, Eb. subst. contradiction.
Qed.

Lemma differ_under (p q : Pixmap.iterator) :
  differ p q = pixels_differ (under p) (under q).
Proof. reflexivity. Qed.

Lemma nonzero_under (p : Pixmap.iterator) : nonzero p = pixel_nonzero (under p).
Proof. reflexivity. Qed.

(** ** The flags along a scan *)

Lemma cells_next (w y x : nat) : cells w y (S x) = cells w y x ++ [(y, x)].
Proof.
  unfold cells. rewrite seq_S, map_app, app_assoc. reflexivity.
Qed.

Lemma cells_next_row (w y : nat) : cells w (S y) 0 = cells w y w.
Proof.
  unfold cells. rewrite seq_S, flat_map_app. simpl. rewrite !app_nil_r. reflexivity.
Qed.

Lemma in_cells (w y x y' x' : nat) :
  In (y', x') (cells w y x) <-> (y' < y /\ x' < w)%nat \/ (y' = y /\ x' < x)%nat.
Proof.
  unfold cells. rewrite in_app_iff, in_flat_map. split.
  - intros [[y0 [Hy0 Hin]]|Hin].
    + apply in_map_iff in Hin as [x0 [E Hx0]]. injection E as <- <-.
      apply in_seq in Hy0, Hx0. left. lia.
    + apply in_map_iff in Hin as [x0 [E Hx0]]. injection E as <- <-.
      apply in_seq in Hx0. right. lia.
  - intros [[Hy Hx]|[-> Hx]].
    + left. exists y'. split; [apply in_seq; lia|].
      apply in_map. apply in_seq. lia.
    + right. apply in_map. apply in_seq. lia.
Qed.

Lemma scanned_pixel out_fg out_bg o w y x s s' :
  scanned out_fg out_bg o w y x s -> pixel_step s s' ->
  scanned out_fg out_bg o w y (S x) s'.
Proof.
  intros (Hf & Hb & Hc & Hhf & Hhb) (Hf' & Hb' & Hc' & Hhf' & Hhb').
  unfold scanned. rewrite cells_next, !existsb_app. simpl.
  rewrite Hf', Hb', Hc', Hhf', Hhb', Hf, Hb, Hc, Hhf, Hhb.
  unfold lit, off, under, cursor. simpl.
  repeat split; try reflexivity.
  - rewrite orb_false_r, orb_assoc. reflexivity.
  - rewrite orb_false_r, orb_assoc. reflexivity.
Qed.

Lemma scanned_row out_fg out_bg o w y s s' :
  scanned out_fg out_bg o w y w s -> row_step s s' ->
  scanned out_fg out_bg o w (S y) 0 s'.
Proof.
  intros (Hf & Hb & Hc & Hhf & Hhb) (Hf' & Hb' & Hc' & Hhf' & Hhb').
  unfold scanned. rewrite cells_next_row.
  rewrite Hf', Hb', Hc', Hhf', Hhb', Hf, Hb, Hc, Hhf, Hhb.
  repeat split; reflexivity.
Qed.

Lemma check_background_spec (p : Pixmap.iterator) (o : outputs) :
  background_color (check_background p o) = background_color o /\
  has_foreground (check_background p o) = has_foreground o /\
  has_background (check_background p o)
  = has_background o || off_color (background_color o) (under p) /\
  stream (check_background p o) = stream o.
Proof.
  unfold check_background.
  change (negb (background (background_color o) 0 =? p.[0%nat])
          || negb (background (background_color o) 1 =? p.[1%nat])
          || negb (background (background_color o) 2 =? p.[2%nat]))
    with (off_color (background_color o) (under p)).
  destruct (has_background o) eqn:Hb; simpl.
  - rewrite Hb. repeat split; reflexivity.
  - destruct (off_color (background_color o) (under p)); simpl;
      rewrite ?Hb; repeat split; reflexivity.
Qed.

Lemma check_foreground_spec (p : Pixmap.iterator) (o : outputs) :
  background_color (check_foreground p o) = background_color o /\
  has_foreground (check_foreground p o)
  = has_foreground o || pixel_nonzero (under p) /\
  has_background (check_foreground p o) = has_background o /\
  stream (check_foreground p o) = stream o.
Proof.
  unfold check_foreground. rewrite nonzero_under.
  destruct (has_foreground o) eqn:Hf; simpl.
  - rewrite Hf. repeat split; reflexivity.
  - destruct (pixel_nonzero (under p)); simpl; rewrite ?Hf; repeat split; reflexivity.
Qed.

Lemma tested_spec (s : scan) :
  background_color (tested s) = background_color (out s) /\
  has_foreground (tested s)
  = has_foreground (out s)
    || pixels_differ (under (p_fg s)) (under (p_bg s)) && pixel_nonzero (under (p_fg s)) /\
  has_background (tested s)
  = has_background (out s) || off_color (background_color (out s)) (under (p_bg s)) /\
  stream (tested s) = stream (out s).
Proof.
  unfold tested. rewrite differ_under.
  destruct (check_background_spec (p_bg s) (out s)) as (Hc & Hf & Hb & Hs).
  destruct (pixels_differ (under (p_fg s)) (under (p_bg s))); simpl.
  - destruct (check_foreground_spec (p_fg s) (check_background (p_bg s) (out s)))
      as (Hc' & Hf' & Hb' & Hs').
    rewrite Hc', Hf', Hb', Hs', Hc, Hf, Hb, Hs. repeat split; reflexivity.
  - rewrite Hc, Hf, Hb, Hs, orb_false_r. repeat split; reflexivity.
Qed.


Lemma outputs_eq (o o' : outputs) :
  background_color o = background_color o' ->
  has_foreground o = has_foreground o' ->
  has_background o = has_background o' ->
  stream o = stream o' ->
  o = o'.
Proof.
  destruct o, o'. simpl. intros -> -> -> ->. reflexivity.
Qed.

Lemma scanned_start out_fg out_bg o o' w :
  background_color o' = background_color o ->
  has_foreground o' = has_foreground o ->
  has_background o' = has_background o ->
  scanned out_fg out_bg o w 0 0
    {| p_fg := Pixmap.begin_ out_fg; p_bg := Pixmap.begin_ out_bg; out := o' |}.
Proof.
  intros Hc Hf Hb. unfold scanned, cells. simpl.
  rewrite Hc, Hf, Hb, !orb_false_r. repeat split; reflexivity.
Qed.

Lemma grid_length {A : Type} (f : nat -> nat -> A) (w h : nat) :
  List.length (grid f w h) = (h * w)%nat.
Proof.
  unfold grid. induction h as [|h IH].
  - reflexivity.
  - rewrite seq_S, flat_map_app, length_app, IH. simpl.
    rewrite app_nil_r, length_map, length_seq. lia.
Qed.

Lemma grid_succ {A : Type} (f : nat -> nat -> A) (w h : nat) :
  grid f w (S h) = grid f w h ++ map (f h) (seq 0 w).
Proof.
  unfold grid. rewrite seq_S, flat_map_app. simpl. rewrite app_nil_r. reflexivity.
Qed.

(** The pixel at row [y] and column [x] is at the place [y * w + x] of the
    grid. *)
Lemma grid_nth {A : Type} (f : nat -> nat -> A) (w h y x : nat) (d : A) :
  (y < h)%nat -> (x < w)%nat -> nth (y * w + x) (grid f w h) d = f y x.
Proof.
  intros Hy Hx. induction h as [|h IH]; [lia|].
  rewrite grid_succ.
  destruct (Nat.eq_dec y h) as [->|Hne].
  - rewrite app_nth2; rewrite grid_length; [|lia].
    replace (h * w + x - h * w)%nat with x by lia.
    rewrite nth_indep with (d' := f h 0%nat) by (rewrite length_map, length_seq; lia).
    rewrite map_nth, seq_nth by lia. reflexivity.
  - rewrite app_nth1; [apply IH; lia|].
    rewrite grid_length. nia.
Qed.

(** ** The dummy quantizer *)

Lemma dummy_quantizer_spec (width height : Z) (o : outputs) :
  dummy_quantizer width height o
  = {| background_color := (0xff, 0xff, 0xff);
       has_foreground := has_foreground o;
       has_background := has_background o;
       stream := stream o ++ dummy_encoding width height |}.
Proof.
  unfold dummy_quantizer, dummy_encoding.
  apply outputs_eq; try reflexivity. simpl.
  apply (for_ind (fun i s =>
           s = stream o ++ R4_new width height :: repeat (R4_output_run width) i)).
  - reflexivity.
  - intros i s _ ->. rewrite <- app_assoc. simpl. f_equal. f_equal.
    rewrite <- repeat_cons. reflexivity.
Qed.

Lemma written_app (o o' : outputs) (s : ostream) :
  stream o' = stream o ++ s -> written o o' = s.
Proof.
  intros H. unfold written. rewrite H, skipn_app, skipn_all, Nat.sub_diag. reflexivity.
Qed.

(** ** The mask quantizer *)

Lemma Mask_pixel_spec (s : scan) :
  pixel_step s (Mask_pixel s) /\
  stream (out (Mask_pixel s))
  = stream (out s)
    ++ [R4_pixel (if pixels_differ (under (p_fg s)) (under (p_bg s)) then 1 else 0)].
Proof.
  destruct (tested_spec s) as (Hc & Hf & Hb & Hs).
  unfold tested in Hc, Hf, Hb, Hs. unfold pixel_step, Mask_pixel.
  rewrite <- differ_under in *.
  destruct (differ (p_fg s) (p_bg s)); simpl; rewrite Hc, Hf, Hb, Hs;
    repeat split; reflexivity.
Qed.

Lemma Mask_row_spec out_fg out_bg o (width : Z) (y : nat) (s : scan) :
  scanned out_fg out_bg o (Z.to_nat width) y 0 s ->
  scanned out_fg out_bg o (Z.to_nat width) (S y) 0 (Mask_row width s) /\
  stream (out (Mask_row width s))
  = stream (out s)
    ++ map (fun x => R4_pixel (if foreground out_fg out_bg y x then 1 else 0))
         (seq 0 (Z.to_nat width)).
Proof.
  intros H0. unfold Mask_row.
  pose proof (for_ind (fun x s' =>
      scanned out_fg out_bg o (Z.to_nat width) y x s' /\
      stream (out s')
      = stream (out s)
        ++ map (fun x => R4_pixel (if foreground out_fg out_bg y x then 1 else 0))
             (seq 0 x)) width (fun _ => Mask_pixel) s) as Hloop.
  destruct Hloop as [Hsc Hst].
  - split; [exact H0|]. simpl. rewrite app_nil_r. reflexivity.
  - intros x s' _ [Hsc Hst]. destruct (Mask_pixel_spec s') as [Hstep Hout].
    split; [eapply scanned_pixel; eassumption|].
    rewrite Hout, Hst, seq_S, map_app, <- app_assoc. simpl.
    destruct Hsc as (-> & -> & _). reflexivity.
  - split; [|exact Hst].
    eapply scanned_row; [exact Hsc|]. repeat split; reflexivity.
Qed.

Lemma MaskQuantizer_spec out_fg out_bg (width height : Z) (o : outputs) :
  address out_fg <> address out_bg ->
  MaskQuantizer out_fg out_bg width height o
  = {| background_color := background_color o;
       has_foreground :=
         has_foreground o
         || existsb (lit out_fg out_bg) (cells (Z.to_nat width) (Z.to_nat height) 0);
       has_background :=
         has_background o
         || existsb (off (background_color o) out_bg)
              (cells (Z.to_nat width) (Z.to_nat height) 0);
       stream :=
         stream o ++ R4_new width height
         :: grid (fun y x => R4_pixel (if foreground out_fg out_bg y x then 1 else 0))
              (Z.to_nat width) (Z.to_nat height) |}.
Proof.
  intros Hne. unfold MaskQuantizer.
  destruct (Z.eqb_spec (address out_fg) (address out_bg)) as [E|_]; [contradiction|].
  pose proof (for_ind (fun y s =>
      scanned out_fg out_bg o (Z.to_nat width) y 0 s /\
      stream (out s)
      = stream o ++ R4_new width height
        :: grid (fun y x => R4_pixel (if foreground out_fg out_bg y x then 1 else 0))
             (Z.to_nat width) y) height (fun _ => Mask_row width)
      {| p_fg := Pixmap.begin_ out_fg; p_bg := Pixmap.begin_ out_bg;
         out := set_stream o (stream o ++ [R4_new width height]) |}) as Hloop.
  destruct Hloop as [(_ & _ & Hc & Hf & Hb) Hst].
  - split; [apply scanned_start; reflexivity|]. reflexivity.
  - intros y s _ [Hsc Hst]. destruct (Mask_row_spec _ _ _ _ _ _ Hsc) as [Hsc' Hst'].
    split; [exact Hsc'|].
    rewrite Hst', Hst, grid_succ, <- app_assoc. reflexivity.
  - apply outputs_eq; simpl; assumption.
Qed.

(** The scenario of the spec under the mask quantizer: the encoder is given
    the bits 0 and 1, the foreground is seen, and the background is of the
    colour that the caller gave. *)
Example scenario_mask :
  MaskQuantizer scenario_fg scenario_bg 2 1 scenario_outputs
  = {| background_color := (10, 10, 10);
       has_foreground := true;
       has_background := false;
       stream := [R4_new 2 1; R4_pixel 0; R4_pixel 1] |}.
Proof. vm_compute. reflexivity. Qed.

(** ** The web-safe quantizer *)

(** A loop that appends to the stream in each round appends what the
    rounds append, in order. *)
Lemma for_append {A : Type} (n : Z) (body : nat -> list A -> list A)
    (g : nat -> list A) (s : list A) :
  (forall i s, body i s = s ++ g i) ->
  for_ n body s = s ++ flat_map g (seq 0 (Z.to_nat n)).
Proof.
  intros Hbody.
  apply (for_ind (fun i s' => s' = s ++ flat_map g (seq 0 i))).
  - simpl. rewrite app_nil_r. reflexivity.
  - intros i s' _ ->. rewrite Hbody, seq_S, flat_map_app, <- app_assoc. simpl.
    rewrite app_nil_r. reflexivity.
Qed.

Lemma output_web_palette_spec (s : ostream) :
  output_web_palette s
  = s ++ chars "216" ++ endl ++ flat_map web_color_at (Zseq 0 216).
Proof.
  unfold output_web_palette.
  rewrite for_append with
    (g := fun r => flat_map (fun g => flat_map (fun b =>
            [Chr (to_uchar (51 * Z.of_nat r)); Chr (to_uchar (51 * Z.of_nat g));
             Chr (to_uchar (51 * Z.of_nat b))]) (seq 0 6)) (seq 0 6)).
  - rewrite <- !app_assoc. do 3 f_equal.
  - intros r s'. apply for_append. intros g s''. apply for_append.
    intros b s3. reflexivity.
Qed.

Lemma write_uint32_spec (s : ostream) (item : Z) :
  write_uint32 s item = s ++ word_bytes item.
Proof. reflexivity. Qed.

Lemma WebSafe_index_spec (p : Pixmap.iterator) :
  WebSafe_index p = web_index (under p) /\ 0 <= WebSafe_index p <= 215.
Proof.
  unfold WebSafe_index, web_index, Pixmap.at_. fold (under p).
  pose proof (component_bounds (under p) 0) as H0.
  pose proof (component_bounds (under p) 1) as H1.
  pose proof (component_bounds (under p) 2) as H2.
  rewrite !Z.quot_div_nonneg by lia.
  split; [reflexivity|].
  assert (Hd : forall v, 0 <= v <= 255 -> 0 <= (v + 1) / 43 <= 5).
  { intros v Hv. split; [apply Z.div_pos; lia|].
    enough ((v + 1) / 43 < 6) by lia. apply Z.div_lt_upper_bound; lia. }
  pose proof (Hd _ H0). pose proof (Hd _ H1). pose proof (Hd _ H2). lia.
Qed.

Lemma WebSafe_pixel_spec (s : web_scan) :
  let code :=
    if pixels_differ (under (p_fg (web s))) (under (p_bg (web s)))
    then WebSafe_index (p_fg (web s)) else 0xfff in
  pixel_step (web s) (web (WebSafe_pixel s)) /\
  (web_color s = code ->
   stream (out (web (WebSafe_pixel s))) = stream (out (web s)) /\
   web_color (WebSafe_pixel s) = web_color s /\
   web_length (WebSafe_pixel s) = web_length s + 1) /\
  (web_color s <> code ->
   stream (out (web (WebSafe_pixel s)))
   = stream (out (web s))
     ++ (if web_length s >? 0 then word_bytes (run_word (web_color s) (web_length s))
         else []) /\
   web_color (WebSafe_pixel s) = code /\
   web_length (WebSafe_pixel s) = 1).
Proof.
  destruct (tested_spec (web s)) as (Hc & Hf & Hb & Hs).
  unfold tested in Hc, Hf, Hb, Hs. unfold pixel_step, WebSafe_pixel.
  rewrite <- differ_under in *.
  destruct (differ (p_fg (web s)) (p_bg (web s))); simpl.
  - destruct (Z.eqb_spec (web_color s) (WebSafe_index (p_fg (web s)))) as [E|NE];
      simpl; (split; [rewrite ?Hc, ?Hf, ?Hb; repeat split; try reflexivity|]).
    + split; [intros _; rewrite Hs; repeat split; reflexivity|contradiction].
    + destruct (web_length s >? 0); simpl; rewrite ?Hc, ?Hf, ?Hb; reflexivity.
    + destruct (web_length s >? 0); simpl; rewrite ?Hc, ?Hf, ?Hb; reflexivity.
    + destruct (web_length s >? 0); simpl; rewrite ?Hc, ?Hf, ?Hb; reflexivity.
    + split; [contradiction|]. intros _.
      destruct (web_length s >? 0); simpl; rewrite Hs, ?app_nil_r;
        repeat split; reflexivity.
  - destruct (Z.eqb_spec (web_color s) 4095) as [E|NE];
      simpl; (split; [rewrite ?Hc, ?Hf, ?Hb; repeat split; try reflexivity|]).
    + split; [intros _; rewrite Hs; repeat split; reflexivity|contradiction].
    + destruct (web_length s >? 0); simpl; rewrite ?Hc, ?Hf, ?Hb; reflexivity.
    + destruct (web_length s >? 0); simpl; rewrite ?Hc, ?Hf, ?Hb; reflexivity.
    + destruct (web_length s >? 0); simpl; rewrite ?Hc, ?Hf, ?Hb; reflexivity.
    + split; [contradiction|]. intros _.
      destruct (web_length s >? 0); simpl; rewrite Hs, ?app_nil_r;
        repeat split; reflexivity.
Qed.

Lemma run_bytes_app (l l' : list (Z * Z)) :
  run_bytes (l ++ l') = run_bytes l ++ run_bytes l'.
Proof. apply flat_map_app. Qed.

Lemma unrle_app (l l' : list (Z * Z)) : unrle (l ++ l') = unrle l ++ unrle l'.
Proof. apply flat_map_app. Qed.

Lemma repeat_succ {A : Type} (a : A) (n : Z) :
  0 <= n -> repeat a (Z.to_nat (n + 1)) = repeat a (Z.to_nat n) ++ [a].
Proof.
  intros Hn. rewrite Z2Nat.inj_add by lia. simpl.
  rewrite repeat_app. reflexivity.
Qed.

Lemma run_within_le (x x' : Z) (r : Z * Z) :
  x <= x' -> run_within x r -> run_within x' r.
Proof. unfold run_within. lia. Qed.

Lemma WebSafe_code_bounds out_fg out_bg y x :
  0 <= WebSafe_code out_fg out_bg y x <= 0xfff.
Proof.
  unfold WebSafe_code. destruct (foreground out_fg out_bg y x); [|lia].
  pose proof (WebSafe_index_spec (cursor out_fg y x)). lia.
Qed.

(** The runs that the loop on [x] has written, with the run it holds, stand
    for the pixels of the row scanned so far. *)
Lemma WebSafe_row_spec out_fg out_bg o (width : Z) (y : nat) (s : scan) :
  scanned out_fg out_bg o (Z.to_nat width) y 0 s ->
  scanned out_fg out_bg o (Z.to_nat width) (S y) 0 (WebSafe_row width s) /\
  exists l : list (Z * Z),
    stream (out (WebSafe_row width s)) = stream (out s) ++ run_bytes l /\
    unrle l = map (WebSafe_code out_fg out_bg y) (seq 0 (Z.to_nat width)) /\
    Forall (run_of_row width) l.
Proof.
  intros H0. unfold WebSafe_row.
  pose proof (for_ind (fun x r =>
      scanned out_fg out_bg o (Z.to_nat width) y x (web r) /\
      0 <= web_color r <= 0xfff /\
      0 <= web_length r <= Z.of_nat x /\
      ((0 < x)%nat -> 1 <= web_length r) /\
      exists l : list (Z * Z),
        stream (out (web r)) = stream (out s) ++ run_bytes l /\
        unrle l ++ repeat (web_color r) (Z.to_nat (web_length r))
        = map (WebSafe_code out_fg out_bg y) (seq 0 x) /\
        Forall (run_within (Z.of_nat x)) l)
    width (fun _ => WebSafe_pixel)
    {| web := s; web_color := 0xfff; web_length := 0 |}) as Hloop.
  destruct Hloop as (Hsc & Hcol & Hlen & Hpos & l & Hst & Hun & Hall).
  - simpl. split; [exact H0|]. split; [lia|]. split; [lia|]. split; [lia|].
    exists []. simpl. rewrite app_nil_r. split; [reflexivity|].
    split; [reflexivity|constructor].
  - intros x r _ (Hsc & Hcol & Hlen & Hpos & l & Hst & Hun & Hall).
    destruct (WebSafe_pixel_spec r) as (Hstep & Hsame & Hnew).
    assert (Hcode :
      (if pixels_differ (under (p_fg (web r))) (under (p_bg (web r)))
       then WebSafe_index (p_fg (web r)) else 0xfff)
      = WebSafe_code out_fg out_bg y x).
    { destruct Hsc as (-> & -> & _). reflexivity. }
    rewrite Hcode in Hsame, Hnew.
    pose proof (WebSafe_code_bounds out_fg out_bg y x) as Hb.
    split; [eapply scanned_pixel; eassumption|].
    rewrite seq_S, map_app. simpl.
    destruct (Z.eq_dec (web_color r) (WebSafe_code out_fg out_bg y x)) as [E|NE].
    + destruct (Hsame E) as (Hs' & Hc' & Hl'). rewrite Hs', Hc', Hl'.
      split; [lia|]. split; [lia|]. split; [lia|].
      exists l. split; [exact Hst|]. split.
      * rewrite repeat_succ, app_assoc, Hun, E by lia. reflexivity.
      * eapply Forall_impl; [exact Hall|]. intros a. apply run_within_le. lia.
    + destruct (Hnew NE) as (Hs' & Hc' & Hl'). rewrite Hs', Hc', Hl'.
      split; [lia|]. split; [lia|]. split; [lia|].
      destruct (Z.gtb_spec (web_length r) 0) as [Hgt|Hle].
      * exists (l ++ [(web_color r, web_length r)]).
        rewrite run_bytes_app, unrle_app, Hst, <- !app_assoc. simpl.
        rewrite !app_nil_r. split; [reflexivity|]. split.
        -- rewrite app_assoc, Hun. reflexivity.
        -- apply Forall_app. split.
           ++ eapply Forall_impl; [exact Hall|]. intros a. apply run_within_le. lia.
           ++ constructor; [|constructor]. unfold run_within. simpl. lia.
      * exists l. rewrite app_nil_r. split; [exact Hst|]. split.
        -- replace (web_length r) with 0 in Hun by lia. simpl in Hun.
           rewrite app_nil_r in Hun. rewrite Hun. reflexivity.
        -- eapply Forall_impl; [exact Hall|]. intros a. apply run_within_le. lia.
  - split.
    + eapply scanned_row; [exact Hsc|]. repeat split; reflexivity.
    + exists (l ++ [(web_color (for_ width (fun _ => WebSafe_pixel)
                       {| web := s; web_color := 0xfff; web_length := 0 |}),
                     web_length (for_ width (fun _ => WebSafe_pixel)
                       {| web := s; web_color := 0xfff; web_length := 0 |}))]).
      simpl. rewrite write_uint32_spec, Hst, run_bytes_app, unrle_app, <- app_assoc.
      simpl. rewrite !app_nil_r. split; [reflexivity|]. split; [exact Hun|].
      apply Forall_app. split.
      * eapply Forall_impl; [exact Hall|]. unfold run_within, run_of_row.
        intros a. lia.
      * constructor; [|constructor]. unfold run_of_row. simpl.
        split; [lia|]. split; [lia|]. intros Hw. apply Hpos. lia.
Qed.

Lemma WebSafeQuantizer_spec out_fg out_bg (width height : Z) (o : outputs) :
  address out_fg <> address out_bg ->
  exists l : list (Z * Z),
    WebSafeQuantizer out_fg out_bg width height o
    = {| background_color := first_pixel out_bg;
         has_foreground :=
           has_foreground o
           || existsb (lit out_fg out_bg) (cells (Z.to_nat width) (Z.to_nat height) 0);
         has_background :=
           has_background o
           || existsb (off (first_pixel out_bg) out_bg)
                (cells (Z.to_nat width) (Z.to_nat height) 0);
         stream := stream o ++ WebSafe_header width height ++ run_bytes l |} /\
    unrle l = grid (WebSafe_code out_fg out_bg) (Z.to_nat width) (Z.to_nat height) /\
    Forall (run_of_row width) l.
Proof.
  intros Hne. unfold WebSafeQuantizer.
  destruct (Z.eqb_spec (address out_fg) (address out_bg)) as [E|_]; [contradiction|].
  rewrite output_web_palette_spec.
  set (o' := sample_background _ _).
  pose proof (for_ind (fun y s =>
      scanned out_fg out_bg o' (Z.to_nat width) y 0 s /\
      exists l : list (Z * Z),
        stream (out s) = stream o' ++ run_bytes l /\
        unrle l = grid (WebSafe_code out_fg out_bg) (Z.to_nat width) y /\
        Forall (run_of_row width) l)
    height (fun _ => WebSafe_row width)
    {| p_fg := Pixmap.begin_ out_fg; p_bg := Pixmap.begin_ out_bg; out := o' |})
    as Hloop.
  destruct Hloop as [(_ & _ & Hc & Hf & Hb) (l & Hst & Hun & Hall)].
  - split; [apply scanned_start; reflexivity|].
    exists []. simpl. rewrite app_nil_r. split; [reflexivity|].
    split; [reflexivity|constructor].
  - intros y s _ [Hsc (l & Hst & Hun & Hall)].
    destruct (WebSafe_row_spec _ _ _ _ _ _ Hsc) as [Hsc' (l' & Hst' & Hun' & Hall')].
    split; [exact Hsc'|].
    exists (l ++ l').
    rewrite run_bytes_app, unrle_app, grid_succ, Hst', Hst, Hun, Hun', <- app_assoc.
    split; [reflexivity|]. split; [reflexivity|].
    apply Forall_app. split; assumption.
  - exists l. split; [|split; assumption].
    assert (Hs0 : stream o' = stream o ++ WebSafe_header width height).
    { unfold o', WebSafe_header, sample_background, set_background_color, set_stream.
      cbn [stream]. rewrite <- !app_assoc. reflexivity. }
    apply outputs_eq; cbn [background_color has_foreground has_background stream].
    + exact Hc.
    + exact Hf.
    + exact Hb.
    + rewrite Hst, Hs0, <- app_assoc. reflexivity.
Qed.

(** The scenario of the spec under the web-safe quantizer: after the
    header and the palette, a run of one pixel of the background and a run
    of one pixel of the colour 144, that of the red 204. *)
Example scenario_web_safe :
  written scenario_outputs
    (WebSafeQuantizer scenario_fg scenario_bg 2 1 scenario_outputs)
  = WebSafe_header 2 1 ++ run_bytes [(0xfff, 1); (144, 1)].
Proof. vm_compute. reflexivity. Qed.

(** A word of the colour layer gives back the index and the length it was
    made of, when they fit their twelve and twenty bits. *)
Lemma run_word_spec (color length : Z) :
  0 <= color <= 0xfff -> 0 <= length < 2 ^ 20 ->
  run_word color length = color * 2 ^ 20 + length /\
  word_index (run_word color length) = color /\
  word_length (run_word color length) = length.
Proof.
  intros Hc Hl.
  assert (E : run_word color length = color * 2 ^ 20 + length).
  { unfold run_word, to_uint32. rewrite Z.shiftl_mul_pow2 by lia.
    rewrite (Z.mod_small color) by lia.
    rewrite (Z.mod_small (color * 2 ^ 20)) by lia.
    apply Z.mod_small. lia. }
  split; [exact E|]. rewrite E. unfold word_index, word_length. split.
  - rewrite Z.shiftr_div_pow2 by lia.
    rewrite Z.div_add_l by lia. rewrite Z.div_small by lia. lia.
  - change 0xfffff with (Z.ones 20). rewrite Z.land_ones by lia.
    rewrite Z.add_comm, Z.mod_add by lia. apply Z.mod_small. lia.
Qed.

(** The runs written for rows of less than 2 ^ 20 pixels are read back
    from the characters written for them. *)
Lemma read_word_bytes (word : Z) (s : list item) :
  0 <= word < 2 ^ 32 ->
  read_words (word_bytes word ++ s) = word :: read_words s.
Proof.
  intros Hw. unfold word_bytes, to_uchar. cbn [map app read_words]. f_equal.
  rewrite !Z.shiftr_div_pow2 by lia.
  change ((3 - 0) * 8) with 24. change ((3 - 1) * 8) with 16.
  change ((3 - 2) * 8) with 8. change ((3 - 3) * 8) with 0.
  change (2 ^ 24) with 16777216. change (2 ^ 16) with 65536.
  change (2 ^ 8) with 256. change (2 ^ 0) with 1. change (2 ^ 32) with 4294967296 in Hw.
  rewrite Z.div_1_r.
  Z.to_euclidean_division_equations. lia.
Qed.

Lemma read_run_bytes (width : Z) (l : list (Z * Z)) :
  width < 2 ^ 20 -> Forall (run_of_row width) l -> read_runs (run_bytes l) = l.
Proof.
  intros Hw Hall. unfold read_runs.
  induction Hall as [|[color length] l (Hc & Hl & _) Hall IH]; [reflexivity|].
  cbn [fst snd] in Hc, Hl.
  destruct (run_word_spec color length Hc ltac:(lia)) as (Hword & Hi & Hlen).
  change (run_bytes ((color, length) :: l))
    with (word_bytes (run_word color length) ++ run_bytes l).
  rewrite read_word_bytes by (rewrite Hword; lia).
  cbn [map]. rewrite Hi, Hlen, IH. reflexivity.
Qed.

(** ** Bit sets *)

Lemma positions_eq : positions = Zseq 0 (Z.to_nat bitset_size).
Proof. reflexivity. Qed.

(** The list of the positions is long: from here on it is handled through
    the facts below. *)
Opaque positions.

Lemma Zseq_in (start : Z) (len : nat) (c : Z) :
  In c (Zseq start len) <-> start <= c < start + Z.of_nat len.
Proof.
  revert start. induction len as [|len IH]; intros start.
  - simpl. lia.
  - cbn [Zseq In]. rewrite IH. lia.
Qed.

Lemma Zseq_sorted (start : Z) (len : nat) : StronglySorted Z.lt (Zseq start len).
Proof.
  revert start. induction len as [|len IH]; intros start; cbn [Zseq].
  - constructor.
  - constructor; [apply IH|].
    apply List.Forall_forall. intros c Hc. apply Zseq_in in Hc. lia.
Qed.

Lemma sorted_NoDup (l : list Z) : StronglySorted Z.lt l -> List.NoDup l.
Proof.
  induction 1 as [|a l Hs IH Hall]; constructor; [|exact IH].
  intros Hin. rewrite List.Forall_forall in Hall. specialize (Hall a Hin). lia.
Qed.

Lemma sorted_filter (f : Z -> bool) (l : list Z) :
  StronglySorted Z.lt l -> StronglySorted Z.lt (List.filter f l).
Proof.
  induction 1 as [|a l Hs IH Hall]; simpl; [constructor|].
  destruct (f a); [|exact IH].
  constructor; [exact IH|].
  rewrite List.Forall_forall in *. intros c Hc. apply filter_In in Hc. apply Hall, Hc.
Qed.

Lemma positions_in (c : Z) : In c positions <-> 0 <= c < bitset_size.
Proof.
  rewrite positions_eq, Zseq_in, Z2Nat.id by (change bitset_size with 262144; lia).
  lia.
Qed.

Lemma positions_sorted : StronglySorted Z.lt positions.
Proof. rewrite positions_eq. apply Zseq_sorted. Qed.

Lemma members_sorted (b : bitset) : StronglySorted Z.lt (members b).
Proof. apply sorted_filter, positions_sorted. Qed.

Lemma members_in (b : bitset) (c : Z) :
  In c (members b) <-> 0 <= c < bitset_size /\ b c = true.
Proof.
  unfold members. rewrite filter_In, positions_in. reflexivity.
Qed.

Lemma filter_ext_in' {A : Type} (f g : A -> bool) (l : list A) :
  (forall a, In a l -> f a = g a) -> List.filter f l = List.filter g l.
Proof.
  induction l as [|a l IH]; intros H; simpl; [reflexivity|].
  rewrite (H a) by (left; reflexivity).
  rewrite IH by (intros a' Ha'; apply H; right; exact Ha'). reflexivity.
Qed.

(** Setting a bit that was clear adds one to the count of the bits set. *)
Lemma filter_set_length (b : bitset) (c : Z) (l : list Z) :
  List.NoDup l -> In c l -> b c = false ->
  List.length (List.filter (bitset_set b c) l) = S (List.length (List.filter b l)).
Proof.
  intros Hnd. induction Hnd as [|a l Hnotin Hnd IH]; intros Hin Hb; [contradiction|].
  simpl. unfold bitset_set at 1.
  destruct (Z.eqb_spec a c) as [->|Hne].
  - rewrite Hb. simpl. f_equal. f_equal.
    apply filter_ext_in'. intros a Ha. unfold bitset_set.
    destruct (Z.eqb_spec a c) as [->|_]; [contradiction|reflexivity].
  - destruct Hin as [E|Hin]; [contradiction|].
    destruct (b a); simpl; rewrite IH by assumption; reflexivity.
Qed.

Lemma counted_reset : counted bitset_reset 0.
Proof.
  split.
  - unfold members. rewrite (filter_ext_in' _ (fun _ => false)) by reflexivity.
    induction positions as [|a l IH]; [reflexivity|exact IH].
  - intros c H. discriminate H.
Qed.

Lemma counted_set (b : bitset) (n c : Z) :
  counted b n -> 0 <= c < bitset_size -> b c = false ->
  counted (bitset_set b c) (n + 1).
Proof.
  intros [Hn Hin] Hc Hb. split.
  - unfold members. rewrite filter_set_length.
    + rewrite Hn. unfold members. lia.
    + apply sorted_NoDup, positions_sorted.
    + apply positions_in, Hc.
    + exact Hb.
  - intros c'. unfold bitset_set. destruct (Z.eqb_spec c' c) as [->|_]; auto.
Qed.

(** A bit set that counts at least one bit has a member. *)
Lemma counted_member (b : bitset) (n : Z) :
  counted b n -> 0 < n -> exists c, In c positions /\ b c = true.
Proof.
  intros [Hn _] Hpos. destruct (members b) as [|c l] eqn:E.
  - simpl in Hn. lia.
  - exists c. apply filter_In.
    change (List.filter b positions) with (members b). rewrite E. left. reflexivity.
Qed.

(** ** The first scan of the default quantizer *)

Lemma Default_code_cases out_fg out_bg y x :
  (foreground out_fg out_bg y x = false /\
   Default_code out_fg out_bg y x = Rgb18.none) \/
  (foreground out_fg out_bg y x = true /\
   0 <= Default_code out_fg out_bg y x < bitset_size).
Proof.
  unfold Default_code. destruct (foreground out_fg out_bg y x); [right|left; auto].
  split; [reflexivity|]. change bitset_size with (2 ^ 18).
  apply make_bounds; apply component_bounds.
Qed.

Lemma push_back_at (rows rest : list (list Run.t)) (line : list Run.t) (r : Run.t) :
  push_back (rows ++ line :: rest) (List.length rows) r
  = rows ++ (line ++ [r]) :: rest.
Proof.
  unfold push_back. induction rows as [|a rows IH]; simpl.
  - reflexivity.
  - f_equal. exact IH.
Qed.

(** What the body of the loop on [x] does to the variables of the first
    scan. *)
Lemma Default_pixel_spec (y : nat) (s : pass1) :
  let differs :=
    pixels_differ (under (p_fg (cursors s))) (under (p_bg (cursors s))) in
  let code :=
    if differs
    then Rgb18.make (p_fg (cursors s)).[0%nat] (p_fg (cursors s)).[1%nat]
                    (p_fg (cursors s)).[2%nat]
    else Rgb18.none in
  let s' := Default_pixel y s in
  pixel_step (cursors s) (cursors s') /\
  stream (out (cursors s')) = stream (out (cursors s)) /\
  (original_colors s', color_counter s')
  = (if differs && negb (original_colors s code)
     then (bitset_set (original_colors s) code, color_counter s + 1)
     else (original_colors s, color_counter s)) /\
  (runs s', run s')
  = (if Run.color (run s) =? code
     then (runs s, Run.incr (run s))
     else (if Run.length (run s) >? 0 then push_back (runs s) y (run s) else runs s,
           {| Run.color := code; Run.length := 1 |})).
Proof.
  destruct (tested_spec (cursors s)) as (Hc & Hf & Hb & Hs).
  unfold tested in Hc, Hf, Hb, Hs. unfold pixel_step, Default_pixel.
  rewrite <- differ_under in *.
  destruct (differ (p_fg (cursors s)) (p_bg (cursors s))); simpl.
  - destruct (original_colors s _); simpl;
      unfold Run.same_color, Rgb18.eqb;
      destruct (Run.color (run s) =? _); simpl;
      rewrite ?Hc, ?Hf, ?Hb, ?Hs; repeat split; reflexivity.
  - unfold Run.same_color, Rgb18.eqb.
    destruct (Run.color (run s) =? Rgb18.none); simpl;
      rewrite ?Hc, ?Hf, ?Hb, ?Hs; repeat split; reflexivity.
Qed.

Lemma bitset_set_keeps (b : bitset) (i c : Z) :
  b c = true -> bitset_set b i c = true.
Proof. intros H. unfold bitset_set. destruct (c =? i); [reflexivity|exact H]. Qed.

Lemma bitset_set_same (b : bitset) (i : Z) : bitset_set b i i = true.
Proof. unfold bitset_set. rewrite Z.eqb_refl. reflexivity. Qed.

Lemma known_mono (b b' : bitset) (r : Run.t) :
  (forall c, b c = true -> b' c = true) -> known b r -> known b' r.
Proof. intros H [E|E]; [left; exact E|right; apply H, E]. Qed.

(** The colours met: what the body of the loop on [x] does to the set and
    to its count. *)
Lemma pixel_colors (b : bitset) (n : Z) (differs : bool) (code : Z) :
  counted b n ->
  (differs = true -> 0 <= code < bitset_size) ->
  let r := if differs && negb (b code) then (bitset_set b code, n + 1) else (b, n) in
  counted (fst r) (snd r) /\
  (forall c, b c = true -> fst r c = true) /\
  (differs = true -> fst r code = true).
Proof.
  intros Hcount Hrange. destruct differs; simpl.
  - destruct (b code) eqn:Hb; simpl.
    + split; [exact Hcount|]. split; [auto|]. intros _. exact Hb.
    + split; [apply counted_set; auto|]. split.
      * intros c. apply bitset_set_keeps.
      * intros _. apply bitset_set_same.
  - split; [exact Hcount|]. split; [auto|]. discriminate.
Qed.

(** The runs: what the body of the loop on [x] does to the runs kept for
    the row and to the run being built, for a pixel of code [code]. *)
Lemma pixel_runs (b : bitset) (x : Z) (codes : list Z) (code : Z)
    (line : list Run.t) (r : Run.t) :
  0 <= x ->
  0 <= Run.length r <= x ->
  (0 < x -> 1 <= Run.length r) ->
  known b r ->
  known b {| Run.color := code; Run.length := 1 |} ->
  unrle (map run_pair line) ++ repeat (Run.color r) (Z.to_nat (Run.length r)) = codes ->
  Forall (fun r => known b r /\ 1 <= Run.length r <= x) line ->
  let line' :=
    if Run.color r =? code then line
    else if Run.length r >? 0 then line ++ [r] else line in
  let r' :=
    if Run.color r =? code then Run.incr r
    else {| Run.color := code; Run.length := 1 |} in
  0 <= Run.length r' <= x + 1 /\
  1 <= Run.length r' /\
  known b r' /\
  unrle (map run_pair line') ++ repeat (Run.color r') (Z.to_nat (Run.length r'))
  = codes ++ [code] /\
  Forall (fun r => known b r /\ 1 <= Run.length r <= x + 1) line'.
Proof.
  intros Hx Hlen Hpos Hk Hk' Hun Hall.
  assert (Hall' : Forall (fun r => known b r /\ 1 <= Run.length r <= x + 1) line).
  { eapply Forall_impl; [exact Hall|]. simpl. intros a [Ha Hb]. split; [exact Ha|lia]. }
  destruct (Z.eqb_spec (Run.color r) code) as [E|NE];
    unfold Run.incr; cbn [Run.color Run.length].
  - split; [lia|]. split; [lia|]. split; [destruct Hk; [left|right]; assumption|].
    split; [|exact Hall'].
    rewrite repeat_succ, app_assoc, Hun, E by lia. reflexivity.
  - split; [lia|]. split; [lia|]. split; [exact Hk'|].
    destruct (Z.gtb_spec (Run.length r) 0) as [Hgt|Hle].
    + split.
      * rewrite map_app, unrle_app. unfold unrle at 2. simpl.
        rewrite app_nil_r, Hun. reflexivity.
      * apply Forall_app. split; [exact Hall'|].
        constructor; [|constructor]. split; [exact Hk|lia].
    + split; [|exact Hall'].
      replace (Run.length r) with 0 in Hun by lia. simpl in Hun.
      rewrite app_nil_r in Hun. rewrite Hun. reflexivity.
Qed.

Lemma Default_row_spec out_fg out_bg o (width : Z) (y : nat) (s : pass1)
    (rows rest : list (list Run.t)) :
  scanned out_fg out_bg o (Z.to_nat width) y 0 (cursors s) ->
  counted (original_colors s) (color_counter s) ->
  runs s = rows ++ [] :: rest ->
  List.length rows = y ->
  let s' := Default_row width y s in
  scanned out_fg out_bg o (Z.to_nat width) (S y) 0 (cursors s') /\
  stream (out (cursors s')) = stream (out (cursors s)) /\
  counted (original_colors s') (color_counter s') /\
  (forall c, original_colors s c = true -> original_colors s' c = true) /\
  exists line : list Run.t,
    runs s' = rows ++ line :: rest /\
    row_of out_fg out_bg width (original_colors s') y line.
Proof.
  intros Hsc0 Hcount0 Hruns0 Hrows. unfold Default_row.
  pose proof (for_ind (fun x t =>
      scanned out_fg out_bg o (Z.to_nat width) y x (cursors t) /\
      stream (out (cursors t)) = stream (out (cursors s)) /\
      counted (original_colors t) (color_counter t) /\
      (forall c, original_colors s c = true -> original_colors t c = true) /\
      0 <= Run.length (run t) <= Z.of_nat x /\
      ((0 < x)%nat -> 1 <= Run.length (run t)) /\
      known (original_colors t) (run t) /\
      exists line : list Run.t,
        runs t = rows ++ line :: rest /\
        unrle (map run_pair line)
        ++ repeat (Run.color (run t)) (Z.to_nat (Run.length (run t)))
        = map (Default_code out_fg out_bg y) (seq 0 x) /\
        Forall (fun r => known (original_colors t) r
                         /\ 1 <= Run.length r <= Z.of_nat x) line)
    width (fun _ => Default_pixel y)
    {| cursors := cursors s; color_counter := color_counter s;
       original_colors := original_colors s; runs := runs s;
       run := Run.empty |}) as Hloop.
  cbv zeta. set (t := for_ width _ _) in *.
  destruct Hloop as (Hsc & Hst & Hcount & Hmono & Hlen & Hpos & Hk & line & Hruns
                     & Hun & Hall).
  - cbn [cursors color_counter original_colors runs run].
    split; [exact Hsc0|]. split; [reflexivity|]. split; [exact Hcount0|].
    split; [auto|]. split; [simpl; lia|]. split; [lia|].
    split; [left; reflexivity|].
    exists []. split; [exact Hruns0|]. split; [reflexivity|constructor].
  - clear t. intros x t _ (Hsc & Hst & Hcount & Hmono & Hlen & Hpos & Hk & line & Hruns
                   & Hun & Hall).
    destruct (Default_pixel_spec y t) as (Hstep & Hst' & Hcol & Hrun).
    assert (Hfg : under (p_fg (cursors t)) = bitmap out_fg y x)
      by (destruct Hsc as (-> & _); reflexivity).
    assert (Hbg : under (p_bg (cursors t)) = bitmap out_bg y x)
      by (destruct Hsc as (_ & -> & _); reflexivity).
    assert (Hcode :
      (if pixels_differ (under (p_fg (cursors t))) (under (p_bg (cursors t)))
       then Rgb18.make (p_fg (cursors t)).[0%nat] (p_fg (cursors t)).[1%nat]
                       (p_fg (cursors t)).[2%nat]
       else Rgb18.none) = Default_code out_fg out_bg y x).
    { unfold Default_code, foreground, Pixmap.at_.
      change (Pixmap.pixels (p_fg (cursors t)) (Pixmap.row (p_fg (cursors t)))
                (Pixmap.column (p_fg (cursors t)))) with (under (p_fg (cursors t))).
      rewrite Hfg, Hbg. reflexivity. }
    rewrite Hcode in Hcol, Hrun. rewrite Hfg, Hbg in Hcol.
    fold (foreground out_fg out_bg y x) in Hcol.
    set (code := Default_code out_fg out_bg y x) in *.
    pose proof (pixel_colors (original_colors t) (color_counter t)
                  (foreground out_fg out_bg y x) code Hcount) as Hpc.
    destruct Hpc as (Hcount' & Hmono' & Hin').
    { intros Hf. destruct (Default_code_cases out_fg out_bg y x) as [[Hf' _]|[_ Hr]];
        [congruence|exact Hr]. }
    rewrite <- Hcol in Hcount', Hmono', Hin'.
    cbn [fst snd] in Hcount', Hmono', Hin'.
    assert (Hknew : known (original_colors (Default_pixel y t))
                      {| Run.color := code; Run.length := 1 |}).
    { unfold known. cbn [Run.color].
      destruct (Default_code_cases out_fg out_bg y x) as [[_ Hn]|[Hf _]].
      - left. exact Hn.
      - right. apply Hin', Hf. }
    pose proof (pixel_runs (original_colors (Default_pixel y t)) (Z.of_nat x)
                  (map (Default_code out_fg out_bg y) (seq 0 x)) code line (run t)
                  ltac:(lia) Hlen ltac:(lia)
                  (known_mono _ _ _ Hmono' Hk) Hknew Hun) as Hpr.
    destruct Hpr as (Hlen' & Hpos' & Hk' & Hun' & Hall').
    { eapply Forall_impl; [exact Hall|]. intros a [Ha Hb].
      split; [eapply known_mono; eassumption|exact Hb]. }
    assert (Hr' : run (Default_pixel y t)
                  = if Run.color (run t) =? code then Run.incr (run t)
                    else {| Run.color := code; Run.length := 1 |}).
    { apply (f_equal snd) in Hrun. cbn [snd] in Hrun. rewrite Hrun.
      destruct (Run.color (run t) =? code); reflexivity. }
    assert (Hl' : runs (Default_pixel y t)
                  = rows ++ (if Run.color (run t) =? code then line
                             else if Run.length (run t) >? 0 then line ++ [run t]
                                  else line) :: rest).
    { apply (f_equal fst) in Hrun. cbn [fst] in Hrun. rewrite Hrun.
      destruct (Run.color (run t) =? code); cbn [fst]; [exact Hruns|].
      destruct (Run.length (run t) >? 0); [|exact Hruns].
      rewrite Hruns, <- Hrows. apply push_back_at. }
    split; [eapply scanned_pixel; eassumption|].
    split; [rewrite Hst'; exact Hst|].
    split; [exact Hcount'|].
    split; [intros c Hc; apply Hmono', Hmono, Hc|].
    rewrite Hr'.
    split; [lia|]. split; [lia|]. split; [exact Hk'|].
    eexists. split; [exact Hl'|].
    rewrite seq_S, map_app. cbn [map Nat.add].
    split; [exact Hun'|].
    eapply Forall_impl; [exact Hall'|]. intros a [Ha Hb]. split; [exact Ha|lia].
  - cbn [cursors color_counter original_colors runs out].
    split; [eapply scanned_row; [exact Hsc|]; repeat split; reflexivity|].
    split; [exact Hst|]. split; [exact Hcount|]. split; [exact Hmono|].
    destruct (Z.gtb_spec (Run.length (run t)) 0) as [Hgt|Hle].
    + exists (line ++ [run t]). split.
      * rewrite Hruns, <- Hrows. apply push_back_at.
      * split.
        -- rewrite map_app, unrle_app. unfold unrle at 2. simpl.
           rewrite app_nil_r. exact Hun.
        -- apply Forall_app. split.
           ++ eapply Forall_impl; [exact Hall|]. intros a [Ha Hb]. split; [exact Ha|lia].
           ++ constructor; [|constructor]. split; [exact Hk|lia].
    + exists line. split; [exact Hruns|]. split.
      * replace (Run.length (run t)) with 0 in Hun by lia. simpl in Hun.
        rewrite app_nil_r in Hun. exact Hun.
      * eapply Forall_impl; [exact Hall|]. intros a [Ha Hb]. split; [exact Ha|lia].
Qed.

Lemma row_of_mono out_fg out_bg width (b b' : bitset) y line :
  (forall c, b c = true -> b' c = true) ->
  row_of out_fg out_bg width b y line -> row_of out_fg out_bg width b' y line.
Proof.
  intros Hmono [Hun Hall]. split; [exact Hun|].
  eapply Forall_impl; [exact Hall|]. intros a [Ha Hb].
  split; [eapply known_mono; eassumption|exact Hb].
Qed.

(** The variables of the default quantizer after its first scan. *)
Lemma Default_pass1_spec out_fg out_bg (width height : Z) (o : outputs) :
  let s := Default_pass1 out_fg out_bg width height o in
  background_color (out (cursors s)) = first_pixel out_bg /\
  has_foreground (out (cursors s))
  = has_foreground o
    || existsb (lit out_fg out_bg) (cells (Z.to_nat width) (Z.to_nat height) 0) /\
  has_background (out (cursors s))
  = has_background o
    || existsb (off (first_pixel out_bg) out_bg)
         (cells (Z.to_nat width) (Z.to_nat height) 0) /\
  stream (out (cursors s)) = stream o ++ Default_header width height /\
  counted (original_colors s) (color_counter s) /\
  List.length (runs s) = Z.to_nat height /\
  forall y, (y < Z.to_nat height)%nat ->
    row_of out_fg out_bg width (original_colors s) y (nth y (runs s) []).
Proof.
  unfold Default_pass1.
  set (o' := sample_background _ _).
  pose proof (for_ind (fun y t =>
      scanned out_fg out_bg o' (Z.to_nat width) y 0 (cursors t) /\
      stream (out (cursors t)) = stream o' /\
      counted (original_colors t) (color_counter t) /\
      exists rows : list (list Run.t),
        List.length rows = y /\
        runs t = rows ++ replicate (Z.to_nat height - y) [] /\
        forall y', (y' < y)%nat ->
          row_of out_fg out_bg width (original_colors t) y' (nth y' rows []))
    height (Default_row width)
    {| cursors := {| p_fg := Pixmap.begin_ out_fg; p_bg := Pixmap.begin_ out_bg;
                     out := o' |};
       color_counter := 0; original_colors := bitset_reset;
       runs := replicate (Z.to_nat height) []; run := Run.empty |}) as Hloop.
  cbv zeta. set (s := for_ height _ _) in *.
  destruct Hloop as ((_ & _ & Hc & Hf & Hb) & Hst & Hcount & rows & Hlen & Hruns & Hrows).
  - cbn [cursors color_counter original_colors runs].
    split; [apply scanned_start; reflexivity|]. split; [reflexivity|].
    split; [exact counted_reset|].
    exists []. split; [reflexivity|]. rewrite Nat.sub_0_r.
    split; [reflexivity|]. intros y' Hy'. lia.
  - clear s. intros y t Hy (Hsc & Hst & Hcount & rows & Hlen & Hruns & Hrows).
    replace (Z.to_nat height - y)%nat with (S (Z.to_nat height - S y)) in Hruns by lia.
    cbn [replicate] in Hruns.
    destruct (Default_row_spec _ _ _ _ _ _ _ _ Hsc Hcount Hruns Hlen)
      as (Hsc' & Hst' & Hcount' & Hmono & line & Hruns' & Hline).
    split; [exact Hsc'|]. split; [rewrite Hst'; exact Hst|]. split; [exact Hcount'|].
    exists (rows ++ [line]). split; [rewrite length_app; simpl; lia|].
    split; [rewrite Hruns', <- app_assoc; reflexivity|].
    intros y' Hy'. destruct (Nat.eq_dec y' y) as [->|Hne].
    + rewrite app_nth2 by lia. rewrite Hlen, Nat.sub_diag. exact Hline.
    + rewrite app_nth1 by lia. eapply row_of_mono; [exact Hmono|]. apply Hrows. lia.
  - assert (Hs0 : stream o' = stream o ++ Default_header width height).
    { reflexivity. }
    rewrite Nat.sub_diag in Hruns. cbn [replicate] in Hruns.
    rewrite app_nil_r in Hruns.
    split; [exact Hc|]. split; [exact Hf|]. split; [exact Hb|].
    split; [rewrite Hst; exact Hs0|]. split; [exact Hcount|].
    rewrite Hruns. split; [exact Hlen|]. intros y Hy. apply Hrows. lia.
Qed.

(** ** The reduction of a colour *)

Lemma ceil_div_bounds (k : Z) : 1 <= k <= 255 -> 2 <= ceil_div 256 k <= 256.
Proof.
  intros Hk. rewrite <- ceil_div_quot by lia.
  rewrite Z.quot_div_nonneg by lia. split.
  - apply Z.div_le_lower_bound; lia.
  - enough ((256 + k - 1) / k < 257) by lia.
    apply Z.div_lt_upper_bound; nia.
Qed.

(** With a divisor from 1 to 255 the reduction gives a colour. *)
Lemma reduce_some (value k : Z) :
  1 <= k <= 255 ->
  Rgb18.reduce value k
  = Some (Rgb18.make (reduced_value (Rgb18.get value 0) k)
                     (reduced_value (Rgb18.get value 1) k)
                     (reduced_value (Rgb18.get value 2) k)) /\
  0 <= Rgb18.make (reduced_value (Rgb18.get value 0) k)
                  (reduced_value (Rgb18.get value 1) k)
                  (reduced_value (Rgb18.get value 2) k) < bitset_size.
Proof.
  intros Hk. pose proof (ceil_div_bounds k Hk) as Hc. split.
  - unfold Rgb18.reduce.
    destruct (Z.eqb_spec k 0) as [->|_]; [lia|].
    change (Z.shiftl 1 8 + k - 1) with (256 + k - 1).
    destruct (Z.eqb_spec ((256 + k - 1) ./ k - 1) 0) as [E|_].
    + rewrite ceil_div_quot in E by lia. lia.
    + rewrite !reduce_component_spec by lia. reflexivity.
  - change bitset_size with (2 ^ 18).
    apply make_bounds; apply reduced_value_bounds; try lia; apply get_bounds.
Qed.

(** From 256 on, the divisor leaves one bucket, and the reduction divides
    by zero. *)
Lemma reduce_none (value k : Z) : 256 <= k -> Rgb18.reduce value k = None.
Proof.
  intros Hk. unfold Rgb18.reduce.
  destruct (Z.eqb_spec k 0) as [->|_]; [lia|].
  change (Z.shiftl 1 8 + k - 1) with (256 + k - 1).
  assert (E : (256 + k - 1) ./ k = 1).
  { rewrite Z.quot_div_nonneg by lia. symmetry.
    apply Z.div_unique with (r := 255); lia. }
  rewrite E. reflexivity.
Qed.

(** A divisor of 128 leaves two buckets for each sample. *)
Lemma reduce_128 (value : Z) :
  exists c, Rgb18.reduce value 128 = Some c /\ In c corners.
Proof.
  destruct (reduce_some value 128 ltac:(lia)) as [E _]. eexists. split; [exact E|].
  assert (Hv : forall v, 0 <= v <= 255 ->
                 reduced_value v 128 = 0 \/ reduced_value v 128 = 255).
  { intros v Hv. unfold reduced_value, bucket.
    change (ceil_div 256 128) with 2. change (2 - 1) with 1. rewrite Z.div_1_r.
    assert (0 <= v * 2 / 256 < 2)
      by (split; [apply Z.div_pos|apply Z.div_lt_upper_bound]; lia).
    lia. }
  destruct (Hv _ (get_bounds value 0)) as [-> | ->],
           (Hv _ (get_bounds value 1)) as [-> | ->],
           (Hv _ (get_bounds value 2)) as [-> | ->];
    unfold corners; simpl; tauto.
Qed.

(** ** The search of the palette *)

(** One round of the search, with a divisor from 1 to 255: the loop on
    [color] returns the colours it has set and their count; when the count
    is within the bound, the loop has run to its end, and the colours set
    are those that the divisor leaves of the colours met. *)
Lemma count_reduced_spec (max_fg_colors : N) (original_colors : bitset) (divisor : Z)
    (colors : list Z) :
  1 <= divisor <= 255 ->
  forall (q : bitset) (n : Z),
    counted q n ->
    exists (q' : bitset) (n' : Z),
      count_reduced max_fg_colors original_colors divisor colors q n = Returns (q', n') /\
      counted q' n' /\
      (forall c, q' c = true ->
         q c = true \/
         exists c0, In c0 colors /\ original_colors c0 = true
                    /\ Rgb18.reduce c0 divisor = Some c) /\
      (n' <= Z.of_N max_fg_colors ->
         (forall c, q c = true -> q' c = true) /\
         forall c0, In c0 colors -> original_colors c0 = true ->
           exists c, Rgb18.reduce c0 divisor = Some c /\ q' c = true).
Proof.
  intros Hd. induction colors as [|color colors IH]; intros q n Hcount.
  - exists q, n. split; [reflexivity|]. split; [exact Hcount|].
    split; [auto|]. intros _. split; [auto|]. intros c0 [].
  - cbn [count_reduced].
    destruct (original_colors color) eqn:Horig; cbn [negb].
    + destruct (reduce_some color divisor Hd) as [Hred Hrange]. rewrite Hred.
      set (new_color := Rgb18.make _ _ _) in *.
      destruct (q new_color) eqn:Hq; cbn [negb].
      * destruct (IH q n Hcount) as (q' & n' & Hrun & Hcount' & Hfrom & Hall).
        exists q', n'. split; [exact Hrun|]. split; [exact Hcount'|]. split.
        -- intros c Hc. destruct (Hfrom c Hc) as [H|(c0 & Hin & Ho & Hr)]; [left; exact H|].
           right. exists c0. split; [right; exact Hin|]. split; assumption.
        -- intros Hn. destruct (Hall Hn) as [Hkeep Hcover]. split; [exact Hkeep|].
           intros c0 [<-|Hin] Ho.
           ++ exists new_color. split; [exact Hred|]. apply Hkeep, Hq.
           ++ apply Hcover; assumption.
      * pose proof (counted_set q n new_color Hcount Hrange Hq) as Hcount1.
        destruct (Z.gtb_spec (n + 1) (Z.of_N max_fg_colors)) as [Hgt|Hle].
        -- exists (bitset_set q new_color), (n + 1).
           split; [reflexivity|]. split; [exact Hcount1|]. split; [|lia].
           intros c Hc. unfold bitset_set in Hc.
           destruct (Z.eqb_spec c new_color) as [E|_]; [|left; exact Hc].
           right. exists color. rewrite E. split; [left; reflexivity|]. split; assumption.
        -- destruct (IH _ _ Hcount1) as (q' & n' & Hrun & Hcount' & Hfrom & Hall).
           exists q', n'. split; [exact Hrun|]. split; [exact Hcount'|]. split.
           ++ intros c Hc. destruct (Hfrom c Hc) as [H|(c0 & Hin & Ho & Hr)].
              ** unfold bitset_set in H.
                 destruct (Z.eqb_spec c new_color) as [E|_]; [|left; exact H].
                 right. exists color. rewrite E.
                 split; [left; reflexivity|]. split; assumption.
              ** right. exists c0. split; [right; exact Hin|]. split; assumption.
           ++ intros Hn. destruct (Hall Hn) as [Hkeep Hcover]. split.
              ** intros c Hc. apply Hkeep, bitset_set_keeps, Hc.
              ** intros c0 [<-|Hin] Ho.
                 --- exists new_color. split; [exact Hred|].
                     apply Hkeep, bitset_set_same.
                 --- apply Hcover; assumption.
    + destruct (IH q n Hcount) as (q' & n' & Hrun & Hcount' & Hfrom & Hall).
      exists q', n'. split; [exact Hrun|]. split; [exact Hcount'|]. split.
      * intros c Hc. destruct (Hfrom c Hc) as [H|(c0 & Hin & Ho & Hr)]; [left; exact H|].
        right. exists c0. split; [right; exact Hin|]. split; assumption.
      * intros Hn. destruct (Hall Hn) as [Hkeep Hcover]. split; [exact Hkeep|].
        intros c0 [<-|Hin] Ho; [congruence|]. apply Hcover; assumption.
Qed.

(** One round of the search, with a divisor from 256 on: the loop on
    [color] divides by zero at the first colour met. *)
Lemma count_reduced_fails (max_fg_colors : N) (original_colors : bitset) (divisor : Z)
    (colors : list Z) (q : bitset) (n : Z) :
  256 <= divisor ->
  (exists c, In c colors /\ original_colors c = true) ->
  count_reduced max_fg_colors original_colors divisor colors q n = DivisionByZero.
Proof.
  intros Hd. induction colors as [|color colors IH]; intros (c & Hin & Ho).
  - destruct Hin.
  - cbn [count_reduced]. destruct (original_colors color) eqn:Horig; cbn [negb].
    + rewrite reduce_none by exact Hd. reflexivity.
    + apply IH. destruct Hin as [<-|Hin]; [congruence|]. exists c. auto.
Qed.

(** A round of the search never runs out of fuel: it has none. *)
Lemma count_reduced_fuel (max_fg_colors : N) (original_colors : bitset) (divisor : Z)
    (colors : list Z) (q : bitset) (n : Z) :
  count_reduced max_fg_colors original_colors divisor colors q n <> OutOfFuel.
Proof.
  revert q n. induction colors as [|color colors IH]; intros q n; cbn [count_reduced].
  - discriminate.
  - destruct (negb (original_colors color)); [apply IH|].
    destruct (Rgb18.reduce color divisor); [|discriminate].
    destruct (negb (q _)); [|apply IH].
    destruct (_ >? _); [discriminate|apply IH].
Qed.

(** What the search returns is within the bound; when a round was run, it
    is what the last round has counted. *)
Lemma find_palette_returns (max_fg_colors : N) (original_colors : bitset)
    (fuel : nat) (s p : search) :
  find_palette max_fg_colors fuel original_colors s = Returns p ->
  found p <= Z.of_N max_fg_colors /\
  divisor s <= divisor p /\
  (divisor p = divisor s -> p = s) /\
  (divisor s < divisor p ->
   count_reduced max_fg_colors original_colors (divisor p) positions bitset_reset 0
   = Returns (quantized_colors p, found p)).
Proof.
  revert s.
  assert (Hnow : forall s, found s <= Z.of_N max_fg_colors -> Returns s = Returns p ->
            found p <= Z.of_N max_fg_colors /\ divisor s <= divisor p /\
            (divisor p = divisor s -> p = s) /\
            (divisor s < divisor p ->
             count_reduced max_fg_colors original_colors (divisor p) positions
               bitset_reset 0 = Returns (quantized_colors p, found p))).
  { intros s Hle [= <-]. split; [exact Hle|]. split; [lia|]. split; [auto|lia]. }
  induction fuel as [|fuel IH]; intros s; cbn [find_palette];
    destruct (Z.gtb_spec (found s) (Z.of_N max_fg_colors)) as [Hgt|Hle].
  - intros [=].
  - apply Hnow, Hle.
  - destruct (count_reduced max_fg_colors original_colors (divisor s + 1) positions
                bitset_reset 0) as [[q n]| |] eqn:Hround.
    + intros Hfind. destruct (IH _ Hfind) as (Hbound & Hdiv & Hsame & Hlast).
      cbn [divisor] in Hdiv, Hsame, Hlast.
      split; [exact Hbound|]. split; [lia|]. split; [lia|]. intros _.
      destruct (Z.eq_dec (divisor p) (divisor s + 1)) as [E|NE].
      * rewrite (Hsame E). cbn [divisor found quantized_colors]. exact Hround.
      * apply Hlast. lia.
    + intros [=].
    + intros [=].
  - apply Hnow, Hle.
Qed.

Lemma corners_bound (q : bitset) (n : Z) :
  counted q n -> (forall c, q c = true -> In c corners) -> n <= 8.
Proof.
  intros [-> _] Hin.
  assert (H : (List.length (members q) <= List.length corners)%nat).
  { apply NoDup_incl_length.
    - apply sorted_NoDup, members_sorted.
    - intros c Hc. apply Hin. apply members_in in Hc. apply Hc. }
  change (List.length corners) with 8%nat in H. lia.
Qed.

(** With a bound of 8 colours or more the search returns, and it runs no
    round past the divisor 128. *)
Lemma find_palette_terminates (max_fg_colors : N) (original_colors : bitset)
    (fuel : nat) (s : search) :
  (8 <= max_fg_colors)%N ->
  4 <= divisor s <= 128 ->
  (128 - divisor s <= Z.of_nat fuel) ->
  (divisor s = 128 -> found s <= Z.of_N max_fg_colors) ->
  exists p, find_palette max_fg_colors fuel original_colors s = Returns p
            /\ divisor p <= 128.
Proof.
  intros Hmax. revert s. induction fuel as [|fuel IH]; intros s Hd Hfuel Hlast;
    cbn [find_palette];
    destruct (Z.gtb_spec (found s) (Z.of_N max_fg_colors)) as [Hgt|Hle];
    try (exists s; split; [reflexivity|lia]).
  - lia.
  - destruct (count_reduced_spec max_fg_colors original_colors (divisor s + 1)
                positions ltac:(lia) bitset_reset 0 counted_reset)
      as (q & n & Hround & Hcount & Hfrom & _).
    rewrite Hround. apply IH; cbn [divisor found]; try lia.
    intros E. enough (n <= 8) by lia.
    apply (corners_bound q n Hcount). intros c Hc.
    destruct (Hfrom c Hc) as [H|(c0 & _ & _ & Hred)]; [discriminate H|].
    rewrite E in Hred. destruct (reduce_128 c0) as (c' & Hred' & Hin). congruence.
Qed.

(** The search never uses more than the rounds that take the divisor to
    256: the round of the divisor 256 divides by zero. *)
Lemma find_palette_fuel (max_fg_colors : N) (original_colors : bitset)
    (fuel : nat) (s : search) :
  (exists c, In c positions /\ original_colors c = true) ->
  divisor s <= 255 ->
  (256 - divisor s <= Z.of_nat fuel) ->
  find_palette max_fg_colors fuel original_colors s <> OutOfFuel.
Proof.
  intros Hsome. revert s. induction fuel as [|fuel IH]; intros s Hd Hfuel;
    cbn [find_palette];
    destruct (Z.gtb_spec (found s) (Z.of_N max_fg_colors)) as [Hgt|Hle];
    [lia|discriminate| |discriminate].
  - destruct (Z.eq_dec (divisor s) 255) as [E|NE].
    + rewrite count_reduced_fails by (try lia; exact Hsome). discriminate.
    + destruct (count_reduced max_fg_colors original_colors (divisor s + 1) positions
                  bitset_reset 0) as [[q n]| |] eqn:Hround.
      * apply IH; cbn [divisor]; lia.
      * discriminate.
      * exfalso. exact (count_reduced_fuel _ _ _ _ _ _ Hround).
Qed.

(** ** The palette and the indices of the default quantizer *)

Lemma fold_append_filter {A : Type} (q : Z -> bool) (g : Z -> list A)
    (l : list Z) (s : list A) :
  fold_left (fun s c => if q c then s ++ g c else s) l s
  = s ++ flat_map g (List.filter q l).
Proof.
  revert s. induction l as [|a l IH]; intros s; simpl.
  - rewrite app_nil_r. reflexivity.
  - rewrite IH. destruct (q a); simpl; [rewrite <- app_assoc|]; reflexivity.
Qed.

Lemma output_palette_spec (color_counter : Z) (q : bitset) (s : ostream) :
  output_palette color_counter q s = s ++ palette_block color_counter (members q).
Proof.
  unfold output_palette, palette_block.
  destruct (color_counter =? 0); [reflexivity|].
  rewrite fold_append_filter, <- !app_assoc. reflexivity.
Qed.

Lemma positions_length : Z.of_nat (List.length positions) = bitset_size.
Proof.
  rewrite positions_eq.
  assert (H : forall start len, List.length (Zseq start len) = len).
  { intros start len. revert start. induction len as [|len IH]; intros start;
      cbn [Zseq List.length]; [reflexivity|]. rewrite IH. reflexivity. }
  rewrite H. apply Z2Nat.id. change bitset_size with 262144. lia.
Qed.

(** The loop that numbers the colours of a bit set gives the colours set
    the numbers that follow [index], in the order of the loop, and leaves
    the other keys of the map as they were. *)
Lemma number_colors_spec (colors : bitset) (l : list Z) :
  List.NoDup l ->
  forall (m : gmap Z Z) (index : Z),
    0 <= index -> index + Z.of_nat (List.length l) < 2 ^ 32 ->
    let r := fold_left
               (fun '(m, last_color_index) color =>
                  if negb (colors color) then (m, last_color_index)
                  else (<[color := last_color_index]> m,
                        to_uint32 (last_color_index + 1)))
               l (m, index) in
    (forall k, ~ (In k l /\ colors k = true) -> fst r !! k = m !! k) /\
    (forall i k, nth_error (List.filter colors l) i = Some k ->
       fst r !! k = Some (index + Z.of_nat i)).
Proof.
  induction 1 as [|a l Hnotin Hnd IH]; intros m index Hi Hlen; cbn [fold_left].
  - cbn [fst]. split; [reflexivity|]. intros [|i] k H; discriminate H.
  - cbn [List.length] in Hlen. cbn [List.filter].
    destruct (colors a) eqn:Ha; cbn [negb].
    + assert (E : to_uint32 (index + 1) = index + 1)
        by (apply Z.mod_small; lia).
      rewrite E.
      destruct (IH (<[a := index]> m) (index + 1) ltac:(lia) ltac:(lia))
        as [Hother Hnth].
      split.
      * intros k Hk. rewrite Hother by (intros [Hin Hc]; apply Hk; split; [right|]; assumption).
        apply lookup_insert_ne. intros ->. apply Hk. split; [left; reflexivity|exact Ha].
      * intros [|i] k; cbn [nth_error].
        -- intros [= <-]. rewrite Hother by tauto.
           rewrite lookup_insert_eq. f_equal. lia.
        -- intros Hk. rewrite (Hnth i k Hk). f_equal. lia.
    + destruct (IH m index Hi ltac:(lia)) as [Hother Hnth].
      split.
      * intros k Hk. apply Hother. intros [Hin Hc]. apply Hk. split; [right|]; assumption.
      * exact Hnth.
Qed.

Lemma number_colors_indices (colors : bitset) (m : gmap Z Z) :
  (forall k, ~ (0 <= k < bitset_size) -> fst (number_colors colors m 0) !! k = m !! k) /\
  (forall i k, nth_error (members colors) i = Some k ->
     fst (number_colors colors m 0) !! k = Some (Z.of_nat i)).
Proof.
  unfold number_colors, members.
  destruct (number_colors_spec colors positions
              (sorted_NoDup _ positions_sorted) m 0 ltac:(lia)) as [Hother Hnth].
  { rewrite positions_length. change bitset_size with 262144. lia. }
  split.
  - intros k Hk. apply Hother. rewrite positions_in. tauto.
  - intros i k Hik. rewrite (Hnth i k Hik). reflexivity.
Qed.

Lemma map_at_spec (m : gmap Z Z) (key : Z) :
  fst (map_at m key) = index_of m key /\
  forall k, index_of (snd (map_at m key)) k = index_of m k.
Proof.
  unfold map_at, index_of. destruct (m !! key) eqn:E; cbn [fst snd].
  - split; reflexivity.
  - split; [reflexivity|]. intros k.
    destruct (Z.eq_dec k key) as [->|Hne].
    + rewrite lookup_insert_eq, E. reflexivity.
    + rewrite lookup_insert_ne by congruence. reflexivity.
Qed.

(** The loop that maps each colour to the index of the colour it is
    reduced to, with a divisor from 1 to 255. *)
Lemma map_reduced_spec (divisor : Z) (l : list Z) :
  1 <= divisor <= 255 ->
  forall cm qm : gmap Z Z,
    exists cm' qm' : gmap Z Z,
      map_reduced divisor l cm qm = Returns (cm', qm') /\
      (forall k, index_of qm' k = index_of qm k) /\
      (forall k, ~ In k l -> cm' !! k = cm !! k) /\
      (forall c, In c l ->
         exists new_color, Rgb18.reduce c divisor = Some new_color
                           /\ cm' !! c = Some (index_of qm new_color)).
Proof.
  intros Hd. induction l as [|color l IH]; intros cm qm; cbn [map_reduced].
  - exists cm, qm. split; [reflexivity|]. split; [reflexivity|].
    split; [reflexivity|]. intros c [].
  - destruct (reduce_some color divisor Hd) as [Hred _]. rewrite Hred.
    set (new_color := Rgb18.make _ _ _) in *.
    destruct (map_at_spec qm new_color) as [Hidx Hsame].
    destruct (map_at qm new_color) as [index qm1]. cbn [fst snd] in Hidx, Hsame.
    destruct (IH (<[color := index]> cm) qm1) as (cm' & qm' & Hrun & Hq & Hother & Hin).
    exists cm', qm'. split; [exact Hrun|]. split.
    { intros k. rewrite Hq. apply Hsame. }
    split.
    { intros k Hk. rewrite Hother by (intros H; apply Hk; right; exact H).
      apply lookup_insert_ne. intros ->. apply Hk. left. reflexivity. }
    intros c Hc. destruct (in_dec Z.eq_dec c l) as [Hl|Hnl].
    + destruct (Hin c Hl) as (nc & Hr & Hm). exists nc. split; [exact Hr|].
      rewrite Hm, Hsame. reflexivity.
    + destruct Hc as [<-|Hc]; [|contradiction].
      exists new_color. split; [exact Hred|].
      rewrite (Hother _ Hnl), lookup_insert_eq, Hidx. reflexivity.
Qed.

(** The indices when the search has run no round: the colours met are
    numbered in the order of the loop, and no colour keeps 0xfff. *)
Lemma map_colors_plain (original_colors quantized_colors : bitset) :
  exists cm : gmap Z Z,
    map_colors 4 original_colors quantized_colors = Returns (cm, ∅) /\
    index_of cm Rgb18.none = 0xfff /\
    forall i c, nth_error (members original_colors) i = Some c ->
      index_of cm c = Z.of_nat i.
Proof.
  unfold map_colors. cbn [Z.eqb Pos.eqb]. eexists. split; [reflexivity|].
  destruct (number_colors_indices original_colors {[ -1 := 0xfff ]})
    as [Hother Hnth].
  unfold index_of. split.
  - rewrite Hother by (unfold Rgb18.none; lia). reflexivity.
  - intros i c Hic. rewrite (Hnth i c Hic). reflexivity.
Qed.

(** The indices when the search has run a round: the colours of the
    palette are numbered in the order of the loop, each colour has the
    index of the colour it is reduced to, and no colour keeps 0xfff. *)
Lemma map_colors_reduced (divisor : Z) (original_colors quantized_colors : bitset) :
  5 <= divisor <= 255 ->
  exists cm qm : gmap Z Z,
    map_colors divisor original_colors quantized_colors = Returns (cm, qm) /\
    index_of cm Rgb18.none = 0xfff /\
    (forall i c, nth_error (members quantized_colors) i = Some c ->
       index_of qm c = Z.of_nat i) /\
    (forall c, 0 <= c < bitset_size ->
       exists new_color, Rgb18.reduce c divisor = Some new_color
                         /\ index_of cm c = index_of qm new_color).
Proof.
  intros Hd. unfold map_colors.
  destruct (Z.eqb_spec divisor 4) as [E|_]; [lia|].
  destruct (number_colors_indices quantized_colors ∅) as [_ Hnth].
  destruct (map_reduced_spec divisor positions ltac:(lia) {[ -1 := 0xfff ]}
              (fst (number_colors quantized_colors ∅ 0)))
    as (cm & qm & Hrun & Hq & Hother & Hin).
  exists cm, qm. split; [exact Hrun|]. split.
  - unfold index_of. rewrite Hother; [reflexivity|].
    rewrite positions_in. unfold Rgb18.none. lia.
  - split.
    + intros i c Hic. rewrite Hq. unfold index_of. rewrite (Hnth i c Hic). reflexivity.
    + intros c Hc. destruct (Hin c) as (nc & Hr & Hm); [apply positions_in, Hc|].
      exists nc. split; [exact Hr|]. unfold index_of at 1. rewrite Hm, Hq. reflexivity.
Qed.

(** The runs are written with the indices of their colours, and reading
    the indices leaves them as they are. *)
Lemma output_line_spec (cm : gmap Z Z) (line : list Run.t) (s : ostream) :
  snd (output_line cm line s) = s ++ run_bytes (indexed cm line) /\
  forall k, index_of (fst (output_line cm line s)) k = index_of cm k.
Proof.
  unfold output_line. revert cm s.
  induction line as [|r line IH]; intros cm s; cbn [fold_left indexed map].
  - cbn [fst snd]. unfold run_bytes. simpl. rewrite app_nil_r. split; reflexivity.
  - destruct (map_at_spec cm (Run.color r)) as [Hidx Hsame].
    destruct (map_at cm (Run.color r)) as [index cm1]. cbn [fst snd] in Hidx, Hsame.
    destruct (IH cm1 (write_uint32 s (run_word index (Run.length r)))) as [Hs Hm].
    assert (Hi : indexed cm1 line = indexed cm line).
    { unfold indexed. apply map_ext. intros a. rewrite Hsame. reflexivity. }
    rewrite Hs, Hi. split.
    + rewrite write_uint32_spec, <- app_assoc, Hidx. reflexivity.
    + intros k. rewrite Hm. apply Hsame.
Qed.

Lemma output_runs_spec (height : Z) (runs : list (list Run.t)) (cm : gmap Z Z)
    (s : ostream) :
  snd (output_runs height runs cm s)
  = s ++ flat_map (fun y => run_bytes (indexed cm (nth y runs [])))
           (seq 0 (Z.to_nat height)) /\
  forall k, index_of (fst (output_runs height runs cm s)) k = index_of cm k.
Proof.
  unfold output_runs.
  apply (for_ind (fun y r =>
           snd r = s ++ flat_map (fun y => run_bytes (indexed cm (nth y runs [])))
                          (seq 0 y) /\
           forall k, index_of (fst r) k = index_of cm k)).
  - cbn [fst snd flat_map seq]. rewrite app_nil_r. split; reflexivity.
  - intros y [cm1 s1] _ [Hs Hm]. cbn [fst snd] in Hs, Hm.
    destruct (output_line_spec cm1 (nth y runs []) s1) as [Hs' Hm'].
    assert (Hi : indexed cm1 (nth y runs []) = indexed cm (nth y runs [])).
    { unfold indexed. apply map_ext. intros a. rewrite Hm. reflexivity. }
    cbv beta iota. split.
    + rewrite Hs', Hs, Hi, seq_S, flat_map_app, <- app_assoc. cbn [flat_map Nat.add].
      rewrite app_nil_r. reflexivity.
    + intros k. rewrite Hm'. apply Hm.
Qed.

Lemma find_palette_now (max_fg_colors : N) (original_colors : bitset)
    (fuel : nat) (s : search) :
  found s <= Z.of_N max_fg_colors ->
  find_palette max_fg_colors fuel original_colors s = Returns s.
Proof.
  intros Hle. destruct fuel; cbn [find_palette];
    destruct (Z.gtb_spec (found s) (Z.of_N max_fg_colors)); try lia; reflexivity.
Qed.

(** The palette settled on after a search from the colours met: its count
    is within the bound and counts its colours; the divisor is 4 and the
    colours are the colours met, or the divisor is from 5 to 255 and the
    colours are what the divisor leaves of the colours met. *)
Lemma search_spec (max_fg_colors : N) (original_colors : bitset) (n : Z)
    (fuel : nat) (p0 : search) :
  counted original_colors n ->
  find_palette max_fg_colors fuel original_colors
    {| divisor := 4; found := n; quantized_colors := bitset_reset |} = Returns p0 ->
  let p := settled original_colors p0 in
  found p <= Z.of_N max_fg_colors /\
  counted (quantized_colors p) (found p) /\
  4 <= divisor p <= 255 /\
  (divisor p = 4 -> quantized_colors p = original_colors /\ found p = n) /\
  (divisor p <> 4 ->
   (forall c, 0 <= c < bitset_size -> original_colors c = true ->
      exists new_color, Rgb18.reduce c (divisor p) = Some new_color
                        /\ quantized_colors p new_color = true) /\
   (forall new_color, quantized_colors p new_color = true ->
      exists c, original_colors c = true
                /\ Rgb18.reduce c (divisor p) = Some new_color)).
Proof.
  intros Hcount Hfind.
  destruct (find_palette_returns _ _ _ _ _ Hfind) as (Hbound & Hdiv & Hsame & Hlast).
  cbn [divisor] in Hdiv, Hsame, Hlast. unfold settled.
  destruct (Z.eqb_spec (divisor p0) 4) as [E|NE]; cbn [divisor found quantized_colors].
  - rewrite (Hsame E) in *. cbn [divisor found quantized_colors] in *.
    split; [exact Hbound|]. split; [exact Hcount|]. split; [lia|].
    split; [auto|]. intros H. lia.
  - assert (Hgt : Z.of_N max_fg_colors < n).
    { destruct (Z.lt_ge_cases (Z.of_N max_fg_colors) n) as [H|H]; [exact H|].
      rewrite find_palette_now in Hfind by (cbn [found]; lia).
      injection Hfind as <-. cbn [divisor] in NE. lia. }
    destruct (counted_member _ _ Hcount ltac:(lia)) as (c1 & Hin1 & Ho1).
    specialize (Hlast ltac:(lia)).
    assert (Hd : divisor p0 <= 255).
    { destruct (Z.le_gt_cases (divisor p0) 255) as [H|H]; [exact H|].
      rewrite count_reduced_fails in Hlast by (try lia; exists c1; auto).
      discriminate Hlast. }
    destruct (count_reduced_spec max_fg_colors original_colors (divisor p0) positions
                ltac:(lia) bitset_reset 0 counted_reset)
      as (q & n' & Hrun & Hcount' & Hfrom & Hall).
    rewrite Hlast in Hrun. injection Hrun as <- <-.
    destruct (Hall Hbound) as [_ Hcover].
    split; [exact Hbound|]. split; [exact Hcount'|]. split; [lia|].
    split; [intros H; lia|]. intros _. split.
    + intros c Hc Ho. apply Hcover; [apply positions_in, Hc|exact Ho].
    + intros nc Hq. destruct (Hfrom nc Hq) as [H|(c & _ & Ho & Hr)]; [discriminate H|].
      exists c. split; assumption.
Qed.

(** ** The default quantizer *)

(** What the default quantizer leaves when it returns past the identity
    test. *)
Lemma Default_body_spec (max_fg_colors : N) out_fg out_bg (width height : Z)
    (o : outputs) (l : Default_locals) :
  Default_body max_fg_colors out_fg out_bg width height o = Returns l ->
  let s := Default_pass1 out_fg out_bg width height o in
  let p := palette l in
  first l = s /\
  (exists p0, find_palette max_fg_colors rounds (original_colors s)
                {| divisor := 4; found := color_counter s;
                   quantized_colors := bitset_reset |} = Returns p0
              /\ p = settled (original_colors s) p0) /\
  index_of (color_map l) Rgb18.none = 0xfff /\
  (forall i c, nth_error (members (quantized_colors p)) i = Some c ->
     index_of (if divisor p =? 4 then color_map l else quantized_color_map l) c
     = Z.of_nat i) /\
  (divisor p <> 4 ->
   forall c, 0 <= c < bitset_size ->
     exists new_color, Rgb18.reduce c (divisor p) = Some new_color
                       /\ index_of (color_map l) c
                          = index_of (quantized_color_map l) new_color) /\
  result l
  = set_stream (out (cursors s))
      (stream (out (cursors s))
       ++ palette_block (found p) (members (quantized_colors p))
       ++ flat_map (fun y => run_bytes (indexed (color_map l) (nth y (runs s) [])))
            (seq 0 (Z.to_nat height))).
Proof.
  unfold Default_body.
  set (s := Default_pass1 out_fg out_bg width height o).
  destruct (Default_pass1_spec out_fg out_bg width height o)
    as (_ & _ & _ & _ & Hcount & _). fold s in Hcount.
  destruct (find_palette max_fg_colors rounds (original_colors s)
              {| divisor := 4; found := color_counter s;
                 quantized_colors := bitset_reset |}) as [p0| |] eqn:Hfind;
    [|intros [=]|intros [=]].
  destruct (search_spec _ _ _ _ _ Hcount Hfind) as (_ & _ & Hd & _ & _).
  set (p := settled (original_colors s) p0) in *.
  rewrite output_palette_spec.
  destruct (Z.eq_dec (divisor p) 4) as [E|NE].
  - rewrite E.
    destruct (map_colors_plain (original_colors s) (quantized_colors p))
      as (cm & Hmap & Hnone & Hnth).
    rewrite Hmap.
    destruct (output_runs_spec height (runs s) cm
                (stream (out (cursors s))
                 ++ palette_block (found p) (members (quantized_colors p))))
      as [Hs Hm].
    destruct (output_runs height (runs s) cm _) as [cm' s'].
    cbn [fst snd] in Hs, Hm. intros [= <-].
    cbn [first palette color_map quantized_color_map result].
    split; [reflexivity|]. split; [exists p0; split; reflexivity|].
    split; [rewrite Hm; exact Hnone|]. split.
    + intros i c Hic. rewrite E. cbn [Z.eqb Pos.eqb]. rewrite Hm.
      apply Hnth.
      assert (Hq : quantized_colors p = original_colors s).
      { unfold p, settled in E |- *.
        destruct (divisor p0 =? 4) eqn:E4; [reflexivity|].
        apply Z.eqb_neq in E4. contradiction. }
      rewrite <- Hq. exact Hic.
    + split; [intros H; contradiction|].
      rewrite Hs, <- app_assoc. f_equal. f_equal. f_equal.
      apply flat_map_ext. intros y. f_equal. unfold indexed. apply map_ext.
      intros a. rewrite Hm. reflexivity.
  - destruct (map_colors_reduced (divisor p) (original_colors s) (quantized_colors p)
                ltac:(lia)) as (cm & qm & Hmap & Hnone & Hnth & Hred).
    rewrite Hmap.
    destruct (output_runs_spec height (runs s) cm
                (stream (out (cursors s))
                 ++ palette_block (found p) (members (quantized_colors p))))
      as [Hs Hm].
    destruct (output_runs height (runs s) cm _) as [cm' s'].
    cbn [fst snd] in Hs, Hm. intros [= <-].
    cbn [first palette color_map quantized_color_map result].
    split; [reflexivity|]. split; [exists p0; split; reflexivity|].
    split; [rewrite Hm; exact Hnone|]. split.
    + intros i c Hic. destruct (Z.eqb_spec (divisor p) 4) as [H|_]; [contradiction|].
      apply Hnth, Hic.
    + split.
      * intros _ c Hc. destruct (Hred c Hc) as (nc & Hr & Hi).
        exists nc. split; [exact Hr|]. rewrite Hm. exact Hi.
      * rewrite Hs, <- app_assoc. f_equal. f_equal. f_equal.
        apply flat_map_ext. intros y. f_equal. unfold indexed. apply map_ext.
        intros a. rewrite Hm. reflexivity.
Qed.

(** Once the search has returned, the default quantizer returns. *)
Lemma Default_body_after_search (max_fg_colors : N) out_fg out_bg (width height : Z)
    (o : outputs) (p0 : search) :
  let s := Default_pass1 out_fg out_bg width height o in
  find_palette max_fg_colors rounds (original_colors s)
    {| divisor := 4; found := color_counter s; quantized_colors := bitset_reset |}
  = Returns p0 ->
  exists l, Default_body max_fg_colors out_fg out_bg width height o = Returns l
            /\ palette l = settled (original_colors s) p0.
Proof.
  intros s Hfind. unfold Default_body. fold s. rewrite Hfind.
  destruct (Default_pass1_spec out_fg out_bg width height o)
    as (_ & _ & _ & _ & Hcount & _). fold s in Hcount.
  destruct (search_spec _ _ _ _ _ Hcount Hfind) as (_ & _ & Hd & _ & _).
  set (p := settled (original_colors s) p0) in *.
  destruct (Z.eq_dec (divisor p) 4) as [E|NE].
  - rewrite E.
    destruct (map_colors_plain (original_colors s) (quantized_colors p))
      as (cm & Hmap & _).
    rewrite Hmap. destruct (output_runs height (runs s) cm _) as [cm' s'].
    eexists. split; reflexivity.
  - destruct (map_colors_reduced (divisor p) (original_colors s) (quantized_colors p)
                ltac:(lia)) as (cm & qm & Hmap & _).
    rewrite Hmap. destruct (output_runs height (runs s) cm _) as [cm' s'].
    eexists. split; reflexivity.
Qed.

(** The scenario of the spec under the default quantizer: a palette of one
    colour, then a run of one pixel of the background and a run of one
    pixel of the colour of index 0. *)
Example scenario_default :
  DefaultQuantizer 4080 scenario_fg scenario_bg 2 1 scenario_outputs
  = Returns
      {| background_color := (10, 10, 10);
         has_foreground := true;
         has_background := false;
         stream :=
           Default_header 2 1 ++ decimal 1 ++ endl ++ [Chr 203; Chr 0; Chr 0]
           ++ run_bytes [(0xfff, 1); (0, 1)] |}.
Proof. vm_compute. reflexivity. Qed.

(** With a bound of 8 colours or more the default quantizer returns, and
    its search stops at the divisor 128 at the latest. *)
Lemma Default_body_returns (max_fg_colors : N) out_fg out_bg (width height : Z)
    (o : outputs) :
  (8 <= max_fg_colors)%N ->
  exists l, Default_body max_fg_colors out_fg out_bg width height o = Returns l
            /\ 4 <= divisor (palette l) <= 128.
Proof.
  intros Hmax.
  set (s := Default_pass1 out_fg out_bg width height o).
  destruct (find_palette_terminates max_fg_colors (original_colors s) rounds
              {| divisor := 4; found := color_counter s;
                 quantized_colors := bitset_reset |} Hmax)
    as (p0 & Hfind & Hd); cbn [divisor]; try (unfold rounds; lia).
  destruct (find_palette_returns _ _ _ _ _ Hfind) as (_ & Hlow & _).
  cbn [divisor] in Hlow.
  destruct (Default_body_after_search _ _ _ _ _ _ _ Hfind) as (l & Hl & Hp).
  exists l. split; [exact Hl|]. rewrite Hp. unfold settled.
  destruct (divisor p0 =? 4); cbn [divisor]; lia.
Qed.

(** The rounds allowed to the search are never exhausted. *)
Lemma Default_body_fuel (max_fg_colors : N) out_fg out_bg (width height : Z)
    (o : outputs) :
  Default_body max_fg_colors out_fg out_bg width height o <> OutOfFuel.
Proof.
  set (s := Default_pass1 out_fg out_bg width height o).
  destruct (find_palette max_fg_colors rounds (original_colors s)
              {| divisor := 4; found := color_counter s;
                 quantized_colors := bitset_reset |}) as [p0| |] eqn:Hfind.
  - destruct (Default_body_after_search _ _ _ _ _ _ _ Hfind) as (l & Hl & _).
    rewrite Hl. discriminate.
  - unfold Default_body. fold s. rewrite Hfind. discriminate.
  - exfalso. revert Hfind.
    destruct (Default_pass1_spec out_fg out_bg width height o)
      as (_ & _ & _ & _ & Hcount & _). fold s in Hcount.
    destruct (Z.le_gt_cases (color_counter s) (Z.of_N max_fg_colors)) as [Hle|Hgt].
    + rewrite find_palette_now by exact Hle. discriminate.
    + apply find_palette_fuel; cbn [divisor]; try (unfold rounds; lia).
      apply (counted_member _ _ Hcount). lia.
Qed.

(** ** The classification of the pixels *)

Lemma lit_pixel_iff out_fg out_bg (W H : nat) :
  existsb (lit out_fg out_bg) (cells W H 0) = true <-> lit_pixel out_fg out_bg W H.
Proof.
  rewrite existsb_exists. unfold lit_pixel, lit. split.
  - intros ([y x] & Hin & Hlit). apply in_cells in Hin. cbn [fst snd] in Hlit.
    apply andb_true_iff in Hlit as [Hd Hn].
    apply pixels_differ_iff in Hd. apply pixel_nonzero_iff in Hn.
    exists y, x. repeat split; try assumption; lia.
  - intros (y & x & Hy & Hx & Hd & Hn). exists (y, x). split.
    + apply in_cells. lia.
    + cbn [fst snd]. apply andb_true_iff. split.
      * apply pixels_differ_iff, Hd.
      * apply pixel_nonzero_iff, Hn.
Qed.

Lemma raised_iff (b : bool) out_fg out_bg (W H : nat) :
  b || existsb (lit out_fg out_bg) (cells W H 0) = true
  <-> b = true \/ lit_pixel out_fg out_bg W H.
Proof. rewrite orb_true_iff, lit_pixel_iff. reflexivity. Qed.

Lemma pixels_same_iff (p q : pixel) : pixels_differ p q = false <-> p = q.
Proof.
  destruct p as [[r g] b], q as [[r' g'] b']. unfold pixels_differ. simpl.
  rewrite !orb_false_iff, !negb_false_iff, !Z.eqb_eq. split.
  - intros [[Er Eg] Eb]. apply sample_inj in Er, Eg, Eb. subst. reflexivity.
  - intros [= -> -> ->]. repeat split; reflexivity.
Qed.

Lemma foreground_iff out_fg out_bg y x :
  foreground out_fg out_bg y x = false <-> bitmap out_fg y x = bitmap out_bg y x.
Proof. apply pixels_same_iff. Qed.

Lemma R4_pixels_grid (f : nat -> nat -> Z) (W H : nat) :
  R4_pixels (grid (fun y x => R4_pixel (f y x)) W H) = grid f W H.
Proof.
  assert (Hrow : forall (g : nat -> Z) (l : list nat),
            R4_pixels (map (fun x => R4_pixel (g x)) l) = map g l).
  { intros g l. induction l as [|a l IH]; [reflexivity|].
    cbn [map]. unfold R4_pixels in *. cbn [flat_map]. rewrite IH. reflexivity. }
  induction H as [|H IH]; [reflexivity|].
  rewrite !grid_succ. unfold R4_pixels in *. rewrite flat_map_app, IH.
  f_equal. apply Hrow.
Qed.

Lemma Mask_classifies out_fg out_bg (width height : Z) (o : outputs) :
  address out_fg <> address out_bg ->
  classifies out_fg out_bg (Z.to_nat width) (Z.to_nat height) 0
    (R4_pixels (written o (MaskQuantizer out_fg out_bg width height o))).
Proof.
  intros Hne. rewrite (MaskQuantizer_spec _ _ _ _ _ Hne).
  erewrite written_app by reflexivity.
  change (R4_pixels (R4_new width height :: ?l)) with (R4_pixels l).
  rewrite R4_pixels_grid. intros y x Hy Hx. rewrite grid_nth by assumption.
  rewrite <- foreground_iff. destruct (foreground out_fg out_bg y x); split;
    intros E; try reflexivity; discriminate E.
Qed.

Lemma WebSafe_code_none out_fg out_bg y x :
  WebSafe_code out_fg out_bg y x = 0xfff <-> bitmap out_fg y x = bitmap out_bg y x.
Proof.
  rewrite <- foreground_iff. unfold WebSafe_code.
  pose proof (WebSafe_index_spec (cursor out_fg y x)) as [_ Hb].
  destruct (foreground out_fg out_bg y x); split; intros E;
    try reflexivity; try discriminate E. lia.
Qed.

Lemma Default_code_none out_fg out_bg y x :
  Default_code out_fg out_bg y x = Rgb18.none
  <-> bitmap out_fg y x = bitmap out_bg y x.
Proof.
  rewrite <- foreground_iff.
  destruct (Default_code_cases out_fg out_bg y x) as [[Hf Hc]|[Hf Hc]];
    rewrite Hf; split; intros E; try reflexivity; try discriminate E;
    try exact Hc.
  unfold Rgb18.none in E. lia.
Qed.

Lemma flat_map_ext_seq {A : Type} (f g : nat -> list A) (n : nat) :
  (forall i, (i < n)%nat -> f i = g i) ->
  flat_map f (seq 0 n) = flat_map g (seq 0 n).
Proof.
  induction n as [|n IH]; intros H; [reflexivity|].
  rewrite seq_S, !flat_map_app. cbn [flat_map Nat.add].
  rewrite IH by (intros i Hi; apply H; lia). rewrite (H n) by lia. reflexivity.
Qed.

Lemma flat_map_by_index {A B : Type} (f : A -> list B) (l : list A) (d : A) :
  flat_map f l = flat_map (fun i => f (nth i l d)) (seq 0 (List.length l)).
Proof.
  induction l as [|a l IH] using rev_ind; [reflexivity|].
  rewrite flat_map_app, length_app. cbn [List.length flat_map].
  rewrite Nat.add_1_r, seq_S, flat_map_app. cbn [flat_map Nat.add].
  rewrite app_nth2, Nat.sub_diag by lia. cbn [nth]. f_equal.
  rewrite IH. apply flat_map_ext_seq. intros i Hi. rewrite app_nth1 by lia.
  reflexivity.
Qed.

(** The runs kept by the first scan stand for the colours of the pixels. *)
Lemma scanned_codes_spec out_fg out_bg (width height : Z) (o : outputs) :
  scanned_codes (Default_pass1 out_fg out_bg width height o)
  = grid (Default_code out_fg out_bg) (Z.to_nat width) (Z.to_nat height).
Proof.
  destruct (Default_pass1_spec out_fg out_bg width height o)
    as (_ & _ & _ & _ & _ & Hlen & Hrows).
  unfold scanned_codes, grid. rewrite (flat_map_by_index _ _ []), Hlen.
  apply flat_map_ext_seq. intros y Hy. apply (Hrows y Hy).
Qed.

Lemma DefaultQuantizer_body (max_fg_colors : N) out_fg out_bg (width height : Z)
    (o r : outputs) :
  address out_fg <> address out_bg ->
  DefaultQuantizer max_fg_colors out_fg out_bg width height o = Returns r ->
  exists l, Default_body max_fg_colors out_fg out_bg width height o = Returns l
            /\ r = result l.
Proof.
  intros Hne. unfold DefaultQuantizer.
  destruct (Z.eqb_spec (address out_fg) (address out_bg)) as [E|_]; [contradiction|].
  destruct (Default_body _ _ _ _ _ _) as [l| |]; intros [=].
  exists l. split; [reflexivity|]. congruence.
Qed.

Lemma DefaultQuantizer_returns (max_fg_colors : N) out_fg out_bg (width height : Z)
    (o : outputs) :
  (8 <= max_fg_colors)%N ->
  exists r, DefaultQuantizer max_fg_colors out_fg out_bg width height o = Returns r.
Proof.
  intros Hmax. unfold DefaultQuantizer.
  destruct (address out_fg =? address out_bg); [eexists; reflexivity|].
  destruct (Default_body_returns max_fg_colors out_fg out_bg width height o Hmax)
    as (l & -> & _).
  eexists. reflexivity.
Qed.

(** The flags and the colour of the background that the default quantizer
    leaves are those of its first scan. *)
Lemma Default_result_flags (max_fg_colors : N) out_fg out_bg (width height : Z)
    (o : outputs) (l : Default_locals) :
  Default_body max_fg_colors out_fg out_bg width height o = Returns l ->
  background_color (result l) = first_pixel out_bg /\
  has_foreground (result l)
  = has_foreground o
    || existsb (lit out_fg out_bg) (cells (Z.to_nat width) (Z.to_nat height) 0) /\
  has_background (result l)
  = has_background o
    || existsb (off (first_pixel out_bg) out_bg)
         (cells (Z.to_nat width) (Z.to_nat height) 0).
Proof.
  intros Hl. destruct (Default_body_spec _ _ _ _ _ _ _ Hl) as (_ & _ & _ & _ & _ & Hr).
  destruct (Default_pass1_spec out_fg out_bg width height o)
    as (Hc & Hf & Hb & _).
  rewrite Hr. cbn [set_stream background_color has_foreground has_background].
  split; [exact Hc|]. split; [exact Hf|exact Hb].
Qed.

(** C1. When the page and the background are two renderers, the mask, the
    web-safe and the default quantizers classify a pixel foreground exactly
    when the pixel of the page is not the pixel of the background at the
    same place: the mask quantizer gives the bitonal encoder a 0 exactly at
    the pixels in common, the runs of the web-safe quantizer, which are
    read back from the stream when the rows have less than 2 ^ 20 pixels,
    hold 0xfff exactly there, and the runs of the first scan of the default
    quantizer hold no colour exactly there. Each of them leaves [has_foreground] true
    exactly when it was true before or a pixel classified foreground is not
    black: a black pixel of the foreground does not raise the flag. The
    default quantizer returns when 8 colours or more are allowed. *)
Theorem C1_pixels_classified (max_fg_colors : N) (out_fg out_bg : Renderer)
    (width height : Z) (o : outputs) :
  address out_fg <> address out_bg ->
  let W := Z.to_nat width in
  let H := Z.to_nat height in
  let raised (r : outputs) :=
    has_foreground r = true
    <-> has_foreground o = true \/ lit_pixel out_fg out_bg W H in
  (classifies out_fg out_bg W H 0
     (R4_pixels (written o (MaskQuantizer out_fg out_bg width height o)))
   /\ raised (MaskQuantizer out_fg out_bg width height o)) /\
  ((exists l : list (Z * Z),
      written o (WebSafeQuantizer out_fg out_bg width height o)
      = WebSafe_header width height ++ run_bytes l
      /\ (width < 2 ^ 20 -> read_runs (run_bytes l) = l)
      /\ classifies out_fg out_bg W H 0xfff (unrle l))
   /\ raised (WebSafeQuantizer out_fg out_bg width height o)) /\
  (forall l, Default_body max_fg_colors out_fg out_bg width height o = Returns l ->
     classifies out_fg out_bg W H Rgb18.none (scanned_codes (first l))) /\
  (forall r, DefaultQuantizer max_fg_colors out_fg out_bg width height o = Returns r ->
     raised r) /\
  ((8 <= max_fg_colors)%N ->
   exists r, DefaultQuantizer max_fg_colors out_fg out_bg width height o = Returns r).
Proof.
  intros Hne W H raised. unfold raised.
  split; [|split; [|split; [|split]]].
  - split; [apply Mask_classifies, Hne|].
    rewrite (MaskQuantizer_spec _ _ _ _ _ Hne). cbn [has_foreground].
    apply raised_iff.
  - destruct (WebSafeQuantizer_spec out_fg out_bg width height o Hne)
      as (l & -> & Hun & Hall).
    split.
    + exists l. split; [apply written_app; reflexivity|].
      split; [intros Hw; apply (read_run_bytes width); assumption|].
      rewrite Hun. intros y x Hy Hx. rewrite grid_nth by assumption.
      apply WebSafe_code_none.
    + cbn [has_foreground]. apply raised_iff.
  - intros l Hl. destruct (Default_body_spec _ _ _ _ _ _ _ Hl) as (-> & _).
    rewrite scanned_codes_spec. intros y x Hy Hx. rewrite grid_nth by assumption.
    apply Default_code_none.
  - intros r Hr. destruct (DefaultQuantizer_body _ _ _ _ _ _ _ Hne Hr) as (l & Hl & ->).
    destruct (Default_result_flags _ _ _ _ _ _ _ Hl) as (_ & -> & _).
    apply raised_iff.
  - apply DefaultQuantizer_returns.
Qed.

Lemma C1_pixels_classified_witness :
  address scenario_fg <> address scenario_bg /\
  has_foreground (MaskQuantizer scenario_fg scenario_bg 2 1 scenario_outputs) = true.
Proof.
  assert (Hne : address scenario_fg <> address scenario_bg) by discriminate.
  split; [exact Hne|].
  destruct (C1_pixels_classified 4080 scenario_fg scenario_bg 2 1 scenario_outputs Hne)
    as ((_ & Hraised) & _).
  apply Hraised. right. exists 0%nat, 1%nat.
  split; [simpl; lia|]. split; [simpl; lia|]. split; discriminate.
Defined.

(** A colour of eighteen bits is packed back from its three samples. *)
Lemma make_get (c : Z) :
  0 <= c < bitset_size ->
  Rgb18.make (Rgb18.get c 0) (Rgb18.get c 1) (Rgb18.get c 2) = c.
Proof.
  intros Hc.
  assert (Hall : forallb (fun c =>
                   Rgb18.make (Rgb18.get c 0) (Rgb18.get c 1) (Rgb18.get c 2) =? c)
                   positions = true) by (vm_compute; reflexivity).
  rewrite forallb_forall in Hall. apply Z.eqb_eq, Hall, positions_in, Hc.
Qed.

(** Two colours of eighteen bits are written differently in the palette. *)
Lemma palette_entry_inj (c c' : Z) :
  0 <= c < bitset_size -> 0 <= c' < bitset_size ->
  palette_entry c = palette_entry c' -> c = c'.
Proof.
  intros Hc Hc' E. unfold palette_entry, to_uchar in E. cbn [map] in E.
  rewrite !Z.mod_small in E
    by (change (2 ^ 8) with 256;
        match goal with |- 0 <= Rgb18.get ?v ?i < _ =>
          pose proof (get_bounds v i); lia end).
  injection E as E0 E1 E2.
  rewrite <- (make_get c Hc), <- (make_get c' Hc'), E0, E1, E2. reflexivity.
Qed.

Lemma palette_entries_NoDup (q : Z -> bool) :
  List.NoDup (map palette_entry (members q)).
Proof.
  apply Finite.Injective_map_NoDup_in.
  - intros c c' Hc Hc' E. apply members_in in Hc, Hc'.
    apply palette_entry_inj; tauto.
  - apply sorted_NoDup, members_sorted.
Qed.

Lemma in_nth_error_Z (l : list Z) (c : Z) :
  In c l -> exists i, nth_error l i = Some c.
Proof. apply In_nth_error. Qed.

(** C2. When the page and the background are two renderers and the default
    quantizer returns, the colours of its palette are at most
    [max_fg_colors], they are written after the header in ascending order
    of their 18-bit values, as triples that differ from one another, each
    colour of the palette has for index its
    place in that order, counted from 0, each colour met in the scan has
    the index of the colour that stands for it in the palette, the key
    [Rgb18.none] of the pixels of the background has the index 0xfff, and
    the runs of the first scan are written after the palette with these
    indices. The quantizer returns when 8 colours
    or more are allowed. *)
Theorem C2_palette_order (max_fg_colors : N) (out_fg out_bg : Renderer)
    (width height : Z) (o : outputs) :
  address out_fg <> address out_bg ->
  (forall l, Default_body max_fg_colors out_fg out_bg width height o = Returns l ->
     let p := palette l in
     let colors := members (quantized_colors p) in
     let indices := if divisor p =? 4 then color_map l else quantized_color_map l in
     Z.of_nat (List.length colors) = found p /\
     found p <= Z.of_N max_fg_colors /\
     StronglySorted Z.lt colors /\
     List.NoDup (map palette_entry colors) /\
     written o (result l)
     = Default_header width height ++ palette_block (found p) colors
       ++ flat_map (fun y => run_bytes (indexed (color_map l) (nth y (runs (first l)) [])))
            (seq 0 (Z.to_nat height)) /\
     (forall i c, nth_error colors i = Some c -> index_of indices c = Z.of_nat i) /\
     (forall c, 0 <= c < bitset_size -> original_colors (first l) c = true ->
        exists i c',
          (if divisor p =? 4 then c' = c else Rgb18.reduce c (divisor p) = Some c')
          /\ nth_error colors i = Some c'
          /\ index_of (color_map l) c = Z.of_nat i) /\
     index_of (color_map l) Rgb18.none = 0xfff) /\
  ((8 <= max_fg_colors)%N ->
   exists l, Default_body max_fg_colors out_fg out_bg width height o = Returns l).
Proof.
  intros Hne. split.
  - intros l Hl p colors indices.
    destruct (Default_body_spec _ _ _ _ _ _ _ Hl)
      as (Hfirst & (p0 & Hfind & Hp) & Hnone & Hnth & Hred & Hres).
    fold p in Hp, Hnth, Hred, Hres. fold colors in Hnth, Hres.
    destruct (Default_pass1_spec out_fg out_bg width height o)
      as (_ & _ & _ & Hst & Hcount & _).
    destruct (search_spec _ _ _ _ _ Hcount Hfind) as (Hbound & Hcount' & Hd & H4 & Hn4).
    rewrite <- Hp in Hbound, Hcount', Hd, H4, Hn4.
    split; [symmetry; apply Hcount'|]. split; [exact Hbound|].
    split; [apply members_sorted|]. split; [apply palette_entries_NoDup|]. split.
    { apply written_app. rewrite Hres, Hfirst. cbn [set_stream stream].
      rewrite Hst, <- !app_assoc. reflexivity. }
    split; [exact Hnth|]. split; [|exact Hnone].
    intros c Hc Ho. rewrite Hfirst in Ho. unfold indices in Hnth.
    destruct (Z.eqb_spec (divisor p) 4) as [E|NE].
    + destruct (H4 E) as [Hq _].
      assert (Hin : In c colors).
      { unfold colors. rewrite Hq. apply members_in. split; assumption. }
      destruct (in_nth_error_Z _ _ Hin) as (i & Hi).
      exists i, c. split; [reflexivity|]. split; [exact Hi|]. apply Hnth, Hi.
    + destruct (Hn4 NE) as [Hcover _].
      destruct (Hcover c Hc Ho) as (c' & Hr & Hq).
      destruct (Hred NE c Hc) as (c'' & Hr' & Hidx).
      assert (c'' = c') by congruence. subst c''.
      assert (Hin : In c' colors).
      { unfold colors. apply members_in. split; [|exact Hq].
        destruct (reduce_some c (divisor p) ltac:(lia)) as [Hr2 Hrange].
        rewrite Hr in Hr2. injection Hr2 as ->. exact Hrange. }
      destruct (in_nth_error_Z _ _ Hin) as (i & Hi).
      exists i, c'. split; [exact Hr|]. split; [exact Hi|].
      rewrite Hidx. apply Hnth, Hi.
  - intros Hmax.
    destruct (Default_body_returns max_fg_colors out_fg out_bg width height o Hmax)
      as (l & Hl & _).
    exists l. exact Hl.
Qed.

Lemma C2_palette_order_witness :
  address scenario_fg <> address scenario_bg /\
  exists l, Default_body 4080 scenario_fg scenario_bg 2 1 scenario_outputs = Returns l.
Proof.
  assert (Hne : address scenario_fg <> address scenario_bg) by discriminate.
  split; [exact Hne|].
  destruct (C2_palette_order 4080 scenario_fg scenario_bg 2 1 scenario_outputs Hne)
    as [_ Hreturns].
  apply Hreturns. discriminate.
Defined.

(** ** The search of the palette when fewer than 8 colours are allowed *)

(** The colours with samples that are 0 or 255 are left as they are by
    every divisor from 5 to 255. *)
Lemma corners_fixed (d c : Z) :
  5 <= d <= 255 -> In c corners -> Rgb18.reduce c d = Some c.
Proof.
  intros Hd Hc.
  assert (Hall : forallb (fun d => forallb (fun c =>
                   match Rgb18.reduce c d with
                   | Some c' => c' =? c
                   | None => false
                   end) corners) (Zseq 5 251) = true)
    by (vm_compute; reflexivity).
  rewrite forallb_forall in Hall.
  specialize (Hall d ltac:(apply Zseq_in; lia)).
  rewrite forallb_forall in Hall. specialize (Hall c Hc).
  destruct (Rgb18.reduce c d) as [c'|]; [|discriminate Hall].
  apply Z.eqb_eq in Hall. congruence.
Qed.

Lemma corners_sorted : StronglySorted Z.lt corners.
Proof.
  unfold corners. repeat (constructor; [|repeat constructor; vm_compute; reflexivity]).
  constructor.
Qed.

Lemma corners_in_range (c : Z) : In c corners -> 0 <= c < bitset_size.
Proof.
  intros Hc. change bitset_size with 262144.
  unfold corners in Hc. simpl in Hc.
  repeat (destruct Hc as [<-|Hc]; [vm_compute; split; [discriminate|reflexivity]|]).
  destruct Hc.
Qed.

(** With fewer than 8 colours allowed, over an image that holds the eight
    colours, the search never returns: each round up to the divisor 255
    counts more colours than allowed. *)
Lemma find_palette_stuck (max_fg_colors : N) (original_colors : bitset)
    (fuel : nat) (s p : search) :
  (max_fg_colors < 8)%N ->
  (forall c, In c corners -> original_colors c = true) ->
  Z.of_N max_fg_colors < found s ->
  4 <= divisor s <= 255 ->
  find_palette max_fg_colors fuel original_colors s <> Returns p.
Proof.
  intros Hmax Hcorners. revert s.
  induction fuel as [|fuel IH]; intros s Hfound Hd; cbn [find_palette];
    destruct (Z.gtb_spec (found s) (Z.of_N max_fg_colors)) as [_|Hle];
    try lia; [discriminate|].
  destruct (Z.eq_dec (divisor s) 255) as [E|NE].
  - rewrite count_reduced_fails; [discriminate|lia|].
    exists (Rgb18.make 0 0 0). split.
    + apply positions_in, corners_in_range. left. reflexivity.
    + apply Hcorners. left. reflexivity.
  - destruct (count_reduced_spec max_fg_colors original_colors (divisor s + 1)
                positions ltac:(lia) bitset_reset 0 counted_reset)
      as (q & n & Hround & Hcount & _ & Hall).
    rewrite Hround. apply IH; cbn [found divisor]; [|lia].
    destruct (Z.lt_ge_cases (Z.of_N max_fg_colors) n) as [H|H]; [exact H|exfalso].
    destruct (Hall ltac:(lia)) as [_ Hcover].
    assert (Hincl : incl corners (members q)).
    { intros c Hc. apply members_in. split; [apply corners_in_range, Hc|].
      destruct (Hcover c) as (c' & Hr & Hq).
      - apply positions_in, corners_in_range, Hc.
      - apply Hcorners, Hc.
      - rewrite corners_fixed in Hr by (try lia; exact Hc). congruence. }
    pose proof (NoDup_incl_length (sorted_NoDup _ corners_sorted) Hincl) as Hlen.
    change (List.length corners) with 8%nat in Hlen.
    destruct Hcount as [-> _]. lia.
Qed.

(** C3, as amended. When 8 colours or more are allowed, the search of the
    palette returns from any set of colours met, within 124 rounds, and so
    within 256: it runs no round past the divisor 128, and what it returns
    is within the bound. *)
Theorem C3_search_terminates (max_fg_colors : N) (original_colors : Z -> bool)
    (n : Z) (fuel : nat) :
  (8 <= max_fg_colors)%N ->
  (124 <= fuel)%nat ->
  exists p,
    find_palette max_fg_colors fuel original_colors
      {| divisor := 4; found := n; quantized_colors := bitset_reset |} = Returns p
    /\ 4 <= divisor p <= 128
    /\ divisor p - 4 <= 124
    /\ found p <= Z.of_N max_fg_colors.
Proof.
  intros Hmax Hfuel.
  destruct (find_palette_terminates max_fg_colors original_colors fuel
              {| divisor := 4; found := n; quantized_colors := bitset_reset |} Hmax)
    as (p & Hfind & Hd); cbn [divisor]; try lia.
  destruct (find_palette_returns _ _ _ _ _ Hfind) as (Hbound & Hlow & _).
  cbn [divisor] in Hlow.
  exists p. split; [exact Hfind|]. lia.
Qed.

(** The nine colours are nine, at positions of the bit set. *)
Lemma nine_colors_counted : counted nine_colors 9.
Proof.
  split; [vm_compute; reflexivity|].
  intros c Hc. unfold nine_colors in Hc.
  apply existsb_exists in Hc as (x & Hin & E).
  apply Z.eqb_eq in E. subst x.
  destruct Hin as [<-|Hin]; [|apply corners_in_range; exact Hin].
  vm_compute. split; [discriminate|reflexivity].
Qed.

(** Over nine colours met and 8 allowed, the search runs: it returns past
    the divisor 4, by 128, within the bound. *)
Lemma C3_search_terminates_witness :
  (8 <= 8)%N /\ (124 <= 124)%nat /\
  counted nine_colors 9 /\ Z.of_N 8 < 9 /\
  exists p,
    find_palette 8 124 nine_colors
      {| divisor := 4; found := 9; quantized_colors := bitset_reset |} = Returns p
    /\ 4 < divisor p <= 128
    /\ divisor p - 4 <= 124
    /\ found p <= Z.of_N 8.
Proof.
  split; [lia|]. split; [lia|]. split; [exact nine_colors_counted|].
  split; [lia|].
  destruct (C3_search_terminates 8 nine_colors 9 124 ltac:(lia) ltac:(lia))
    as (p & Hfind & Hd & Hrounds & Hfound).
  exists p. split; [exact Hfind|]. split; [|split; assumption].
  destruct (find_palette_returns _ _ _ _ _ Hfind) as (_ & _ & Hsame & _).
  cbn [divisor] in Hsame.
  destruct (Z.eq_dec (divisor p) 4) as [E|NE]; [|lia].
  rewrite (Hsame E) in Hfound. cbn [found] in Hfound. lia.
Defined.

(** Over the image of the eight colours, with 7 colours allowed, the
    default quantizer divides by zero. *)
Lemma corners_divide_by_zero :
  DefaultQuantizer 7 corners_fg corners_bg 8 1 scenario_outputs = DivisionByZero.
Proof.
  unfold DefaultQuantizer.
  change (address corners_fg =? address corners_bg) with false. cbv iota.
  destruct (Default_body 7 corners_fg corners_bg 8 1 scenario_outputs)
    as [l| |] eqn:Hl; [exfalso|reflexivity|exfalso].
  - destruct (Default_body_spec _ _ _ _ _ _ _ Hl) as (_ & (p0 & Hfind & _) & _).
    revert Hfind. apply find_palette_stuck.
    + reflexivity.
    + intros c Hc.
      assert (Hall : forallb (original_colors
                       (Default_pass1 corners_fg corners_bg 8 1 scenario_outputs))
                       corners = true) by (vm_compute; reflexivity).
      rewrite forallb_forall in Hall. apply Hall, Hc.
    + cbn [found].
      assert (E : color_counter
                    (Default_pass1 corners_fg corners_bg 8 1 scenario_outputs) = 8)
        by (vm_compute; reflexivity).
      rewrite E. reflexivity.
    + cbn [divisor]. lia.
  - exact (Default_body_fuel _ _ _ _ _ _ Hl).
Qed.

(** C3, as stated, fails when 7 colours are allowed: over the image of the
    eight colours the search never returns, and the default quantizer
    divides by zero in the round of the divisor 256. *)
Lemma C3_counterexample :
  DefaultQuantizer 7 corners_fg corners_bg 8 1 scenario_outputs = DivisionByZero.
Proof.
  exact corners_divide_by_zero.
Qed.

(** ** The reduction formula *)




(** ** The web-safe palette *)

Lemma web_palette_at (start : Z) (len i : nat) :
  (i < len)%nat ->
  firstn 3 (skipn (3 * i) (flat_map web_color_at (Zseq start len)))
  = web_color_at (start + Z.of_nat i).
Proof.
  revert start len. induction i as [|i IH]; intros start len Hi.
  - destruct len as [|len]; [lia|]. cbn [Zseq flat_map Nat.mul skipn].
    replace (start + Z.of_nat 0) with start by lia. reflexivity.
  - destruct len as [|len]; [lia|]. cbn [Zseq flat_map].
    replace (3 * S i)%nat with (S (S (S (3 * i)))) by lia.
    cbn [web_color_at app skipn]. rewrite IH by lia. f_equal. lia.
Qed.

(** C5, as amended. When the page and the background are two renderers,
    the web-safe quantizer writes its header, the 216 colours of its
    palette, the colour at the place [i] being [(51 * (i / 36), 51 * ((i /
    6) mod 6), 51 * (i mod 6))], and the words of runs that hold, at each
    pixel of the foreground of samples [(R, G, B)], the index [(B + 1) / 43
    + 6 * ((G + 1) / 43 + 6 * ((R + 1) / 43))], which is from 0 to 215.
    These runs are the ones read back from the words written when the rows
    have less than 2 ^ 20 pixels: the amendment is this bound on the
    width. *)
Theorem C5_web_safe_index (out_fg out_bg : Renderer) (width height : Z) (o : outputs) :
  address out_fg <> address out_bg ->
  let W := Z.to_nat width in
  let H := Z.to_nat height in
  let palette := flat_map web_color_at (Zseq 0 216) in
  (exists l : list (Z * Z),
     written o (WebSafeQuantizer out_fg out_bg width height o)
     = chars "R6 " ++ decimal width ++ chars " " ++ decimal height ++ chars " "
       ++ chars "216" ++ endl ++ palette ++ run_bytes l
     /\ (width < 2 ^ 20 -> read_runs (run_bytes l) = l)
     /\ forall y x, (y < H)%nat -> (x < W)%nat ->
          bitmap out_fg y x <> bitmap out_bg y x ->
          nth (y * W + x) (unrle l) 0xfff = web_index (bitmap out_fg y x)) /\
  (forall p : pixel, 0 <= web_index p <= 215) /\
  (forall i, (i < 216)%nat ->
     firstn 3 (skipn (3 * i) palette)
     = [Chr (51 * (Z.of_nat i / 36)); Chr (51 * ((Z.of_nat i / 6) mod 6));
        Chr (51 * (Z.of_nat i mod 6))]).
Proof.
  intros Hne W H palette. split; [|split].
  - destruct (WebSafeQuantizer_spec out_fg out_bg width height o Hne)
      as (l & -> & Hun & Hall).
    exists l. split; [|split; [intros Hw; apply (read_run_bytes width); assumption|]].
    + erewrite written_app by reflexivity. unfold WebSafe_header.
      rewrite <- !app_assoc. reflexivity.
    + intros y x Hy Hx Hd. rewrite Hun, grid_nth by assumption.
      unfold WebSafe_code.
      destruct (foreground out_fg out_bg y x) eqn:Hf.
      * apply (WebSafe_index_spec (cursor out_fg y x)).
      * apply foreground_iff in Hf. contradiction.
  - intros p.
    pose proof (WebSafe_index_spec
                  {| Pixmap.pixels := fun _ _ => p; Pixmap.row := 0;
                     Pixmap.column := 0 |}) as [E Hb].
    cbn [under Pixmap.pixels] in E. rewrite <- E. exact Hb.
  - intros i Hi. unfold palette. rewrite web_palette_at by exact Hi. reflexivity.
Qed.

(** In the scenario, the runs read back from the words written hold the
    index 144 at the second pixel, of samples (200, 0, 0). *)
Lemma C5_web_safe_index_witness :
  address scenario_fg <> address scenario_bg /\
  web_index (bitmap scenario_fg 0 1) = 144 /\
  exists l : list (Z * Z),
    written scenario_outputs
      (WebSafeQuantizer scenario_fg scenario_bg 2 1 scenario_outputs)
    = chars "R6 " ++ decimal 2 ++ chars " " ++ decimal 1 ++ chars " "
      ++ chars "216" ++ endl ++ flat_map web_color_at (Zseq 0 216) ++ run_bytes l /\
    nth 1 (unrle (read_runs (run_bytes l))) 0xfff = 144.
Proof.
  assert (Hne : address scenario_fg <> address scenario_bg) by discriminate.
  split; [exact Hne|]. split; [reflexivity|].
  destruct (C5_web_safe_index scenario_fg scenario_bg 2 1 scenario_outputs Hne)
    as ((l & Hwritten & Hread & Hindex) & _).
  exists l. split; [exact Hwritten|].
  rewrite (Hread ltac:(lia)).
  exact (Hindex 0%nat 1%nat ltac:(change (Z.to_nat 1) with 1%nat; lia)
           ltac:(change (Z.to_nat 2) with 2%nat; lia) ltac:(discriminate)).
Defined.

(** ** The identical renderers and the dummy quantizer *)

(** C6. When the page and the background are one renderer, the mask, the
    web-safe and the default quantizers read no pixel: each of them appends
    the dummy encoding to the stream, one run of the width of the image for
    each row, sets the colour of the background to white, leaves
    [has_background] true and leaves [has_foreground] as it was. *)
Theorem C6_identical_renderers (max_fg_colors : N) (out_fg out_bg : Renderer)
    (width height : Z) (o : outputs) :
  address out_fg = address out_bg ->
  let dummy :=
    {| background_color := (0xff, 0xff, 0xff);
       has_foreground := has_foreground o;
       has_background := true;
       stream :=
         stream o ++ R4_new width height
         :: repeat (R4_output_run width) (Z.to_nat height) |} in
  MaskQuantizer out_fg out_bg width height o = dummy /\
  WebSafeQuantizer out_fg out_bg width height o = dummy /\
  DefaultQuantizer max_fg_colors out_fg out_bg width height o = Returns dummy /\
  stream (DummyQuantizer out_fg out_bg width height o) = stream dummy.
Proof.
  intros E dummy.
  unfold MaskQuantizer, WebSafeQuantizer, DefaultQuantizer, DummyQuantizer.
  rewrite E, Z.eqb_refl, dummy_quantizer_spec.
  repeat split; reflexivity.
Qed.

Lemma C6_identical_renderers_witness :
  address scenario_fg = address scenario_fg /\
  MaskQuantizer scenario_fg scenario_fg 2 1 scenario_outputs
  = {| background_color := (0xff, 0xff, 0xff);
       has_foreground := false;
       has_background := true;
       stream := [R4_new 2 1; R4_output_run 2] |}.
Proof.
  split; [reflexivity|].
  destruct (C6_identical_renderers 4080 scenario_fg scenario_fg 2 1 scenario_outputs
              eq_refl) as (Hmask & _).
  rewrite Hmask. reflexivity.
Defined.

(** C7, as amended. The dummy quantizer appends the dummy encoding to the
    stream, one run of the width of the image for each row, sets the colour
    of the background to white, and leaves [has_foreground] and
    [has_background] as they were. *)
Theorem C7_dummy_quantizer (out_fg out_bg : Renderer) (width height : Z)
    (o : outputs) :
  DummyQuantizer out_fg out_bg width height o
  = {| background_color := (0xff, 0xff, 0xff);
       has_foreground := has_foreground o;
       has_background := has_background o;
       stream :=
         stream o ++ R4_new width height
         :: repeat (R4_output_run width) (Z.to_nat height) |}.
Proof. apply dummy_quantizer_spec. Qed.

(** C7, as stated, fails on a caller that holds [has_background] false: the
    dummy quantizer leaves it false. *)
Lemma C7_counterexample :
  has_background (DummyQuantizer scenario_fg scenario_bg 2 1 scenario_outputs) = false.
Proof. reflexivity. Qed.

(** C10. When the page and the background are two renderers, the mask
    quantizer leaves the colour of the background as its caller gave it,
    and tests the pixels of the background against that colour; the
    web-safe and the default quantizers set it to the first pixel of the
    background. *)
Theorem C10_background_color (max_fg_colors : N) (out_fg out_bg : Renderer)
    (width height : Z) (o : outputs) :
  address out_fg <> address out_bg ->
  let W := Z.to_nat width in
  let H := Z.to_nat height in
  background_color (MaskQuantizer out_fg out_bg width height o)
  = background_color o /\
  has_background (MaskQuantizer out_fg out_bg width height o)
  = has_background o || existsb (off (background_color o) out_bg) (cells W H 0) /\
  background_color (WebSafeQuantizer out_fg out_bg width height o)
  = first_pixel out_bg /\
  (forall r, DefaultQuantizer max_fg_colors out_fg out_bg width height o = Returns r ->
     background_color r = first_pixel out_bg) /\
  ((8 <= max_fg_colors)%N ->
   exists r, DefaultQuantizer max_fg_colors out_fg out_bg width height o = Returns r).
Proof.
  intros Hne W H.
  rewrite (MaskQuantizer_spec _ _ _ _ _ Hne). cbn [background_color has_background].
  split; [reflexivity|]. split; [reflexivity|]. split; [|split].
  - destruct (WebSafeQuantizer_spec out_fg out_bg width height o Hne) as (l & -> & _).
    reflexivity.
  - intros r Hr. destruct (DefaultQuantizer_body _ _ _ _ _ _ _ Hne Hr) as (l & Hl & ->).
    apply (Default_result_flags _ _ _ _ _ _ _ Hl).
  - apply DefaultQuantizer_returns.
Qed.

Lemma C10_background_color_witness :
  address scenario_fg <> address scenario_bg /\
  background_color (MaskQuantizer scenario_fg scenario_bg 2 1 scenario_outputs)
  = (10, 10, 10).
Proof.
  assert (Hne : address scenario_fg <> address scenario_bg) by discriminate.
  split; [exact Hne|].
  destruct (C10_background_color 4080 scenario_fg scenario_bg 2 1 scenario_outputs Hne)
    as (Hmask & _).
  rewrite Hmask. reflexivity.
Defined.

(** ** The quantizer of GraphicsMagick, built without the library *)

(** C9. Built without the library, the quantizer of GraphicsMagick cannot
    be used: building it throws [NotImplementedError], so that whatever
    the caller meant to do with the object, a call in particular, is not
    reached, and the outputs, the stream among them, are left as they
    were. *)
Theorem C9_not_implemented (Config A : Type) (config : Config)
    (use : NoGraphicsMagick.GraphicsMagickQuantizer Config -> outputs
           -> thrown A * outputs)
    (out_fg out_bg : Renderer) (width height : Z) (o : outputs) :
  NoGraphicsMagick.new config = Throws NotImplementedError /\
  NoGraphicsMagick.with_quantizer config use o = (Throws NotImplementedError, o) /\
  NoGraphicsMagick.quantize config out_fg out_bg width height o
  = (Throws NotImplementedError, o) /\
  stream (snd (NoGraphicsMagick.quantize config out_fg out_bg width height o))
  = stream o.
Proof. repeat split; reflexivity. Qed.

(** ** The default quantizer on an image without foreground *)

Lemma nth_replicate_lt {A : Type} (n i : nat) (a d : A) :
  (i < n)%nat -> nth i (replicate n a) d = a.
Proof.
  revert i. induction n as [|n IH]; intros i Hi; [lia|].
  destruct i as [|i]; [reflexivity|]. cbn [replicate nth]. apply IH. lia.
Qed.

Lemma replicate_snoc {A : Type} (n : nat) (a : A) :
  replicate n a ++ [a] = replicate (S n) a.
Proof.
  induction n as [|n IH]; [reflexivity|]. cbn [replicate app]. rewrite IH.
  reflexivity.
Qed.

(** When no pixel of the page differs from the background, the first scan
    meets no colour and keeps, for each row, one run of no colour of the
    width of the image. *)
Lemma Default_pass1_plain out_fg out_bg (width height : Z) (o : outputs) :
  0 < width ->
  (forall y x, (y < Z.to_nat height)%nat -> (x < Z.to_nat width)%nat ->
     bitmap out_fg y x = bitmap out_bg y x) ->
  let s := Default_pass1 out_fg out_bg width height o in
  color_counter s = 0 /\
  original_colors s = bitset_reset /\
  runs s = replicate (Z.to_nat height)
             [{| Run.color := Rgb18.none; Run.length := width |}].
Proof.
  intros Hw Hsame. unfold Default_pass1.
  set (o' := sample_background _ _).
  set (full := {| Run.color := Rgb18.none; Run.length := width |}).
  assert (Hrow : forall y t (rows rest : list (list Run.t)),
            (y < Z.to_nat height)%nat ->
            scanned out_fg out_bg o' (Z.to_nat width) y 0 (cursors t) ->
            color_counter t = 0 -> original_colors t = bitset_reset ->
            runs t = rows ++ [] :: rest -> List.length rows = y ->
            scanned out_fg out_bg o' (Z.to_nat width) (S y) 0
              (cursors (Default_row width y t)) /\
            color_counter (Default_row width y t) = 0 /\
            original_colors (Default_row width y t) = bitset_reset /\
            runs (Default_row width y t) = rows ++ [full] :: rest).
  { intros y t rows rest Hy Hsc Hn Ho Hruns Hrows. unfold Default_row.
    pose proof (for_ind (fun x u =>
        scanned out_fg out_bg o' (Z.to_nat width) y x (cursors u) /\
        color_counter u = 0 /\ original_colors u = bitset_reset /\
        runs u = rows ++ [] :: rest /\
        run u = {| Run.color := Rgb18.none; Run.length := Z.of_nat x |})
      width (fun _ => Default_pixel y)
      {| cursors := cursors t; color_counter := color_counter t;
         original_colors := original_colors t; runs := runs t;
         run := Run.empty |}) as Hloop.
    set (u := for_ width _ _) in *.
    destruct Hloop as (Hsc' & Hn' & Ho' & Hruns' & Hrun').
    - cbn [cursors color_counter original_colors runs run].
      split; [exact Hsc|]. split; [exact Hn|]. split; [exact Ho|].
      split; [exact Hruns|reflexivity].
    - clear u. intros x u Hx (Hsc' & Hn' & Ho' & Hruns' & Hrun').
      destruct (Default_pixel_spec y u) as (Hstep & _ & Hcol & Hrun).
      assert (Hd : pixels_differ (under (p_fg (cursors u))) (under (p_bg (cursors u)))
                   = false).
      { destruct Hsc' as (-> & -> & _). apply pixels_same_iff.
        apply Hsame; assumption. }
      rewrite Hd in Hcol, Hrun. cbn [andb] in Hcol.
      rewrite Hrun' in Hrun. cbn [Run.color] in Hrun.
      change (Rgb18.none =? Rgb18.none) with true in Hrun. cbv iota in Hrun.
      injection Hcol as Ho2 Hn2. injection Hrun as Hruns2 Hrun2.
      split; [eapply scanned_pixel; eassumption|].
      split; [congruence|]. split; [congruence|]. split; [congruence|].
      rewrite Hrun2. unfold Run.incr. cbn [Run.color Run.length].
      f_equal. lia.
    - cbn [cursors color_counter original_colors runs].
      split; [eapply scanned_row; [exact Hsc'|]; repeat split; reflexivity|].
      split; [exact Hn'|]. split; [exact Ho'|].
      rewrite Hrun'. cbn [Run.length].
      destruct (Z.gtb_spec (Z.of_nat (Z.to_nat width)) 0) as [_|Hle]; [|lia].
      rewrite Hruns', <- Hrows, push_back_at. cbn [app].
      unfold full. rewrite Z2Nat.id by lia. reflexivity. }
  pose proof (for_ind (fun y t =>
      scanned out_fg out_bg o' (Z.to_nat width) y 0 (cursors t) /\
      color_counter t = 0 /\ original_colors t = bitset_reset /\
      runs t = replicate y [full] ++ replicate (Z.to_nat height - y) [])
    height (Default_row width)
    {| cursors := {| p_fg := Pixmap.begin_ out_fg; p_bg := Pixmap.begin_ out_bg;
                     out := o' |};
       color_counter := 0; original_colors := bitset_reset;
       runs := replicate (Z.to_nat height) []; run := Run.empty |}) as Hloop.
  cbv zeta. set (s := for_ height _ _) in *.
  destruct Hloop as (_ & Hn & Ho & Hruns).
  - cbn [cursors color_counter original_colors runs].
    split; [apply scanned_start; reflexivity|].
    rewrite Nat.sub_0_r. repeat split; reflexivity.
  - clear s. intros y t Hy (Hsc & Hn & Ho & Hruns).
    replace (Z.to_nat height - y)%nat with (S (Z.to_nat height - S y)) in Hruns by lia.
    cbn [replicate] in Hruns.
    destruct (Hrow y t _ _ Hy Hsc Hn Ho Hruns) as (Hsc' & Hn' & Ho' & Hruns').
    { apply length_replicate. }
    split; [exact Hsc'|]. split; [exact Hn'|]. split; [exact Ho'|].
    rewrite Hruns', <- replicate_snoc, <- app_assoc. reflexivity.
  - rewrite Nat.sub_diag in Hruns. cbn [replicate] in Hruns.
    rewrite app_nil_r in Hruns. repeat split; assumption.
Qed.

(** When the page and the background are two renderers and no pixel of
    the page differs from the background, the default quantizer returns,
    whatever the number of colours allowed; after its header it writes a
    palette of size 1 that holds white, then, for each row, the word that
    the code makes of the index 0xfff and of the width of the image. *)
Lemma Default_no_foreground (max_fg_colors : N) (out_fg out_bg : Renderer)
    (width height : Z) (o : outputs) :
  address out_fg <> address out_bg ->
  0 < width ->
  (forall y x, (y < Z.to_nat height)%nat -> (x < Z.to_nat width)%nat ->
     bitmap out_fg y x = bitmap out_bg y x) ->
  let palette := decimal 1 ++ endl ++ [Chr 0xff; Chr 0xff; Chr 0xff] in
  exists r,
    DefaultQuantizer max_fg_colors out_fg out_bg width height o = Returns r /\
    written o r
    = Default_header width height ++ palette
      ++ flat_map (fun y => word_bytes (run_word 0xfff width))
           (seq 0 (Z.to_nat height)).
Proof.
  intros Hne Hw Hsame palette.
  destruct (Default_pass1_plain out_fg out_bg width height o Hw Hsame)
    as (Hn & Ho & Hruns).
  destruct (Default_pass1_spec out_fg out_bg width height o)
    as (_ & _ & _ & Hst & _).
  set (s := Default_pass1 out_fg out_bg width height o) in *.
  assert (Hfind : find_palette max_fg_colors rounds (original_colors s)
                    {| divisor := 4; found := color_counter s;
                       quantized_colors := bitset_reset |}
                  = Returns {| divisor := 4; found := color_counter s;
                               quantized_colors := bitset_reset |}).
  { apply find_palette_now. cbn [found]. rewrite Hn. lia. }
  destruct (Default_body_after_search _ _ _ _ _ _ _ Hfind) as (l & Hl & Hp).
  destruct (Default_body_spec _ _ _ _ _ _ _ Hl) as (_ & _ & Hnone & _ & _ & Hres).
  fold s in Hp, Hres. rewrite Hp in Hres.
  unfold settled in Hres. cbn [divisor found quantized_colors Z.eqb Pos.eqb] in Hres.
  rewrite Hn in Hres.
  change (palette_block 0 (members (original_colors s))) with palette in Hres.
  assert (Hwritten :
    written o (result l)
    = Default_header width height ++ palette
      ++ flat_map (fun y => word_bytes (run_word 0xfff width))
           (seq 0 (Z.to_nat height))).
  { apply written_app. rewrite Hres. cbn [set_stream stream].
    rewrite Hst, <- app_assoc. f_equal. f_equal. f_equal.
    apply flat_map_ext_seq. intros y Hy.
    rewrite Hruns, nth_replicate_lt by exact Hy.
    unfold indexed, run_bytes. cbn [map flat_map Run.color Run.length fst snd].
    rewrite Hnone, app_nil_r. reflexivity. }
  exists (result l). split; [|exact Hwritten].
  unfold DefaultQuantizer.
  destruct (Z.eqb_spec (address out_fg) (address out_bg)) as [E|_]; [contradiction|].
  rewrite Hl. reflexivity.
Qed.

(** The characters written for the same run, once for each row. *)
Lemma run_bytes_repeat (r : Z * Z) (k n : nat) :
  flat_map (fun _ : nat => word_bytes (run_word (fst r) (snd r))) (seq k n)
  = run_bytes (repeat r n).
Proof.
  unfold run_bytes. revert k.
  induction n as [|n IH]; intros k; [reflexivity|].
  cbn [seq repeat flat_map]. rewrite IH. reflexivity.
Qed.

(** C8, as amended. When the page and the background are two renderers, the
    width is from 1 to 2 ^ 20 - 1, the height is not negative, and no pixel
    of the page differs from the background, the default quantizer returns,
    whatever the number of colours allowed; after its header it writes a
    palette of size 1 that holds white, then, for each row, one word, which
    is read back as one run of the index 0xfff and of the width of the
    image; an image of one row gets exactly one word. The amendment is
    the two bounds, on the width and on the height. *)
Theorem C8_no_foreground (max_fg_colors : N) (out_fg out_bg : Renderer)
    (width height : Z) (o : outputs) :
  address out_fg <> address out_bg ->
  0 < width < 2 ^ 20 ->
  0 <= height ->
  (forall y x, (y < Z.to_nat height)%nat -> (x < Z.to_nat width)%nat ->
     bitmap out_fg y x = bitmap out_bg y x) ->
  let palette := decimal 1 ++ endl ++ [Chr 0xff; Chr 0xff; Chr 0xff] in
  exists r,
    DefaultQuantizer max_fg_colors out_fg out_bg width height o = Returns r /\
    written o r
    = Default_header width height ++ palette
      ++ flat_map (fun y => word_bytes (run_word 0xfff width))
           (seq 0 (Z.to_nat height)) /\
    (height = 1 ->
     written o r
     = Default_header width height ++ palette ++ word_bytes (run_word 0xfff width)) /\
    read_runs (word_bytes (run_word 0xfff width)) = [(0xfff, width)] /\
    read_runs (flat_map (fun y => word_bytes (run_word 0xfff width))
                 (seq 0 (Z.to_nat height)))
    = repeat (0xfff, width) (Z.to_nat height).
Proof.
  intros Hne Hw Hh Hsame palette.
  destruct (Default_no_foreground max_fg_colors out_fg out_bg width height o
              Hne ltac:(lia) Hsame) as (r & Hr & Hwritten).
  assert (Hrow : Forall (run_of_row width) [(0xfff, width)]).
  { constructor; [|constructor]. unfold run_of_row. cbn [fst snd]. lia. }
  assert (Hone : read_runs (word_bytes (run_word 0xfff width)) = [(0xfff, width)]).
  { pose proof (read_run_bytes width [(0xfff, width)] ltac:(lia) Hrow) as Hread.
    unfold run_bytes in Hread. cbn [flat_map fst snd] in Hread.
    rewrite app_nil_r in Hread. exact Hread. }
  exists r. split; [exact Hr|]. split; [exact Hwritten|]. split; [|split].
  - intros ->. rewrite Hwritten. change (Z.to_nat 1) with 1%nat.
    cbn [seq flat_map]. rewrite app_nil_r. reflexivity.
  - exact Hone.
  - assert (Hall : Forall (run_of_row width) (repeat (0xfff, width) (Z.to_nat height))).
    { apply List.Forall_forall. intros x Hx. apply repeat_spec in Hx. subst x.
      unfold run_of_row. cbn [fst snd]. lia. }
    pose proof (read_run_bytes width _ ltac:(lia) Hall) as Hread.
    etransitivity; [|exact Hread]. f_equal.
    apply (run_bytes_repeat (0xfff, width)).
Qed.

(** The background of the scenario, held by two renderers: one word, read
    back as the run of the index 0xfff and of the length 2. *)
Lemma C8_no_foreground_witness :
  address scenario_copy <> address scenario_bg /\
  0 < 2 < 2 ^ 20 /\
  0 <= 1 /\
  (forall y x, (y < Z.to_nat 1)%nat -> (x < Z.to_nat 2)%nat ->
     bitmap scenario_copy y x = bitmap scenario_bg y x) /\
  exists r,
    DefaultQuantizer 4080 scenario_copy scenario_bg 2 1 scenario_outputs = Returns r /\
    written scenario_outputs r
    = Default_header 2 1 ++ decimal 1 ++ endl ++ [Chr 0xff; Chr 0xff; Chr 0xff]
      ++ word_bytes (run_word 0xfff 2) /\
    read_runs (word_bytes (run_word 0xfff 2)) = [(0xfff, 2)].
Proof.
  assert (Hne : address scenario_copy <> address scenario_bg) by discriminate.
  assert (Hsame : forall y x, (y < Z.to_nat 1)%nat -> (x < Z.to_nat 2)%nat ->
            bitmap scenario_copy y x = bitmap scenario_bg y x)
    by (intros; reflexivity).
  split; [exact Hne|]. split; [lia|]. split; [lia|]. split; [exact Hsame|].
  destruct (C8_no_foreground 4080 scenario_copy scenario_bg 2 1 scenario_outputs
              Hne ltac:(lia) ltac:(lia) Hsame) as (r & Hr & _ & Hone & Hread & _).
  exists r. split; [exact Hr|]. split; [apply Hone; reflexivity|exact Hread].
Defined.

(** C8, as stated, fails on a row of 2 ^ 20 pixels: the sum that makes the
    word of the run passes 32 bits, and the word written is 0, which is
    read back as a run of the index 0 and of the length 0, and not as a run
    of the index 0xfff that spans the row. *)
Lemma C8_counterexample :
  exists r,
    DefaultQuantizer 4080 scenario_copy scenario_bg (2 ^ 20) 1 scenario_outputs
    = Returns r /\
    written scenario_outputs r
    = Default_header (2 ^ 20) 1 ++ decimal 1 ++ endl ++ [Chr 0xff; Chr 0xff; Chr 0xff]
      ++ [Chr 0; Chr 0; Chr 0; Chr 0] /\
    read_runs [Chr 0; Chr 0; Chr 0; Chr 0] = [(0, 0)] /\
    run_word 0xfff (2 ^ 20) = 0.
Proof.
  destruct (Default_no_foreground 4080 scenario_copy scenario_bg (2 ^ 20) 1
              scenario_outputs ltac:(discriminate) ltac:(lia)
              ltac:(intros; reflexivity)) as (r & Hr & Hwritten).
  exists r. split; [exact Hr|]. split; [|split; reflexivity].
  rewrite Hwritten. change (Z.to_nat 1) with 1%nat.
  cbn [seq flat_map]. rewrite app_nil_r. reflexivity.
Qed.

(** * The encoders and the colour model on their own *)

(** ** Words of the colour layer *)

(** The four characters written for a word hold the word cut to 32 bits,
    the most significant byte first. *)
Lemma read_word_bytes_cut (word : Z) (s : list item) :
  read_words (word_bytes word ++ s) = to_uint32 word :: read_words s.
Proof.
  unfold word_bytes, to_uchar, to_uint32. cbn [map app read_words]. f_equal.
  rewrite !Z.shiftr_div_pow2 by lia.
  change ((3 - 0) * 8) with 24. change ((3 - 1) * 8) with 16.
  change ((3 - 2) * 8) with 8. change ((3 - 3) * 8) with 0.
  change (2 ^ 24) with 16777216. change (2 ^ 16) with 65536.
  change (2 ^ 8) with 256. change (2 ^ 0) with 1. change (2 ^ 32) with 4294967296.
  rewrite Z.div_1_r.
  Z.to_euclidean_division_equations. lia.
Qed.

Lemma word_bytes_chars (word : Z) :
  List.length (word_bytes word) = 4%nat /\
  Forall (fun i => exists c, i = Chr c /\ 0 <= c <= 255) (word_bytes word).
Proof.
  split; [reflexivity|].
  unfold word_bytes. cbn [map].
  repeat constructor;
    (eexists; split; [reflexivity|]; unfold to_uchar;
     match goal with |- 0 <= ?a mod ?b <= _ =>
       pose proof (Z.mod_pos_bound a b ltac:(reflexivity)) as H;
       change (2 ^ 8) with 256 in *; lia end).
Qed.

(** X1. Whatever the stream holds, [write_uint32] called on each word of a
    list in turn appends four characters for each word, each a byte, and
    the words are read back from these characters, the most significant
    byte first, cut to 32 bits as the parameter of [write_uint32] cuts
    them. *)
Theorem write_uint32_read_back (words : list Z) (stream : list item) :
  exists bytes : list item,
    fold_left write_uint32 words stream = stream ++ bytes /\
    List.length bytes = (4 * List.length words)%nat /\
    Forall (fun i => exists c, i = Chr c /\ 0 <= c <= 255) bytes /\
    read_words bytes = map to_uint32 words.
Proof.
  revert stream. induction words as [|word words IH]; intros stream.
  - exists []. rewrite app_nil_r. repeat split; constructor.
  - cbn [fold_left]. destruct (IH (write_uint32 stream word)) as (bytes & E & Hl & Hb & Hr).
    exists (word_bytes word ++ bytes).
    destruct (word_bytes_chars word) as [Hl4 Hb4].
    rewrite E, write_uint32_spec, <- app_assoc. split; [reflexivity|].
    split; [rewrite length_app, Hl4, Hl; cbn [List.length]; lia|].
    split; [apply Forall_app; split; assumption|].
    rewrite read_word_bytes_cut, Hr. reflexivity.
Qed.

(** X2. The word made of an index of twelve bits and of a length gives back
    the index exactly when the length is below 2 ^ 20, and gives back the
    length exactly then: from 2 ^ 20 on the length runs over the index. *)
Theorem run_word_read_back (color length : Z) :
  0 <= color <= 0xfff ->
  0 <= length < 2 ^ 32 ->
  (word_index (run_word color length) = color <-> length < 2 ^ 20) /\
  (word_length (run_word color length) = length <-> length < 2 ^ 20).
Proof.
  intros Hc Hl.
  assert (Hback : length < 2 ^ 20 ->
            word_index (run_word color length) = color
            /\ word_length (run_word color length) = length).
  { intros Hlt. destruct (run_word_spec color length Hc ltac:(lia)) as (_ & Hi & Hn).
    split; assumption. }
  split; (split; [|intros Hlt; apply Hback; exact Hlt]).
  - unfold word_index, run_word, to_uint32.
    rewrite Z.shiftl_mul_pow2, Z.shiftr_div_pow2 by lia.
    change (2 ^ 32) with 4294967296 in *. change (2 ^ 20) with 1048576.
    intros E. Z.to_euclidean_division_equations. lia.
  - unfold word_length. change 0xfffff with (Z.ones 20).
    rewrite Z.land_ones by lia. intros E.
    pose proof (Z.mod_pos_bound (run_word color length) (2 ^ 20) ltac:(reflexivity)).
    lia.
Qed.

Lemma run_word_read_back_witness :
  (word_index (run_word 144 3) = 144 <-> 3 < 2 ^ 20) /\
  (word_length (run_word 144 3) = 3 <-> 3 < 2 ^ 20).
Proof. apply (run_word_read_back 144 3); lia. Defined.

(** ** Colours of eighteen bits *)

Lemma land_shiftl_small (a b n : Z) :
  0 <= n -> 0 <= a < 2 ^ n -> Z.land a (Z.shiftl b n) = 0.
Proof.
  intros Hn Ha. apply Z.bits_inj'. intros i Hi.
  rewrite Z.land_spec, Z.bits_0.
  destruct (Z.lt_ge_cases i n) as [Hlt|Hge].
  - rewrite Z.shiftl_spec_low by lia. apply andb_false_r.
  - assert (Hbit : Z.testbit a i = false).
    { apply Z.testbit_false; [lia|].
      rewrite Z.div_small; [reflexivity|].
      split; [lia|]. apply Z.lt_le_trans with (2 ^ n); [lia|].
      apply Z.pow_le_mono_r; lia. }
    rewrite Hbit. reflexivity.
Qed.

(** The three fields of a colour do not overlap: the colour is their sum. *)
Lemma make_sum (r g b : Z) :
  0 <= r <= 255 -> 0 <= g <= 255 -> 0 <= b <= 255 ->
  Rgb18.make r g b = r / 4 + 64 * (g / 4) + 4096 * (b / 4).
Proof.
  intros Hr Hg Hb. unfold Rgb18.make.
  rewrite !Z.shiftr_div_pow2 by lia. change (2 ^ 2) with 4.
  assert (0 <= r / 4 < 64) by (split; [apply Z.div_pos|apply Z.div_lt_upper_bound]; lia).
  assert (0 <= g / 4 < 64) by (split; [apply Z.div_pos|apply Z.div_lt_upper_bound]; lia).
  assert (0 <= b / 4 < 64) by (split; [apply Z.div_pos|apply Z.div_lt_upper_bound]; lia).
  rewrite <- (Z.add_nocarry_lor (r / 4)) by (apply land_shiftl_small; lia).
  rewrite (Z.shiftl_mul_pow2 (g / 4)) by lia. change (2 ^ 6) with 64.
  rewrite <- Z.add_nocarry_lor
    by (apply land_shiftl_small; change (2 ^ 12) with 4096; lia).
  rewrite Z.shiftl_mul_pow2 by lia. change (2 ^ 12) with 4096. lia.
Qed.

(** The samples read from a colour of eighteen bits, field by field. *)
Lemma get_fields (x y z : Z) :
  0 <= x < 64 -> 0 <= y < 64 -> 0 <= z < 64 ->
  let c := x + 64 * y + 4096 * z in
  Rgb18.get c 0 = 4 * x + x / 16 /\
  Rgb18.get c 1 = 4 * y + y / 16 /\
  Rgb18.get c 2 = 4 * z + z / 16.
Proof.
  intros Hx Hy Hz c.
  assert (Hall : forallb (fun x => forallb (fun y => forallb (fun z =>
                   let c := x + 64 * y + 4096 * z in
                   (Rgb18.get c 0 =? 4 * x + Z.shiftr x 4)
                   && (Rgb18.get c 1 =? 4 * y + Z.shiftr y 4)
                   && (Rgb18.get c 2 =? 4 * z + Z.shiftr z 4))
                   (Zseq 0 64)) (Zseq 0 64)) (Zseq 0 64) = true)
    by (vm_compute; reflexivity).
  rewrite forallb_forall in Hall. specialize (Hall x ltac:(apply Zseq_in; lia)).
  rewrite forallb_forall in Hall. specialize (Hall y ltac:(apply Zseq_in; lia)).
  rewrite forallb_forall in Hall. specialize (Hall z ltac:(apply Zseq_in; lia)).
  cbv zeta in Hall. rewrite !andb_true_iff, !Z.eqb_eq in Hall.
  rewrite !Z.shiftr_div_pow2 in Hall by lia. change (2 ^ 4) with 16 in Hall.
  subst c. tauto.
Qed.

(** What is read from a colour packed from three samples of eight bits. *)
Lemma get_make (r g b : Z) :
  0 <= r <= 255 -> 0 <= g <= 255 -> 0 <= b <= 255 ->
  Rgb18.get (Rgb18.make r g b) 0 = 4 * (r / 4) + r / 64 /\
  Rgb18.get (Rgb18.make r g b) 1 = 4 * (g / 4) + g / 64 /\
  Rgb18.get (Rgb18.make r g b) 2 = 4 * (b / 4) + b / 64.
Proof.
  intros Hr Hg Hb.
  assert (Hc : Rgb18.make r g b = r / 4 + 64 * (g / 4) + 4096 * (b / 4))
    by (apply make_sum; assumption).
  assert (Hx : 0 <= r / 4 < 64)
    by (split; [apply Z.div_pos|apply Z.div_lt_upper_bound]; lia).
  assert (Hy : 0 <= g / 4 < 64)
    by (split; [apply Z.div_pos|apply Z.div_lt_upper_bound]; lia).
  assert (Hz : 0 <= b / 4 < 64)
    by (split; [apply Z.div_pos|apply Z.div_lt_upper_bound]; lia).
  destruct (get_fields _ _ _ Hx Hy Hz) as (E0 & E1 & E2).
  rewrite <- Hc in E0, E1, E2.
  assert (Hdd : forall v, v / 4 / 16 = v / 64)
    by (intros v; rewrite Z.div_div by lia; reflexivity).
  rewrite Hdd in E0, E1, E2. tauto.
Qed.

(** What is read is within 3 of what was packed. *)
Lemma get_make_near (r g b : Z) :
  0 <= r <= 255 -> 0 <= g <= 255 -> 0 <= b <= 255 ->
  -3 <= Rgb18.get (Rgb18.make r g b) 0 - r <= 3 /\
  -3 <= Rgb18.get (Rgb18.make r g b) 1 - g <= 3 /\
  -3 <= Rgb18.get (Rgb18.make r g b) 2 - b <= 3.
Proof.
  intros Hr Hg Hb. destruct (get_make r g b Hr Hg Hb) as (-> & -> & ->).
  Z.to_euclidean_division_equations. lia.
Qed.

(** X3. A colour packed from three samples of eight bits gives back each
    sample with its two low bits replaced by its two high bits: what is
    read is within 3 of the sample, and the samples 0 and 255 are read as
    they were packed. *)
Theorem Rgb18_unpack (r g b : Z) :
  0 <= r <= 255 -> 0 <= g <= 255 -> 0 <= b <= 255 ->
  let c := Rgb18.make r g b in
  (Rgb18.get c 0 = 4 * (r / 4) + r / 64 /\
   Rgb18.get c 1 = 4 * (g / 4) + g / 64 /\
   Rgb18.get c 2 = 4 * (b / 4) + b / 64) /\
  (-3 <= Rgb18.get c 0 - r <= 3 /\
   -3 <= Rgb18.get c 1 - g <= 3 /\
   -3 <= Rgb18.get c 2 - b <= 3) /\
  (r = 0 \/ r = 255 -> Rgb18.get c 0 = r) /\
  (g = 0 \/ g = 255 -> Rgb18.get c 1 = g) /\
  (b = 0 \/ b = 255 -> Rgb18.get c 2 = b).
Proof.
  intros Hr Hg Hb c. subst c.
  pose proof (get_make r g b Hr Hg Hb) as Hget.
  pose proof (get_make_near r g b Hr Hg Hb) as Hnear.
  split; [exact Hget|]. split; [exact Hnear|].
  destruct Hget as (E0 & E1 & E2). rewrite E0, E1, E2.
  split; [|split]; intros [-> | ->]; reflexivity.
Qed.

Lemma Rgb18_unpack_witness :
  let c := Rgb18.make 200 100 50 in
  (Rgb18.get c 0 = 4 * (200 / 4) + 200 / 64 /\
   Rgb18.get c 1 = 4 * (100 / 4) + 100 / 64 /\
   Rgb18.get c 2 = 4 * (50 / 4) + 50 / 64) /\
  (-3 <= Rgb18.get c 0 - 200 <= 3 /\
   -3 <= Rgb18.get c 1 - 100 <= 3 /\
   -3 <= Rgb18.get c 2 - 50 <= 3) /\
  (200 = 0 \/ 200 = 255 -> Rgb18.get c 0 = 200) /\
  (100 = 0 \/ 100 = 255 -> Rgb18.get c 1 = 100) /\
  (50 = 0 \/ 50 = 255 -> Rgb18.get c 2 = 50).
Proof. apply (Rgb18_unpack 200 100 50); lia. Defined.

(** X4. A colour of eighteen bits is packed back from the three samples
    read from it, which are of eight bits: no two colours of eighteen bits
    have the same three samples. *)
Theorem Rgb18_repack (c c' : Z) :
  0 <= c < 2 ^ 18 -> 0 <= c' < 2 ^ 18 ->
  (forall i, 0 <= Rgb18.get c i <= 255) /\
  Rgb18.make (Rgb18.get c 0) (Rgb18.get c 1) (Rgb18.get c 2) = c /\
  (Rgb18.get c 0 = Rgb18.get c' 0 -> Rgb18.get c 1 = Rgb18.get c' 1 ->
   Rgb18.get c 2 = Rgb18.get c' 2 -> c = c').
Proof.
  intros Hc Hc'. split; [intros i; apply get_bounds|].
  split; [apply make_get; exact Hc|].
  intros E0 E1 E2.
  rewrite <- (make_get c Hc), <- (make_get c' Hc'), E0, E1, E2. reflexivity.
Qed.

Lemma Rgb18_repack_witness :
  (forall i, 0 <= Rgb18.get 4660 i <= 255) /\
  Rgb18.make (Rgb18.get 4660 0) (Rgb18.get 4660 1) (Rgb18.get 4660 2) = 4660 /\
  (Rgb18.get 4660 0 = Rgb18.get 4660 0 -> Rgb18.get 4660 1 = Rgb18.get 4660 1 ->
   Rgb18.get 4660 2 = Rgb18.get 4660 2 -> 4660 = 4660).
Proof. apply (Rgb18_repack 4660 4660); lia. Defined.

(** ** The reduction of a colour, divisor by divisor *)

(** X5. [reduce] divides by zero exactly when its divisor is 0 or is 256 or
    more: with any other divisor, a negative one included, it gives a
    colour. The divisor is an [int] to which 255 can be added. *)
Theorem reduce_divides_by_zero (value k : Z) :
  - 2 ^ 31 <= k < 2 ^ 31 - 255 ->
  (Rgb18.reduce value k = None <-> k = 0 \/ 256 <= k).
Proof.
  intros Hk. split.
  - unfold Rgb18.reduce.
    destruct (Z.eqb_spec k 0) as [E|Hne]; [intros _; left; exact E|].
    change (Z.shiftl 1 8 + k - 1) with (256 + k - 1).
    destruct (Z.eqb_spec ((256 + k - 1) ./ k - 1) 0) as [E|_]; [|discriminate].
    intros _. right.
    assert (Hq : (256 + k - 1) ./ k = 1) by lia.
    pose proof (Z.quot_rem' (256 + k - 1) k) as Hqr.
    rewrite Hq in Hqr.
    destruct (Z.lt_ge_cases k 0) as [Hneg|Hpos].
    + pose proof (Z.rem_bound_neg_neg (256 + k - 1) k) as Hnn.
      pose proof (Z.rem_bound_neg_pos (256 + k - 1) k) as Hnp.
      lia.
    + pose proof (Z.rem_bound_pos_pos (256 + k - 1) k) as Hpp. lia.
  - intros [-> |Hk']; [reflexivity|]. apply reduce_none. exact Hk'.
Qed.

Lemma reduce_divides_by_zero_witness :
  Rgb18.reduce 4660 300 = None <-> 300 = 0 \/ 256 <= 300.
Proof. apply (reduce_divides_by_zero 4660 300); lia. Defined.

(** X6. The divisor 4, from which the search of the palette starts, stands
    for no reduction: [reduce] at 4 gives back every colour of eighteen
    bits, which is what lets the code take the colours met for the palette
    when the divisor is still 4. *)
Theorem reduce_4_keeps (c : Z) :
  0 <= c < 2 ^ 18 -> Rgb18.reduce c 4 = Some c.
Proof.
  intros Hc. change (2 ^ 18) with bitset_size in Hc.
  destruct (reduce_some c 4 ltac:(lia)) as [E _]. rewrite E. f_equal.
  assert (Hv : forall v, 0 <= v <= 255 -> reduced_value v 4 / 4 = v / 4).
  { intros v Hv.
    assert (Hall : forallb (fun v => reduced_value v 4 / 4 =? v / 4) (Zseq 0 256) = true)
      by (vm_compute; reflexivity).
    rewrite forallb_forall in Hall. apply Z.eqb_eq, Hall, Zseq_in. lia. }
  pose proof (get_bounds c 0) as H0. pose proof (get_bounds c 1) as H1.
  pose proof (get_bounds c 2) as H2.
  rewrite make_sum by (apply reduced_value_bounds; (lia || vm_compute; discriminate)).
  rewrite !Hv by assumption.
  rewrite <- make_sum by assumption. apply make_get. exact Hc.
Qed.

Lemma reduce_4_keeps_witness : Rgb18.reduce 4660 4 = Some 4660.
Proof. apply (reduce_4_keeps 4660); lia. Defined.

(** X7. Whatever the divisor from 1 to 255, [reduce] keeps the colours
    whose samples are each 0 or 255: black, white and the six colours
    between them are never moved by the reduction of the palette. *)
Theorem reduce_keeps_extremes (r g b k : Z) :
  1 <= k <= 255 ->
  r = 0 \/ r = 255 -> g = 0 \/ g = 255 -> b = 0 \/ b = 255 ->
  Rgb18.reduce (Rgb18.make r g b) k = Some (Rgb18.make r g b).
Proof.
  intros Hk Hr Hg Hb.
  assert (Hall : forallb (fun d => forallb (fun c =>
                   match Rgb18.reduce c d with
                   | Some c' => c' =? c
                   | None => false
                   end) corners) (Zseq 1 255) = true)
    by (vm_compute; reflexivity).
  rewrite forallb_forall in Hall.
  specialize (Hall k ltac:(apply Zseq_in; lia)).
  rewrite forallb_forall in Hall.
  assert (Hin : In (Rgb18.make r g b) corners)
    by (destruct Hr as [-> | ->], Hg as [-> | ->], Hb as [-> | ->];
        unfold corners; simpl; tauto).
  specialize (Hall _ Hin).
  destruct (Rgb18.reduce (Rgb18.make r g b) k) as [c'|]; [|discriminate Hall].
  apply Z.eqb_eq in Hall. congruence.
Qed.

Lemma reduce_keeps_extremes_witness :
  Rgb18.reduce (Rgb18.make 255 0 255) 77 = Some (Rgb18.make 255 0 255).
Proof. apply (reduce_keeps_extremes 255 0 255 77); lia. Defined.

(** ** The reduction of a sample *)

(** A sample is reduced to a value that is less than the divisor away. *)
Lemma reduced_value_near (v k : Z) :
  0 <= v <= 255 -> 1 <= k <= 255 -> - k < reduced_value v k - v < k.
Proof.
  intros Hv Hk.
  assert (Hall : forallb (fun k => forallb (fun v =>
                   (- k <? reduced_value v k - v) && (reduced_value v k - v <? k))
                   (Zseq 0 256)) (Zseq 1 255) = true) by (vm_compute; reflexivity).
  rewrite forallb_forall in Hall. specialize (Hall k ltac:(apply Zseq_in; lia)).
  rewrite forallb_forall in Hall. specialize (Hall v ltac:(apply Zseq_in; lia)).
  rewrite andb_true_iff, !Z.ltb_lt in Hall. exact Hall.
Qed.

(** X8. With a divisor [k] from 1 to 255, which gives [c] buckets, the
    loop of [reduce] turns a sample into one of [c] values at most, that of
    its bucket [m]; the value is of eight bits and is less than [k] away
    from the sample; and the loop keeps the order of the samples: of two
    samples the lower one is never reduced to more than the other. *)
Theorem reduce_levels (value value' k i : Z) :
  1 <= k <= 255 ->
  let n := Z.shiftl 1 8 in
  let c := (n + k - 1) ./ k in
  (exists m, 0 <= m < c
             /\ Rgb18.reduce_component value n c i = ((n - 1) * m) ./ (c - 1)) /\
  0 <= Rgb18.reduce_component value n c i <= 255 /\
  - k < Rgb18.reduce_component value n c i - Rgb18.get value i < k /\
  (Rgb18.get value i <= Rgb18.get value' i ->
   Rgb18.reduce_component value n c i <= Rgb18.reduce_component value' n c i).
Proof.
  intros Hk n c. subst n c. change (Z.shiftl 1 8) with 256.
  pose proof (ceil_div_bounds k Hk) as Hc.
  pose proof (get_bounds value i) as Hv. pose proof (get_bounds value' i) as Hv'.
  assert (Hnear : - k < Rgb18.reduce_component value 256 ((256 + k - 1) ./ k) i
                        - Rgb18.get value i < k).
  { pose proof (reduce_component_spec value k i ltac:(lia) ltac:(lia)) as Hs.
    change (Z.shiftl 1 8) with 256 in Hs. rewrite Hs.
    apply reduced_value_near; assumption. }
  rewrite <- ceil_div_quot in Hc by lia.
  set (c := (256 + k - 1) ./ k) in *.
  assert (Hm : forall v, 0 <= v <= 255 ->
            (v * c) ./ 256 = v * c / 256 /\ 0 <= v * c / 256 < c).
  { intros v Hb. rewrite Z.quot_div_nonneg by nia.
    split; [reflexivity|].
    split; [apply Z.div_pos; nia|apply Z.div_lt_upper_bound; nia]. }
  split; [|split; [|split; [exact Hnear|]]]; clear Hnear;
    unfold Rgb18.reduce_component;
    destruct (Hm _ Hv) as [E Hb], (Hm _ Hv') as [E' Hb']; rewrite ?E, ?E'.
  - exists (Rgb18.get value i * c / 256). split; [exact Hb|reflexivity].
  - rewrite Z.quot_div_nonneg by nia.
    split; [apply Z.div_pos; nia|].
    enough ((256 - 1) * (Rgb18.get value i * c / 256) / (c - 1) < 256) by lia.
    apply Z.div_lt_upper_bound; nia.
  - intros Hle. rewrite !Z.quot_div_nonneg by nia.
    apply Z.div_le_mono; [lia|].
    apply Z.mul_le_mono_nonneg_l; [lia|].
    apply Z.div_le_mono; [lia|]. nia.
Qed.

Lemma reduce_levels_witness :
  let n := Z.shiftl 1 8 in
  let c := (n + 5 - 1) ./ 5 in
  (exists m, 0 <= m < c
             /\ Rgb18.reduce_component 4660 n c 0 = ((n - 1) * m) ./ (c - 1)) /\
  0 <= Rgb18.reduce_component 4660 n c 0 <= 255 /\
  - 5 < Rgb18.reduce_component 4660 n c 0 - Rgb18.get 4660 0 < 5 /\
  (Rgb18.get 4660 0 <= Rgb18.get 4661 0 ->
   Rgb18.reduce_component 4660 n c 0 <= Rgb18.reduce_component 4661 n c 0).
Proof. apply (reduce_levels 4660 4661 5 0); lia. Defined.

(** * The runs *)

Lemma adjacent_differ_snoc (l : list Z) (a b : Z) :
  adjacent_differ (l ++ [a]) -> a <> b -> adjacent_differ ((l ++ [a]) ++ [b]).
Proof.
  induction l as [|c l IH]; intros H Hne.
  - simpl. auto.
  - destruct l as [|d l].
    + simpl in *. tauto.
    + cbn [app adjacent_differ] in *. split; [tauto|]. apply IH; tauto.
Qed.

Lemma adjacent_differ_init (l : list Z) (a : Z) :
  adjacent_differ (l ++ [a]) -> adjacent_differ l.
Proof.
  induction l as [|c l IH]; intros H; [exact I|].
  destruct l as [|d l]; [exact I|].
  cbn [app adjacent_differ] in *. split; [tauto|]. apply IH. tauto.
Qed.

(** Every run of a packed row shows in the pixels that the row stands
    for. *)
Lemma unrle_shows (l : list (Z * Z)) (r : Z * Z) :
  Forall (fun r => 1 <= snd r) l -> In r l -> In (fst r) (unrle l).
Proof.
  intros Hall Hin. unfold unrle. apply in_flat_map. exists r. split; [exact Hin|].
  rewrite List.Forall_forall in Hall. specialize (Hall r Hin).
  destruct (Z.to_nat (snd r)) as [|n] eqn:E; [lia|]. left. reflexivity.
Qed.

(** A pixel that a list of runs stands for is in one of the runs. *)
Lemma unrle_from (l : list (Z * Z)) (c : Z) :
  In c (unrle l) -> exists r, In r l /\ fst r = c.
Proof.
  unfold unrle. intros Hin. apply in_flat_map in Hin as (r & Hr & Hc).
  exists r. split; [exact Hr|]. apply repeat_spec in Hc. congruence.
Qed.

(** Runs that are not empty are no more than the pixels they stand for. *)
Lemma unrle_long (l : list (Z * Z)) :
  Forall (fun r => 1 <= snd r) l -> (List.length l <= List.length (unrle l))%nat.
Proof.
  induction 1 as [|r l Hr Hall IH]; [reflexivity|].
  unfold unrle in *. cbn [flat_map List.length]. rewrite length_app, repeat_length.
  lia.
Qed.

(** What one pixel of code [code] does to the runs written for a row and
    to the run being built, in the loops on [x] of the web-safe and of the
    default quantizers. *)
Lemma run_step (x : Z) (codes : list Z) (code color length : Z) (l : list (Z * Z)) :
  0 <= length <= x ->
  (0 < x -> 1 <= length) ->
  (length = 0 -> l = []) ->
  unrle l ++ repeat color (Z.to_nat length) = codes ->
  Forall (fun r => 1 <= snd r <= x) l ->
  adjacent_differ (map fst l ++ [color]) ->
  let l' :=
    if color =? code then l
    else if length >? 0 then l ++ [(color, length)] else l in
  let length' := if color =? code then length + 1 else 1 in
  1 <= length' <= x + 1 /\
  unrle l' ++ repeat code (Z.to_nat length') = codes ++ [code] /\
  Forall (fun r => 1 <= snd r <= x + 1) l' /\
  adjacent_differ (map fst l' ++ [code]).
Proof.
  intros Hlen Hpos Hnil Hun Hall Hadj.
  assert (Hall' : Forall (fun r => 1 <= snd r <= x + 1) l).
  { eapply Forall_impl; [exact Hall|]. simpl. intros a Ha. lia. }
  destruct (Z.eqb_spec color code) as [E|NE].
  - subst code. split; [lia|]. split; [|split; assumption].
    rewrite repeat_succ, app_assoc, Hun by lia. reflexivity.
  - split; [lia|].
    destruct (Z.gtb_spec length 0) as [Hgt|Hle].
    + split; [|split].
      * rewrite unrle_app. unfold unrle at 2. simpl. rewrite app_nil_r, Hun.
        reflexivity.
      * apply Forall_app. split; [exact Hall'|].
        constructor; [|constructor]. simpl. lia.
      * rewrite map_app. cbn [map fst]. apply adjacent_differ_snoc; assumption.
    + rewrite (Hnil ltac:(lia)) in *. replace length with 0 in Hun by lia.
      simpl in Hun. subst codes. simpl. repeat split; constructor.
Qed.

(** ** The rows of the web-safe quantizer *)

(** The runs written for a row of at least one pixel: they stand for the
    pixels of the row and are packed. *)
Lemma WebSafe_row_packed out_fg out_bg o (width : Z) (y : nat) (s : scan) :
  0 < width ->
  scanned out_fg out_bg o (Z.to_nat width) y 0 s ->
  scanned out_fg out_bg o (Z.to_nat width) (S y) 0 (WebSafe_row width s) /\
  exists l : list (Z * Z),
    stream (out (WebSafe_row width s)) = stream (out s) ++ run_bytes l /\
    unrle l = map (WebSafe_code out_fg out_bg y) (seq 0 (Z.to_nat width)) /\
    Forall (fun r => 1 <= snd r <= width) l /\
    adjacent_differ (map fst l) /\
    l <> [].
Proof.
  intros Hw H0. unfold WebSafe_row.
  pose proof (for_ind (fun x r =>
      scanned out_fg out_bg o (Z.to_nat width) y x (web r) /\
      0 <= web_length r <= Z.of_nat x /\
      ((0 < x)%nat -> 1 <= web_length r) /\
      exists l : list (Z * Z),
        stream (out (web r)) = stream (out s) ++ run_bytes l /\
        (web_length r = 0 -> l = []) /\
        unrle l ++ repeat (web_color r) (Z.to_nat (web_length r))
        = map (WebSafe_code out_fg out_bg y) (seq 0 x) /\
        Forall (fun r => 1 <= snd r <= Z.of_nat x) l /\
        adjacent_differ (map fst l ++ [web_color r]))
    width (fun _ => WebSafe_pixel)
    {| web := s; web_color := 0xfff; web_length := 0 |}) as Hloop.
  set (t := for_ width _ _) in *.
  destruct Hloop as (Hsc & Hlen & Hpos & l & Hst & Hnil & Hun & Hall & Hadj).
  - simpl. split; [exact H0|]. split; [lia|]. split; [lia|].
    exists []. simpl. rewrite app_nil_r. repeat split; constructor.
  - clear t. intros x r _ (Hsc & Hlen & Hpos & l & Hst & Hnil & Hun & Hall & Hadj).
    destruct (WebSafe_pixel_spec r) as (Hstep & Hsame & Hnew).
    assert (Hcode :
      (if pixels_differ (under (p_fg (web r))) (under (p_bg (web r)))
       then WebSafe_index (p_fg (web r)) else 0xfff)
      = WebSafe_code out_fg out_bg y x).
    { destruct Hsc as (-> & -> & _). reflexivity. }
    rewrite Hcode in Hsame, Hnew.
    set (code := WebSafe_code out_fg out_bg y x) in *.
    pose proof (run_step (Z.of_nat x) _ code (web_color r) (web_length r) l
                  Hlen ltac:(lia) Hnil Hun Hall Hadj) as Hrs.
    cbv zeta in Hrs.
    split; [eapply scanned_pixel; eassumption|].
    rewrite seq_S, map_app. cbn [map Nat.add]. fold code.
    destruct (Z.eqb_spec (web_color r) code) as [E|NE].
    + destruct (Hsame E) as (Hs' & Hc' & Hl'). rewrite Hs', Hc', Hl'.
      destruct Hrs as (Hlen' & Hun' & Hall' & Hadj').
      split; [lia|]. split; [lia|].
      exists l. split; [exact Hst|]. split; [intros; lia|].
      rewrite E. split; [exact Hun'|]. split; [|exact Hadj'].
      eapply Forall_impl; [exact Hall'|]. simpl. intros a Ha. lia.
    + destruct (Hnew NE) as (Hs' & Hc' & Hl'). rewrite Hs', Hc', Hl'.
      destruct Hrs as (Hlen' & Hun' & Hall' & Hadj').
      split; [lia|]. split; [lia|].
      exists (if web_length r >? 0 then l ++ [(web_color r, web_length r)] else l).
      split.
      { rewrite Hst. destruct (web_length r >? 0).
        - rewrite run_bytes_app, <- app_assoc. simpl. rewrite ?app_nil_r. reflexivity.
        - rewrite ?app_nil_r. reflexivity. }
      split; [intros; lia|]. split; [exact Hun'|]. split; [|exact Hadj'].
      eapply Forall_impl; [exact Hall'|]. simpl. intros a Ha. lia.
  - split; [eapply scanned_row; [exact Hsc|]; repeat split; reflexivity|].
    exists (l ++ [(web_color t, web_length t)]).
    cbn [out set_stream stream].
    rewrite write_uint32_spec, Hst, run_bytes_app, unrle_app, <- app_assoc.
    simpl. rewrite ?app_nil_r. split; [reflexivity|]. split; [exact Hun|].
    split; [|split].
    + apply Forall_app. split.
      * eapply Forall_impl; [exact Hall|]. simpl. intros a Ha. lia.
      * constructor; [|constructor]. simpl. lia.
    + rewrite map_app. exact Hadj.
    + intros E. apply app_eq_nil in E as [_ E]. discriminate E.
Qed.

(** X9. When the page and the background are two renderers and the rows
    have at least one pixel, the web-safe quantizer writes, after its
    header and its palette, the rows one after the other, each as a list of
    runs that is not empty, stands for the pixels of the row, and is
    packed: no run is empty, none is longer than the row, and no two runs
    that follow each other in a row have the same index. A row is written
    with no more runs than it has pixels. *)
Theorem WebSafe_rows_packed (out_fg out_bg : Renderer) (width height : Z)
    (o : outputs) :
  address out_fg <> address out_bg ->
  0 < width ->
  exists rows : list (list (Z * Z)),
    written o (WebSafeQuantizer out_fg out_bg width height o)
    = WebSafe_header width height ++ flat_map run_bytes rows /\
    List.length rows = Z.to_nat height /\
    forall y, (y < Z.to_nat height)%nat ->
      let l := nth y rows [] in
      l <> [] /\
      unrle l = map (WebSafe_code out_fg out_bg y) (seq 0 (Z.to_nat width)) /\
      packed l /\
      Forall (fun r => snd r <= width) l /\
      (List.length l <= Z.to_nat width)%nat.
Proof.
  intros Hne Hw. unfold WebSafeQuantizer.
  destruct (Z.eqb_spec (address out_fg) (address out_bg)) as [E|_]; [contradiction|].
  rewrite output_web_palette_spec.
  set (o' := sample_background _ _).
  pose proof (for_ind (fun y s =>
      scanned out_fg out_bg o' (Z.to_nat width) y 0 s /\
      exists rows : list (list (Z * Z)),
        stream (out s) = stream o' ++ flat_map run_bytes rows /\
        List.length rows = y /\
        forall y', (y' < y)%nat ->
          let l := nth y' rows [] in
          l <> [] /\
          unrle l = map (WebSafe_code out_fg out_bg y') (seq 0 (Z.to_nat width)) /\
          packed l /\
          Forall (fun r => snd r <= width) l /\
          (List.length l <= Z.to_nat width)%nat)
    height (fun _ => WebSafe_row width)
    {| p_fg := Pixmap.begin_ out_fg; p_bg := Pixmap.begin_ out_bg; out := o' |})
    as Hloop.
  destruct Hloop as [_ (rows & Hst & Hlen & Hrows)].
  - split; [apply scanned_start; reflexivity|].
    exists []. simpl. rewrite app_nil_r. split; [reflexivity|].
    split; [reflexivity|]. intros y' Hy'. lia.
  - intros y s _ [Hsc (rows & Hst & Hlen & Hrows)].
    destruct (WebSafe_row_packed _ _ _ _ _ _ Hw Hsc)
      as [Hsc' (l & Hst' & Hun & Hall & Hadj & Hnil)].
    split; [exact Hsc'|].
    exists (rows ++ [l]). rewrite flat_map_app. cbn [flat_map].
    rewrite app_nil_r, Hst', Hst, <- app_assoc. split; [reflexivity|].
    split; [rewrite length_app; simpl; lia|].
    intros y' Hy'. destruct (Nat.eq_dec y' y) as [->|Hne'].
    + rewrite app_nth2 by lia. rewrite Hlen, Nat.sub_diag. cbn [nth].
      assert (Hpos : Forall (fun r => 1 <= snd r) l)
        by (eapply Forall_impl; [exact Hall|]; simpl; intros a Ha; lia).
      split; [exact Hnil|]. split; [exact Hun|]. split; [split; [exact Hpos|exact Hadj]|].
      split.
      * eapply Forall_impl; [exact Hall|]. simpl. intros a Ha. lia.
      * pose proof (unrle_long l Hpos) as Hlong.
        rewrite Hun, length_map, length_seq in Hlong. exact Hlong.
    + rewrite app_nth1 by lia. apply Hrows. lia.
  - exists rows. split; [|split; assumption].
    apply written_app. rewrite Hst.
    unfold o', WebSafe_header, sample_background, set_background_color, set_stream.
    cbn [stream]. rewrite <- !app_assoc. reflexivity.
Qed.

Lemma WebSafe_rows_packed_witness :
  exists rows : list (list (Z * Z)),
    written scenario_outputs
      (WebSafeQuantizer scenario_fg scenario_bg 2 1 scenario_outputs)
    = WebSafe_header 2 1 ++ flat_map run_bytes rows /\
    List.length rows = Z.to_nat 1 /\
    forall y, (y < Z.to_nat 1)%nat ->
      let l := nth y rows [] in
      l <> [] /\
      unrle l = map (WebSafe_code scenario_fg scenario_bg y) (seq 0 (Z.to_nat 2)) /\
      packed l /\
      Forall (fun r => snd r <= 2) l /\
      (List.length l <= Z.to_nat 2)%nat.
Proof.
  apply (WebSafe_rows_packed scenario_fg scenario_bg 2 1 scenario_outputs);
    [discriminate|lia].
Defined.

(** ** A row of one colour *)

Lemma map_uniform {A : Type} (f : nat -> A) (c : A) (n : nat) :
  (forall x, (x < n)%nat -> f x = c) -> map f (seq 0 n) = repeat c n.
Proof.
  induction n as [|n IH]; intros H; [reflexivity|].
  rewrite seq_S, map_app, IH by (intros x Hx; apply H; lia).
  cbn [map Nat.add repeat]. rewrite (H n) by lia.
  symmetry. apply List.repeat_cons.
Qed.

(** A packed row that stands for pixels of one colour is one run. *)
Lemma packed_uniform (l : list (Z * Z)) (c : Z) (n : nat) :
  Forall (fun r => 1 <= snd r) l ->
  adjacent_differ (map fst l) ->
  l <> [] ->
  unrle l = repeat c n ->
  l = [(c, Z.of_nat n)].
Proof.
  intros Hpos Hadj Hnil Hun.
  assert (Hall : forall r, In r l -> fst r = c).
  { intros r Hr. apply (unrle_shows l r Hpos) in Hr.
    rewrite Hun in Hr. apply repeat_spec in Hr. exact Hr. }
  destruct l as [|[a k] l]; [contradiction|].
  destruct l as [|[b j] l].
  - pose proof (Hall (a, k) ltac:(left; reflexivity)) as Ha. cbn [fst] in Ha.
    apply (f_equal (@List.length Z)) in Hun.
    unfold unrle in Hun. cbn [flat_map fst snd] in Hun.
    rewrite app_nil_r, !repeat_length in Hun.
    inversion Hpos as [|? ? Hk _]; subst. cbn [snd] in Hk.
    f_equal. f_equal. lia.
  - exfalso. cbn [map fst adjacent_differ] in Hadj. destruct Hadj as [Hab _].
    pose proof (Hall (a, k) ltac:(left; reflexivity)) as Ha.
    pose proof (Hall (b, j) ltac:(right; left; reflexivity)) as Hb.
    cbn [fst] in Ha, Hb. congruence.
Qed.

(** Over two renderers, for an image of one row whose pixels all get the
    code [c], the web-safe quantizer writes, after its header and its
    palette, the one word that the code makes of [c] and of the width. *)
Lemma WebSafe_uniform_row out_fg out_bg (width c : Z) (o : outputs) :
  address out_fg <> address out_bg ->
  0 < width ->
  (forall x, (x < Z.to_nat width)%nat -> WebSafe_code out_fg out_bg 0 x = c) ->
  written o (WebSafeQuantizer out_fg out_bg width 1 o)
  = WebSafe_header width 1 ++ word_bytes (run_word c width).
Proof.
  intros Hne Hw Hcode. unfold WebSafeQuantizer.
  destruct (Z.eqb_spec (address out_fg) (address out_bg)) as [E|_]; [contradiction|].
  rewrite output_web_palette_spec.
  set (o' := sample_background _ _).
  unfold for_. change (Z.to_nat 1) with 1%nat. cbn [seq fold_left].
  destruct (WebSafe_row_packed out_fg out_bg o' width 0
              {| p_fg := Pixmap.begin_ out_fg; p_bg := Pixmap.begin_ out_bg;
                 out := o' |} Hw)
    as [_ (l & Hst & Hun & Hall & Hadj & Hnil)].
  { apply scanned_start; reflexivity. }
  rewrite (map_uniform _ c _ Hcode) in Hun.
  assert (Hpos : Forall (fun r => 1 <= snd r) l)
    by (eapply Forall_impl; [exact Hall|]; simpl; intros a Ha; lia).
  rewrite (packed_uniform l c _ Hpos Hadj Hnil Hun) in Hst.
  rewrite Z2Nat.id in Hst by lia. cbn [out] in Hst.
  apply written_app. rewrite Hst.
  unfold o', WebSafe_header, sample_background, set_background_color, set_stream,
    run_bytes.
  cbn [stream flat_map fst snd]. rewrite app_nil_r, <- !app_assoc. reflexivity.
Qed.

(** C5, as stated, fails on a row of 2 ^ 20 pixels. Over a page of white
    pixels, which are foreground and of the index 215, the one run spans
    the row; the sum that makes its word carries the length into the index,
    and the word written is read back as a run of the index 216, outside
    the palette, and of the length 0, which stands for no pixel. *)
Lemma C5_counterexample :
  web_index (bitmap white_fg 0 0) = 215 /\
  foreground white_fg scenario_bg 0 0 = true /\
  written scenario_outputs
    (WebSafeQuantizer white_fg scenario_bg (2 ^ 20) 1 scenario_outputs)
  = WebSafe_header (2 ^ 20) 1 ++ word_bytes (run_word 215 (2 ^ 20)) /\
  read_runs (word_bytes (run_word 215 (2 ^ 20))) = [(216, 0)] /\
  unrle (read_runs (word_bytes (run_word 215 (2 ^ 20)))) = [].
Proof.
  split; [reflexivity|]. split; [reflexivity|]. split; [|split; reflexivity].
  apply WebSafe_uniform_row; [discriminate|lia|].
  intros x _. reflexivity.
Qed.

(** ** The first scan of the default quantizer, further *)

Lemma met_more out_fg out_bg (l l' : list (nat * nat)) (c : Z) :
  (forall cell, In cell l -> In cell l') ->
  met out_fg out_bg l c -> met out_fg out_bg l' c.
Proof.
  intros Hsub (y & x & Hin & Hf & Hc). exists y, x. auto.
Qed.

(** The runs kept for a row are packed, and the colours met are those of
    pixels of the foreground. *)
Lemma Default_row_packed out_fg out_bg o (width : Z) (y : nat) (s : pass1)
    (rows rest : list (list Run.t)) :
  scanned out_fg out_bg o (Z.to_nat width) y 0 (cursors s) ->
  (forall c, original_colors s c = true ->
     met out_fg out_bg (cells (Z.to_nat width) y 0) c) ->
  runs s = rows ++ [] :: rest ->
  List.length rows = y ->
  let s' := Default_row width y s in
  scanned out_fg out_bg o (Z.to_nat width) (S y) 0 (cursors s') /\
  (forall c, original_colors s' c = true ->
     met out_fg out_bg (cells (Z.to_nat width) (S y) 0) c) /\
  exists line : list Run.t,
    runs s' = rows ++ line :: rest /\
    packed (map run_pair line).
Proof.
  intros Hsc0 Hmet0 Hruns0 Hrows. unfold Default_row.
  pose proof (for_ind (fun x t =>
      scanned out_fg out_bg o (Z.to_nat width) y x (cursors t) /\
      (forall c, original_colors t c = true ->
         met out_fg out_bg (cells (Z.to_nat width) y x) c) /\
      0 <= Run.length (run t) <= Z.of_nat x /\
      ((0 < x)%nat -> 1 <= Run.length (run t)) /\
      exists line : list Run.t,
        runs t = rows ++ line :: rest /\
        (Run.length (run t) = 0 -> map run_pair line = []) /\
        Forall (fun r => 1 <= snd r <= Z.of_nat x) (map run_pair line) /\
        adjacent_differ (map fst (map run_pair line) ++ [Run.color (run t)]))
    width (fun _ => Default_pixel y)
    {| cursors := cursors s; color_counter := color_counter s;
       original_colors := original_colors s; runs := runs s;
       run := Run.empty |}) as Hloop.
  cbv zeta. set (t := for_ width _ _) in *.
  destruct Hloop as (Hsc & Hmet & Hlen & Hpos & line & Hruns & Hnil & Hall & Hadj).
  - cbn [cursors color_counter original_colors runs run].
    split; [exact Hsc0|]. split; [exact Hmet0|]. split; [simpl; lia|]. split; [lia|].
    exists []. split; [exact Hruns0|]. repeat split; constructor.
  - clear t. intros x t _ (Hsc & Hmet & Hlen & Hpos & line & Hruns & Hnil & Hall & Hadj).
    destruct (Default_pixel_spec y t) as (Hstep & _ & Hcol & Hrun).
    assert (Hfg : under (p_fg (cursors t)) = bitmap out_fg y x)
      by (destruct Hsc as (-> & _); reflexivity).
    assert (Hbg : under (p_bg (cursors t)) = bitmap out_bg y x)
      by (destruct Hsc as (_ & -> & _); reflexivity).
    assert (Hcode :
      (if pixels_differ (under (p_fg (cursors t))) (under (p_bg (cursors t)))
       then Rgb18.make (p_fg (cursors t)).[0%nat] (p_fg (cursors t)).[1%nat]
                       (p_fg (cursors t)).[2%nat]
       else Rgb18.none) = Default_code out_fg out_bg y x).
    { unfold Default_code, foreground, Pixmap.at_.
      change (Pixmap.pixels (p_fg (cursors t)) (Pixmap.row (p_fg (cursors t)))
                (Pixmap.column (p_fg (cursors t)))) with (under (p_fg (cursors t))).
      rewrite Hfg, Hbg. reflexivity. }
    rewrite Hcode in Hcol, Hrun. rewrite Hfg, Hbg in Hcol.
    fold (foreground out_fg out_bg y x) in Hcol.
    set (code := Default_code out_fg out_bg y x) in *.
    pose proof (run_step (Z.of_nat x) _ code (Run.color (run t)) (Run.length (run t))
                  (map run_pair line) Hlen ltac:(lia) Hnil eq_refl Hall Hadj) as Hrs.
    cbv zeta in Hrs. destruct Hrs as (Hlen' & _ & Hall' & Hadj').
    assert (Hr' : run (Default_pixel y t)
                  = {| Run.color := code;
                       Run.length := if Run.color (run t) =? code
                                     then Run.length (run t) + 1 else 1 |}).
    { apply (f_equal snd) in Hrun. cbn [snd] in Hrun. rewrite Hrun.
      destruct (Z.eqb_spec (Run.color (run t)) code) as [E|_]; [|reflexivity].
      unfold Run.incr. rewrite E. reflexivity. }
    assert (Hl' : runs (Default_pixel y t)
                  = rows ++ (if Run.color (run t) =? code then line
                             else if Run.length (run t) >? 0 then line ++ [run t]
                                  else line) :: rest).
    { apply (f_equal fst) in Hrun. cbn [fst] in Hrun. rewrite Hrun.
      destruct (Run.color (run t) =? code); cbn [fst]; [exact Hruns|].
      destruct (Run.length (run t) >? 0); [|exact Hruns].
      rewrite Hruns, <- Hrows. apply push_back_at. }
    split; [eapply scanned_pixel; eassumption|].
    split.
    { intros c Hc. apply (f_equal fst) in Hcol. cbn [fst] in Hcol.
      rewrite Hcol in Hc.
      assert (Hold : original_colors t c = true ->
                     met out_fg out_bg (cells (Z.to_nat width) y (S x)) c).
      { intros Ho. eapply met_more; [|apply Hmet, Ho].
        intros cell Hin. rewrite cells_next. apply in_or_app. left. exact Hin. }
      destruct (foreground out_fg out_bg y x) eqn:Hf; cbn [andb] in Hc;
        [|destruct (_ && _); apply Hold, Hc].
      destruct (negb _); cbn [fst] in Hc; [|apply Hold, Hc].
      unfold bitset_set in Hc.
      destruct (Z.eqb_spec c code) as [E|_]; [|apply Hold, Hc].
      exists y, x. split; [|split; [exact Hf|symmetry; exact E]].
      rewrite cells_next. apply in_or_app. right. left. reflexivity. }
    rewrite Hr'. cbn [Run.color Run.length].
    split; [lia|]. split; [lia|].
    eexists. split; [exact Hl'|].
    assert (Hmap :
      map run_pair (if Run.color (run t) =? code then line
                    else if Run.length (run t) >? 0 then line ++ [run t] else line)
      = if Run.color (run t) =? code then map run_pair line
        else if Run.length (run t) >? 0
             then map run_pair line ++ [(Run.color (run t), Run.length (run t))]
             else map run_pair line).
    { destruct (Run.color (run t) =? code); [reflexivity|].
      destruct (Run.length (run t) >? 0); [|reflexivity].
      rewrite map_app. reflexivity. }
    rewrite Hmap.
    split; [intros E; destruct (Run.color (run t) =? code); lia|].
    split; [|exact Hadj'].
    eapply Forall_impl; [exact Hall'|]. simpl. intros a Ha. lia.
  - cbn [cursors color_counter original_colors runs out].
    split; [eapply scanned_row; [exact Hsc|]; repeat split; reflexivity|].
    split.
    { intros c Hc. eapply met_more; [|apply Hmet, Hc].
      intros cell Hin. rewrite cells_next_row. exact Hin. }
    unfold packed.
    destruct (Z.gtb_spec (Run.length (run t)) 0) as [Hgt|Hle].
    + exists (line ++ [run t]). split.
      * rewrite Hruns, <- Hrows. apply push_back_at.
      * rewrite !map_app. cbn [map run_pair fst]. split; [|exact Hadj].
        apply Forall_app. split.
        -- eapply Forall_impl; [exact Hall|]. simpl. intros a Ha. lia.
        -- constructor; [|constructor]. simpl. lia.
    + exists line. split; [exact Hruns|]. split.
      * eapply Forall_impl; [exact Hall|]. simpl. intros a Ha. lia.
      * eapply adjacent_differ_init. exact Hadj.
Qed.

(** After the first scan. *)
Lemma Default_pass1_packed out_fg out_bg (width height : Z) (o : outputs) :
  let s := Default_pass1 out_fg out_bg width height o in
  (forall c, original_colors s c = true ->
     met out_fg out_bg (cells (Z.to_nat width) (Z.to_nat height) 0) c) /\
  forall y, (y < Z.to_nat height)%nat -> packed (map run_pair (nth y (runs s) [])).
Proof.
  unfold Default_pass1.
  set (o' := sample_background _ _).
  pose proof (for_ind (fun y t =>
      scanned out_fg out_bg o' (Z.to_nat width) y 0 (cursors t) /\
      (forall c, original_colors t c = true ->
         met out_fg out_bg (cells (Z.to_nat width) y 0) c) /\
      exists rows : list (list Run.t),
        List.length rows = y /\
        runs t = rows ++ replicate (Z.to_nat height - y) [] /\
        forall y', (y' < y)%nat -> packed (map run_pair (nth y' rows [])))
    height (Default_row width)
    {| cursors := {| p_fg := Pixmap.begin_ out_fg; p_bg := Pixmap.begin_ out_bg;
                     out := o' |};
       color_counter := 0; original_colors := bitset_reset;
       runs := replicate (Z.to_nat height) []; run := Run.empty |}) as Hloop.
  cbv zeta. set (s := for_ height _ _) in *.
  destruct Hloop as (_ & Hmet & rows & Hlen & Hruns & Hrows).
  - cbn [cursors color_counter original_colors runs].
    split; [apply scanned_start; reflexivity|].
    split; [intros c Hc; discriminate Hc|].
    exists []. split; [reflexivity|]. rewrite Nat.sub_0_r.
    split; [reflexivity|]. intros y' Hy'. lia.
  - clear s. intros y t Hy (Hsc & Hmet & rows & Hlen & Hruns & Hrows).
    replace (Z.to_nat height - y)%nat with (S (Z.to_nat height - S y)) in Hruns by lia.
    cbn [replicate] in Hruns.
    destruct (Default_row_packed _ _ _ _ _ _ _ _ Hsc Hmet Hruns Hlen)
      as (Hsc' & Hmet' & line & Hruns' & Hline).
    split; [exact Hsc'|]. split; [exact Hmet'|].
    exists (rows ++ [line]). split; [rewrite length_app; simpl; lia|].
    split; [rewrite Hruns', <- app_assoc; reflexivity|].
    intros y' Hy'. destruct (Nat.eq_dec y' y) as [->|Hne].
    + rewrite app_nth2 by lia. rewrite Hlen, Nat.sub_diag. exact Hline.
    + rewrite app_nth1 by lia. apply Hrows. lia.
  - rewrite Nat.sub_diag in Hruns. cbn [replicate] in Hruns.
    rewrite app_nil_r in Hruns.
    split; [exact Hmet|]. rewrite Hruns. intros y Hy. apply Hrows. lia.
Qed.

(** X10. The first scan of the default quantizer keeps one list of runs for
    each row; the runs of a row stand for its pixels, a pixel of the
    background by no colour and a pixel of the foreground by its colour of
    eighteen bits, and they are packed: none is empty, none is longer than
    the row, no two runs that follow each other have the same colour. A
    row has no more runs than pixels, and no run exactly when it has no
    pixel. *)
Theorem Default_rows_packed (out_fg out_bg : Renderer) (width height : Z)
    (o : outputs) :
  let s := Default_pass1 out_fg out_bg width height o in
  List.length (runs s) = Z.to_nat height /\
  forall y, (y < Z.to_nat height)%nat ->
    let l := map run_pair (nth y (runs s) []) in
    unrle l = map (Default_code out_fg out_bg y) (seq 0 (Z.to_nat width)) /\
    packed l /\
    Forall (fun r => snd r <= width) l /\
    (List.length l <= Z.to_nat width)%nat /\
    (l = [] <-> width <= 0).
Proof.
  intros s.
  destruct (Default_pass1_spec out_fg out_bg width height o)
    as (_ & _ & _ & _ & _ & Hlen & Hrows).
  destruct (Default_pass1_packed out_fg out_bg width height o) as (_ & Hpacked).
  fold s in Hlen, Hrows, Hpacked.
  split; [exact Hlen|]. intros y Hy l.
  destruct (Hrows y Hy) as [Hun Hall]. specialize (Hpacked y Hy). fold l in Hun, Hpacked.
  split; [exact Hun|]. split; [exact Hpacked|]. split; [|split].
  - unfold l. apply Forall_map. eapply Forall_impl; [exact Hall|].
    simpl. intros a [_ Ha]. lia.
  - pose proof (unrle_long l (proj1 Hpacked)) as Hlong.
    rewrite Hun, length_map, length_seq in Hlong. exact Hlong.
  - split.
    + intros E. rewrite E in Hun. simpl in Hun.
      destruct (Z.to_nat width) as [|n] eqn:En; [lia|].
      rewrite seq_S, map_app in Hun. destruct (map _ (seq 0 n)); discriminate Hun.
    + intros Hw. replace (Z.to_nat width) with 0%nat in Hun by lia. simpl in Hun.
      destruct l as [|r l']; [reflexivity|].
      destruct Hpacked as [Hpos _]. inversion Hpos as [|? ? Hr _]; subst.
      unfold unrle in Hun. cbn [flat_map] in Hun.
      destruct (Z.to_nat (snd r)) as [|n] eqn:En; [lia|]. discriminate Hun.
Qed.

(** The colour of a pixel of the foreground is among the colours met. *)
Lemma Default_colors_met_in out_fg out_bg (width height : Z) (o : outputs) (c : Z) :
  (exists y x, (y < Z.to_nat height)%nat /\ (x < Z.to_nat width)%nat /\
     bitmap out_fg y x <> bitmap out_bg y x /\
     Rgb18.make (component (bitmap out_fg y x) 0) (component (bitmap out_fg y x) 1)
                (component (bitmap out_fg y x) 2) = c) ->
  original_colors (Default_pass1 out_fg out_bg width height o) c = true.
Proof.
  destruct (Default_pass1_spec out_fg out_bg width height o)
    as (_ & _ & _ & _ & _ & _ & Hrows).
  set (s := Default_pass1 out_fg out_bg width height o) in *.
  intros (y & x & Hy & Hx & Hd & <-).
  assert (Hf : foreground out_fg out_bg y x = true).
  { destruct (foreground out_fg out_bg y x) eqn:Hf; [reflexivity|].
    apply foreground_iff in Hf. contradiction. }
  destruct (Hrows y Hy) as [Hun Hall].
  assert (Hin : In (Default_code out_fg out_bg y x)
                  (unrle (map run_pair (nth y (runs s) [])))).
  { rewrite Hun. apply in_map, in_seq. lia. }
  apply unrle_from in Hin as (r & Hr & Hc).
  apply in_map_iff in Hr as (r0 & <- & Hr0).
  rewrite List.Forall_forall in Hall. destruct (Hall r0 Hr0) as [[Hk|Hk] _].
  - cbn [run_pair fst] in Hc. rewrite Hk in Hc. symmetry in Hc.
    apply Default_code_none, foreground_iff in Hc. congruence.
  - cbn [run_pair fst] in Hc. rewrite Hc in Hk. unfold Default_code in Hk.
    rewrite Hf in Hk. exact Hk.
Qed.

(** X11. After the first scan of the default quantizer, the colours met are
    exactly the colours of eighteen bits packed from the pixels of the page
    that differ from the background, and [color_counter] is the number of
    these colours, each counted once. *)
Theorem Default_colors_met (out_fg out_bg : Renderer) (width height : Z)
    (o : outputs) :
  let s := Default_pass1 out_fg out_bg width height o in
  (forall c, original_colors s c = true <->
     exists y x, (y < Z.to_nat height)%nat /\ (x < Z.to_nat width)%nat /\
       bitmap out_fg y x <> bitmap out_bg y x /\
       Rgb18.make (component (bitmap out_fg y x) 0) (component (bitmap out_fg y x) 1)
                  (component (bitmap out_fg y x) 2) = c) /\
  exists colors : list Z,
    StronglySorted Z.lt colors /\
    (forall c, In c colors <-> original_colors s c = true) /\
    Forall (fun c => 0 <= c < 2 ^ 18) colors /\
    color_counter s = Z.of_nat (List.length colors).
Proof.
  intros s.
  destruct (Default_pass1_spec out_fg out_bg width height o)
    as (_ & _ & _ & _ & [Hn Hrange] & Hlen & Hrows).
  destruct (Default_pass1_packed out_fg out_bg width height o) as (Hmet & _).
  fold s in Hn, Hrange, Hlen, Hrows, Hmet. split.
  - intros c. split.
    + intros Hc. destruct (Hmet c Hc) as (y & x & Hin & Hf & <-).
      apply in_cells in Hin. exists y, x.
      split; [lia|]. split; [lia|]. split.
      * intros E. apply foreground_iff in E. congruence.
      * unfold Default_code. rewrite Hf. reflexivity.
    + apply Default_colors_met_in.
  - exists (members (original_colors s)).
    split; [apply members_sorted|]. split; [|split; [|exact Hn]].
    + intros c. rewrite members_in. split; [tauto|]. intros Hc. split; [auto|exact Hc].
    + apply List.Forall_forall. intros c Hc. apply members_in in Hc.
      change (2 ^ 18) with bitset_size. tauto.
Qed.

(** * The default quantizer, pixel by pixel *)

Lemma Returns_inj {A : Type} (a b : A) : Returns a = Returns b -> a = b.
Proof. intros [= ->]. reflexivity. Qed.

Lemma Returns_pair_inj {A B : Type} (a c : A) (b d : B) :
  Returns (a, b) = Returns (c, d) -> a = c /\ b = d.
Proof. intros [= -> ->]. split; reflexivity. Qed.

Lemma unrle_indexed (cm : gmap Z Z) (line : list Run.t) :
  unrle (indexed cm line) = map (index_of cm) (unrle (map run_pair line)).
Proof.
  induction line as [|r line IH]; [reflexivity|].
  unfold indexed, unrle in *. cbn [map flat_map fst snd run_pair].
  rewrite map_app, IH, map_repeat. reflexivity.
Qed.

Lemma flat_map_flat_map {A B C : Type} (f : B -> list C) (g : A -> list B)
    (l : list A) :
  flat_map f (flat_map g l) = flat_map (fun a => flat_map f (g a)) l.
Proof.
  induction l as [|a l IH]; [reflexivity|].
  cbn [flat_map]. rewrite flat_map_app, IH. reflexivity.
Qed.

Lemma run_bytes_flat_map {A : Type} (g : A -> list (Z * Z)) (l : list A) :
  run_bytes (flat_map g l) = flat_map (fun a => run_bytes (g a)) l.
Proof. apply flat_map_flat_map. Qed.

Lemma unrle_flat_map {A : Type} (g : A -> list (Z * Z)) (l : list A) :
  unrle (flat_map g l) = flat_map (fun a => unrle (g a)) l.
Proof. apply flat_map_flat_map. Qed.

(** The index given to a colour met in the first scan: the place, in the
    palette, of the colour that stands for it. *)
Lemma Default_color_index (max_fg_colors : N) out_fg out_bg (width height : Z)
    (o : outputs) (l : Default_locals) :
  Default_body max_fg_colors out_fg out_bg width height o = Returns l ->
  let p := palette l in
  let colors := members (quantized_colors p) in
  4 <= divisor p <= 255 /\
  Z.of_nat (List.length colors) = found p /\
  found p <= Z.of_N max_fg_colors /\
  forall c, original_colors (first l) c = true ->
    exists i c',
      (if divisor p =? 4 then c' = c else Rgb18.reduce c (divisor p) = Some c')
      /\ nth_error colors i = Some c'
      /\ index_of (color_map l) c = Z.of_nat i.
Proof.
  intros Hl p colors.
  destruct (Default_body_spec _ _ _ _ _ _ _ Hl)
    as (Hfirst & (p0 & Hfind & Hp) & Hnone & Hnth & Hred & Hres).
  fold p in Hp, Hnth, Hred, Hres. fold colors in Hnth, Hres.
  destruct (Default_pass1_spec out_fg out_bg width height o)
    as (_ & _ & _ & Hst & Hcount & _).
  destruct (search_spec _ _ _ _ _ Hcount Hfind) as (Hbound & Hcount' & Hd & H4 & Hn4).
  rewrite <- Hp in Hbound, Hcount', Hd, H4, Hn4.
  split; [exact Hd|].
  split; [destruct Hcount' as [Hn' _]; unfold colors; rewrite <- Hn'; reflexivity|].
  split; [exact Hbound|].
  intros c Ho. rewrite Hfirst in Ho.
  assert (Hc : 0 <= c < bitset_size) by (apply Hcount, Ho).
  destruct (Z.eqb_spec (divisor p) 4) as [E|NE].
  - destruct (H4 E) as [Hq _].
    assert (Hin : In c colors).
    { unfold colors. rewrite Hq. apply members_in. split; assumption. }
    destruct (in_nth_error_Z _ _ Hin) as (i & Hi).
    exists i, c. split; [reflexivity|]. split; [exact Hi|].
    specialize (Hnth i c Hi). destruct (Z.eqb_spec (divisor p) 4); [exact Hnth|lia].
  - destruct (Hn4 NE) as [Hcover _].
    destruct (Hcover c Hc Ho) as (c' & Hr & Hq).
    destruct (Hred NE c Hc) as (c'' & Hr' & Hidx).
    assert (c'' = c') by congruence. subst c''.
    assert (Hin : In c' colors).
    { unfold colors. apply members_in. split; [|exact Hq].
      destruct (reduce_some c (divisor p) ltac:(lia)) as [Hr2 Hrange].
      rewrite Hr in Hr2. injection Hr2 as ->. exact Hrange. }
    destruct (in_nth_error_Z _ _ Hin) as (i & Hi).
    exists i, c'. split; [exact Hr|]. split; [exact Hi|].
    rewrite Hidx. specialize (Hnth i c' Hi).
    destruct (Z.eqb_spec (divisor p) 4); [lia|exact Hnth].
Qed.

(** The runs written by the default quantizer, and the pixels that they
    stand for. *)
Lemma Default_runs_grid (max_fg_colors : N) out_fg out_bg (width height : Z)
    (o : outputs) (l : Default_locals) :
  Default_body max_fg_colors out_fg out_bg width height o = Returns l ->
  let W := Z.to_nat width in
  let H := Z.to_nat height in
  let p := palette l in
  let colors := members (quantized_colors p) in
  let s := Default_pass1 out_fg out_bg width height o in
  let rs := flat_map (fun y => indexed (color_map l) (nth y (runs s) [])) (seq 0 H) in
  written o (result l)
  = Default_header width height ++ palette_block (found p) colors ++ run_bytes rs /\
  unrle rs = grid (fun y x => index_of (color_map l) (Default_code out_fg out_bg y x)) W H /\
  Forall (fun r => (fst r = 0xfff \/ 0 <= fst r < found p)
                   /\ 1 <= snd r <= Z.of_nat W) rs.
Proof.
  intros Hl W H p colors s rs.
  destruct (Default_body_spec _ _ _ _ _ _ _ Hl)
    as (Hfirst & _ & Hnone & _ & _ & Hres).
  destruct (Default_color_index _ _ _ _ _ _ _ Hl) as (_ & Hsize & _ & Hindex).
  fold p in Hres, Hsize, Hindex. fold colors in Hres, Hsize, Hindex.
  destruct (Default_pass1_spec out_fg out_bg width height o)
    as (_ & _ & _ & Hst & Hcount & Hlen & Hrows).
  rewrite Hfirst in Hindex. fold s in Hres, Hindex, Hst, Hcount, Hlen, Hrows.
  split; [|split].
  - apply written_app. rewrite Hres. cbn [set_stream stream].
    unfold rs. rewrite Hst, <- !app_assoc, run_bytes_flat_map. reflexivity.
  - unfold rs. rewrite unrle_flat_map. unfold grid.
    apply flat_map_ext_seq. intros y Hy.
    rewrite unrle_indexed. destruct (Hrows y Hy) as [-> _].
    rewrite map_map. reflexivity.
  - apply List.Forall_forall. intros r Hr. unfold rs in Hr.
    apply in_flat_map in Hr as (y & Hy & Hr). apply in_seq in Hy.
    apply in_map_iff in Hr as (r0 & <- & Hr0).
    destruct (Hrows y ltac:(lia)) as [_ Hall].
    rewrite List.Forall_forall in Hall. destruct (Hall r0 Hr0) as [Hk Hlen0].
    cbn [fst snd]. split; [|exact Hlen0].
    destruct Hk as [Hk|Hk].
    + left. rewrite Hk. exact Hnone.
    + right. destruct (Hindex _ Hk) as (i & c' & _ & Hi & ->).
      assert (i < List.length colors)%nat
        by (apply List.nth_error_Some; rewrite Hi; discriminate).
      lia.
Qed.

(** X12. When the default quantizer returns, the runs that it writes
    after the palette stand, pixel by pixel and row by row, for the index
    0xfff at the pixels of the page that are those of the background, and,
    at a pixel that differs, for the place in the palette of the colour
    that stands for the colour of the pixel: that colour itself while the
    divisor is 4, the colour reduced by the divisor otherwise. When no
    more than 0xfff colours are allowed, the index of a pixel of the
    foreground is never 0xfff, and the runs are read back from the stream
    when the rows have less than 2 ^ 20 pixels. *)
Theorem Default_pixels_indexed (max_fg_colors : N) (out_fg out_bg : Renderer)
    (width height : Z) (o : outputs) (l : Default_locals) :
  Default_body max_fg_colors out_fg out_bg width height o = Returns l ->
  let W := Z.to_nat width in
  let H := Z.to_nat height in
  let p := palette l in
  let colors := members (quantized_colors p) in
  exists rs : list (Z * Z),
    written o (result l)
    = Default_header width height ++ palette_block (found p) colors ++ run_bytes rs /\
    List.length (unrle rs) = (H * W)%nat /\
    (forall y x, (y < H)%nat -> (x < W)%nat ->
       (bitmap out_fg y x = bitmap out_bg y x ->
        nth (y * W + x) (unrle rs) 0 = 0xfff) /\
       (bitmap out_fg y x <> bitmap out_bg y x ->
        let c := Rgb18.make (component (bitmap out_fg y x) 0)
                            (component (bitmap out_fg y x) 1)
                            (component (bitmap out_fg y x) 2) in
        exists i c',
          nth (y * W + x) (unrle rs) 0xfff = Z.of_nat i /\
          nth_error colors i = Some c' /\
          (if divisor p =? 4 then c' = c else Rgb18.reduce c (divisor p) = Some c') /\
          ((max_fg_colors <= 0xfff)%N -> Z.of_nat i < 0xfff))) /\
    ((max_fg_colors <= 0xfff)%N -> width < 2 ^ 20 -> read_runs (run_bytes rs) = rs).
Proof.
  intros Hl W H p colors.
  destruct (Default_body_spec _ _ _ _ _ _ _ Hl) as (Hfirst & _ & Hnone & _).
  destruct (Default_color_index _ _ _ _ _ _ _ Hl) as (_ & Hsize & Hmax & Hindex).
  destruct (Default_runs_grid _ _ _ _ _ _ _ Hl) as (Hw & Hgrid & Hall).
  fold p in Hsize, Hmax, Hindex, Hw, Hall. fold colors in Hsize, Hindex, Hw.
  fold W in Hgrid, Hall. fold H in Hw, Hgrid, Hall.
  rewrite Hfirst in Hindex.
  set (s := Default_pass1 out_fg out_bg width height o) in *.
  set (rs := flat_map (fun y => indexed (color_map l) (nth y (runs s) [])) (seq 0 H))
    in *.
  exists rs. split; [exact Hw|]. split; [rewrite Hgrid; apply grid_length|]. split.
  - intros y x Hy Hx. rewrite Hgrid. split.
    + intros E. rewrite grid_nth by assumption.
      apply Default_code_none in E. rewrite E. exact Hnone.
    + intros Hd c. rewrite grid_nth by assumption.
      assert (Ho : original_colors s c = true).
      { apply (Default_colors_met_in out_fg out_bg width height o).
        exists y, x. repeat split; assumption. }
      assert (Hcode : Default_code out_fg out_bg y x = c).
      { unfold Default_code.
        destruct (foreground out_fg out_bg y x) eqn:Hf; [reflexivity|].
        apply foreground_iff in Hf. contradiction. }
      rewrite Hcode.
      destruct (Hindex c Ho) as (i & c' & Hc' & Hi & Hidx).
      exists i, c'. split; [exact Hidx|]. split; [exact Hi|]. split; [exact Hc'|].
      intros Hle.
      assert (i < List.length colors)%nat
        by (apply List.nth_error_Some; rewrite Hi; discriminate).
      lia.
  - intros Hle Hlt. apply read_run_bytes with (width := width); [exact Hlt|].
    eapply Forall_impl; [exact Hall|]. cbn beta. intros r [Hr Hlen].
    unfold run_of_row. fold W. split; [|lia].
    destruct Hr as [-> |Hr]; lia.
Qed.

Lemma Default_pixels_indexed_witness :
  exists l rs,
    Default_body 4080 scenario_fg scenario_bg 2 1 scenario_outputs = Returns l /\
    written scenario_outputs (result l)
    = Default_header 2 1
      ++ palette_block (found (palette l)) (members (quantized_colors (palette l)))
      ++ run_bytes rs.
Proof.
  destruct (Default_body_returns 4080 scenario_fg scenario_bg 2 1 scenario_outputs
              ltac:(discriminate)) as (l & Hl & _).
  destruct (Default_pixels_indexed _ _ _ _ _ _ _ Hl) as (rs & Hw & _).
  exists l, rs. split; [exact Hl|exact Hw].
Defined.




(** * The search of the palette, further *)

(** Each round that the search runs past counted more colours than are
    allowed. *)
Lemma find_palette_rounds (max_fg_colors : N) (original_colors : Z -> bool)
    (fuel : nat) (s p : search) :
  find_palette max_fg_colors fuel original_colors s = Returns p ->
  forall d, divisor s < d < divisor p ->
    exists (q : Z -> bool) (n : Z),
      count_reduced max_fg_colors original_colors d positions bitset_reset 0
      = Returns (q, n)
      /\ Z.of_N max_fg_colors < n.
Proof.
  revert s.
  induction fuel as [|fuel IH]; intros s; cbn [find_palette];
    destruct (Z.gtb_spec (found s) (Z.of_N max_fg_colors)) as [Hgt|Hle].
  - intros [=].
  - intros [= <-] d Hd. lia.
  - destruct (count_reduced max_fg_colors original_colors (divisor s + 1) positions
                bitset_reset 0) as [[q n]| |] eqn:Hround.
    + intros Hfind d Hd.
      destruct (Z.eq_dec d (divisor s + 1)) as [E|NE].
      * exists q, n. rewrite E. split; [exact Hround|].
        destruct (Z.lt_ge_cases (Z.of_N max_fg_colors) n) as [H|H]; [exact H|].
        rewrite find_palette_now in Hfind by (cbn [found]; lia).
        injection Hfind as <-. cbn [divisor] in Hd. lia.
      * apply (IH _ Hfind). cbn [divisor]. lia.
    + intros [=].
    + intros [=].
  - intros [= <-] d Hd. lia.
Qed.

(** X14. The search of the palette stops at the first divisor that fits:
    the divisor stays 4 exactly when the colours met are within the bound,
    and each divisor from 5 up to the one the search stops at, that one
    left out, leaves more distinct colours than are allowed. *)
Theorem search_least_divisor (max_fg_colors : N) (original_colors : Z -> bool)
    (n : Z) (fuel : nat) (p : search) :
  counted original_colors n ->
  find_palette max_fg_colors fuel original_colors
    {| divisor := 4; found := n; quantized_colors := bitset_reset |} = Returns p ->
  (divisor p = 4 <-> n <= Z.of_N max_fg_colors) /\
  forall d, 4 < d < divisor p ->
    exists reduced : list Z,
      List.NoDup reduced /\
      Z.of_N max_fg_colors < Z.of_nat (List.length reduced) /\
      forall c', In c' reduced ->
        exists c, original_colors c = true /\ Rgb18.reduce c d = Some c'.
Proof.
  intros Hcount Hfind.
  destruct (search_spec _ _ _ _ _ Hcount Hfind) as (_ & _ & Hd & _).
  assert (Hdiv : 4 <= divisor p <= 255)
    by (unfold settled in Hd; destruct (divisor p =? 4); exact Hd).
  clear Hd. split.
  - split.
    + intros E.
      destruct (Z.le_gt_cases n (Z.of_N max_fg_colors)) as [H|H]; [exact H|exfalso].
      destruct fuel as [|fuel]; cbn [find_palette found divisor] in Hfind;
        destruct (Z.gtb_spec n (Z.of_N max_fg_colors)) as [_|Hle]; try lia.
      * discriminate Hfind.
      * destruct (count_reduced max_fg_colors original_colors (4 + 1) positions
                    bitset_reset 0) as [[q n']| |] eqn:Hround; try discriminate Hfind.
        destruct (find_palette_returns _ _ _ _ _ Hfind) as (_ & Hlow & _).
        cbn [divisor] in Hlow. lia.
    + intros Hle. rewrite find_palette_now in Hfind by exact Hle.
      injection Hfind as <-. reflexivity.
  - intros d Hd.
    destruct (find_palette_rounds _ _ _ _ _ Hfind d ltac:(cbn [divisor]; lia))
      as (q & n' & Hround & Hmore).
    destruct (count_reduced_spec max_fg_colors original_colors d positions
                ltac:(lia) bitset_reset 0 counted_reset)
      as (q' & n'' & Hrun & [Hn _] & Hfrom & _).
    rewrite Hround in Hrun. injection Hrun as <- <-.
    exists (members q). split; [apply sorted_NoDup, members_sorted|].
    split; [lia|].
    intros c' Hc'. apply members_in in Hc' as [_ Hq].
    destruct (Hfrom c' Hq) as [H|(c & _ & Ho & Hr)]; [discriminate H|].
    exists c. split; assumption.
Qed.

(** Over the nine colours and 8 allowed, the search stops at the divisor
    9, which leaves 8 colours. *)
Lemma nine_colors_search :
  exists p,
    find_palette 8 124 nine_colors
      {| divisor := 4; found := 9; quantized_colors := bitset_reset |} = Returns p /\
    divisor p = 9 /\ found p = 8.
Proof.
  assert (H : match find_palette 8 124 nine_colors
                      {| divisor := 4; found := 9; quantized_colors := bitset_reset |}
              with
              | Returns p => (divisor p =? 9) && (found p =? 8)
              | _ => false
              end = true) by (vm_compute; reflexivity).
  destruct (find_palette 8 124 nine_colors _) as [p| |];
    [|discriminate H|discriminate H].
  exists p. apply andb_true_iff in H as [Hd Hn].
  apply Z.eqb_eq in Hd. apply Z.eqb_eq in Hn. auto.
Qed.

(** Over the nine colours and 8 allowed, the search leaves the divisor 4
    and stops at 9: each of the divisors 5, 6, 7 and 8 leaves more than 8
    distinct colours. *)
Lemma search_least_divisor_witness :
  counted nine_colors 9 /\
  exists p,
    find_palette 8 124 nine_colors
      {| divisor := 4; found := 9; quantized_colors := bitset_reset |} = Returns p /\
    divisor p = 9 /\
    (divisor p = 4 <-> 9 <= Z.of_N 8) /\
    forall d, 4 < d < divisor p ->
      exists reduced : list Z,
        List.NoDup reduced /\
        Z.of_N 8 < Z.of_nat (List.length reduced) /\
        forall c', In c' reduced ->
          exists c, nine_colors c = true /\ Rgb18.reduce c d = Some c'.
Proof.
  split; [exact nine_colors_counted|].
  destruct nine_colors_search as (p & Hfind & Hd & _).
  exists p. split; [exact Hfind|]. split; [exact Hd|].
  exact (search_least_divisor 8 nine_colors 9 124 p nine_colors_counted Hfind).
Defined.

(** * Images without pixels *)

Lemma cells_empty (w h : nat) : w = 0%nat \/ h = 0%nat -> cells w h 0 = [].
Proof.
  intros Hwh. destruct (cells w h 0) as [|[y x] l] eqn:E; [reflexivity|].
  assert (Hin : In (y, x) (cells w h 0)) by (rewrite E; left; reflexivity).
  apply in_cells in Hin. lia.
Qed.

Lemma grid_empty {A : Type} (f : nat -> nat -> A) (w h : nat) :
  w = 0%nat \/ h = 0%nat -> grid f w h = [].
Proof.
  intros Hwh. apply length_zero_iff_nil. rewrite grid_length. nia.
Qed.

Lemma filter_none {A : Type} (f : A -> bool) (l : list A) :
  (forall a, f a = false) -> List.filter f l = [].
Proof.
  intros Hf. induction l as [|a l IH]; [reflexivity|].
  cbn [List.filter]. rewrite Hf. exact IH.
Qed.

Lemma flat_map_nil {A B : Type} (l : list A) :
  flat_map (fun _ : A => @nil B) l = [].
Proof. induction l as [|a l IH]; [reflexivity|exact IH]. Qed.

(** The web-safe quantizer on rows without pixels, or on no row. *)
Lemma WebSafeQuantizer_empty out_fg out_bg (width height : Z) (o : outputs) :
  address out_fg <> address out_bg ->
  width <= 0 \/ height <= 0 ->
  WebSafeQuantizer out_fg out_bg width height o
  = set_background_color
      (set_stream o
         (stream o ++ WebSafe_header width height
          ++ flat_map (fun _ => word_bytes (run_word 0xfff 0))
               (seq 0 (Z.to_nat height))))
      (first_pixel out_bg).
Proof.
  intros Hne Hwh. unfold WebSafeQuantizer.
  destruct (Z.eqb_spec (address out_fg) (address out_bg)) as [E|_]; [contradiction|].
  rewrite output_web_palette_spec.
  set (o' := sample_background _ _).
  pose proof (for_ind (fun y s =>
      background_color (out s) = background_color o' /\
      has_foreground (out s) = has_foreground o' /\
      has_background (out s) = has_background o' /\
      stream (out s)
      = stream o' ++ flat_map (fun _ => word_bytes (run_word 0xfff 0)) (seq 0 y))
    height (fun _ => WebSafe_row width)
    {| p_fg := Pixmap.begin_ out_fg; p_bg := Pixmap.begin_ out_bg; out := o' |})
    as Hloop.
  destruct Hloop as (Hc & Hf & Hb & Hst).
  - cbn [out]. rewrite app_nil_r. repeat split; reflexivity.
  - intros y s Hy (Hc & Hf & Hb & Hst).
    assert (Hw : Z.to_nat width = 0%nat) by lia.
    rewrite seq_S, flat_map_app. cbn [flat_map Nat.add]. rewrite app_nil_r.
    unfold WebSafe_row, for_. rewrite Hw.
    cbn [seq fold_left web web_color web_length out set_stream
         background_color has_foreground has_background stream].
    rewrite write_uint32_spec, Hst, <- app_assoc. repeat split; assumption.
  - apply outputs_eq; cbn [set_background_color set_stream background_color
                           has_foreground has_background stream].
    + rewrite Hc. reflexivity.
    + rewrite Hf. reflexivity.
    + rewrite Hb. reflexivity.
    + rewrite Hst. unfold o', WebSafe_header, sample_background,
        set_background_color, set_stream.
      cbn [stream]. rewrite <- !app_assoc. reflexivity.
Qed.

(** X15. An image without pixels, of no column or of no row, given as two
    renderers, leaves the flags as they were under each quantizer. The
    mask quantizer only sets the bitonal encoder up. The web-safe quantizer
    writes its header and its palette, and then, for each row, one run of
    the index 0xfff and of length 0. The default quantizer, when the
    height is not negative, returns, whatever the number of colours
    allowed, and writes its header and a palette of size 1 that holds
    white, and no run; nothing is stated of it under a negative height,
    where the vector of the rows cannot be built. The last two still take
    the colour of the background from under the first position of the
    cursor. *)
Theorem empty_image (max_fg_colors : N) (out_fg out_bg : Renderer)
    (width height : Z) (o : outputs) :
  address out_fg <> address out_bg ->
  width <= 0 \/ height <= 0 ->
  MaskQuantizer out_fg out_bg width height o
  = set_stream o (stream o ++ [R4_new width height]) /\
  WebSafeQuantizer out_fg out_bg width height o
  = set_background_color
      (set_stream o
         (stream o ++ WebSafe_header width height
          ++ flat_map (fun _ => word_bytes (run_word 0xfff 0))
               (seq 0 (Z.to_nat height))))
      (first_pixel out_bg) /\
  (0 <= height ->
   DefaultQuantizer max_fg_colors out_fg out_bg width height o
   = Returns
       (set_background_color
          (set_stream o
             (stream o ++ Default_header width height
              ++ decimal 1 ++ endl ++ [Chr 0xff; Chr 0xff; Chr 0xff]))
          (first_pixel out_bg))).
Proof.
  intros Hne Hwh.
  assert (Hnat : Z.to_nat width = 0%nat \/ Z.to_nat height = 0%nat) by lia.
  split; [|split; [|intros _]].
  - rewrite (MaskQuantizer_spec _ _ _ _ _ Hne).
    rewrite (cells_empty _ _ Hnat), (grid_empty _ _ _ Hnat).
    apply outputs_eq; cbn [set_stream background_color has_foreground
                           has_background stream existsb];
      rewrite ?orb_false_r; reflexivity.
  - apply WebSafeQuantizer_empty; assumption.
  - destruct (Default_pass1_spec out_fg out_bg width height o)
      as (_ & _ & _ & Hst & [Hn _] & _ & Hrows).
    destruct (Default_pass1_packed out_fg out_bg width height o) as (Hmet & Hpacked).
    set (s := Default_pass1 out_fg out_bg width height o) in *.
    assert (Hno : forall c, original_colors s c = false).
    { intros c. destruct (original_colors s c) eqn:Hc; [|reflexivity].
      destruct (Hmet c Hc) as (y & x & Hin & _).
      rewrite (cells_empty _ _ Hnat) in Hin. destruct Hin. }
    assert (Hzero : color_counter s = 0).
    { rewrite Hn. unfold members. rewrite filter_none by exact Hno. reflexivity. }
    assert (Hline : forall y, (y < Z.to_nat height)%nat -> nth y (runs s) [] = []).
    { intros y Hy. destruct (Hrows y Hy) as [Hun _]. destruct (Hpacked y Hy) as [Hpos _].
      replace (Z.to_nat width) with 0%nat in Hun by lia. cbn [seq map] in Hun.
      destruct (nth y (runs s) []) as [|r line]; [reflexivity|].
      cbn [map] in Hpos, Hun. inversion Hpos as [|? ? Hr _]; subst.
      unfold unrle in Hun. cbn [flat_map run_pair fst snd] in Hun, Hr.
      destruct (Z.to_nat (Run.length r)) as [|n] eqn:En; [lia|]. discriminate Hun. }
    assert (Hfind : find_palette max_fg_colors rounds (original_colors s)
                      {| divisor := 4; found := color_counter s;
                         quantized_colors := bitset_reset |}
                    = Returns {| divisor := 4; found := color_counter s;
                                 quantized_colors := bitset_reset |}).
    { apply find_palette_now. cbn [found]. rewrite Hzero. lia. }
    destruct (Default_body_after_search _ _ _ _ _ _ _ Hfind) as (l & Hl & Hp).
    destruct (Default_body_spec _ _ _ _ _ _ _ Hl) as (_ & _ & _ & _ & _ & Hres).
    destruct (Default_result_flags _ _ _ _ _ _ _ Hl) as (Hc & Hf & Hb).
    rewrite (cells_empty _ _ Hnat) in Hf, Hb. cbn [existsb] in Hf, Hb.
    rewrite orb_false_r in Hf, Hb.
    fold s in Hp, Hres. rewrite Hp in Hres.
    unfold settled in Hres. cbn [divisor found quantized_colors Z.eqb Pos.eqb] in Hres.
    rewrite Hzero in Hres.
    unfold DefaultQuantizer.
    destruct (Z.eqb_spec (address out_fg) (address out_bg)) as [E|_]; [contradiction|].
    rewrite Hl. f_equal.
    apply outputs_eq; cbn [set_background_color set_stream background_color
                           has_foreground has_background stream];
      try assumption.
    rewrite Hres. cbn [set_stream stream]. rewrite Hst, <- !app_assoc.
    do 2 f_equal.
    change (palette_block 0 (members (original_colors s)))
      with (decimal 1 ++ endl ++ [Chr 0xff; Chr 0xff; Chr 0xff]).
    rewrite (flat_map_ext_seq _ (fun _ => []))
      by (intros y Hy; rewrite (Hline y Hy); reflexivity).
    rewrite flat_map_nil, app_nil_r, <- ?app_assoc. reflexivity.
Qed.

Lemma empty_image_witness :
  MaskQuantizer scenario_fg scenario_bg 0 1 scenario_outputs
  = set_stream scenario_outputs (stream scenario_outputs ++ [R4_new 0 1]) /\
  WebSafeQuantizer scenario_fg scenario_bg 0 1 scenario_outputs
  = set_background_color
      (set_stream scenario_outputs
         (stream scenario_outputs ++ WebSafe_header 0 1
          ++ flat_map (fun _ => word_bytes (run_word 0xfff 0)) (seq 0 (Z.to_nat 1))))
      (first_pixel scenario_bg) /\
  DefaultQuantizer 4080 scenario_fg scenario_bg 0 1 scenario_outputs
  = Returns
      (set_background_color
         (set_stream scenario_outputs
            (stream scenario_outputs ++ Default_header 0 1
             ++ decimal 1 ++ endl ++ [Chr 0xff; Chr 0xff; Chr 0xff]))
         (first_pixel scenario_bg)).
Proof.
  destruct (empty_image 4080 scenario_fg scenario_bg 0 1 scenario_outputs
              ltac:(discriminate) ltac:(left; lia)) as (Hmask & Hweb & Hdefault).
  split; [exact Hmask|]. split; [exact Hweb|]. apply Hdefault. lia.
Defined.

(** * The web-safe colours *)

(** X16. The colour that the palette written by [output_web_palette] holds
    at the index that the web-safe quantizer gives to a pixel is within 41
    of the pixel in each sample, and is the colour of the pixel when the
    samples of the pixel are multiples of 51: a pixel of a web-safe colour
    keeps its colour. *)
Theorem WebSafe_nearest (p : Pixmap.iterator) :
  exists r g b : Z,
    firstn 3 (skipn (4 + 3 * Z.to_nat (WebSafe_index p)) (output_web_palette []))
    = [Chr r; Chr g; Chr b] /\
    (-41 <= r - p.[0%nat] <= 41 /\
     -41 <= g - p.[1%nat] <= 41 /\
     -41 <= b - p.[2%nat] <= 41) /\
    (p.[0%nat] mod 51 = 0 -> r = p.[0%nat]) /\
    (p.[1%nat] mod 51 = 0 -> g = p.[1%nat]) /\
    (p.[2%nat] mod 51 = 0 -> b = p.[2%nat]).
Proof.
  destruct (WebSafe_index_spec p) as [_ Hi].
  assert (Hv : forall v, 0 <= v <= 255 ->
            0 <= (v + 1) / 43 <= 5 /\
            -41 <= 51 * ((v + 1) / 43) - v <= 41 /\
            (v mod 51 = 0 -> 51 * ((v + 1) / 43) = v)).
  { intros v Hv.
    assert (Hall : forallb (fun v =>
                     (0 <=? (v + 1) / 43) && ((v + 1) / 43 <=? 5)
                     && (-41 <=? 51 * ((v + 1) / 43) - v)
                     && (51 * ((v + 1) / 43) - v <=? 41)
                     && (negb (v mod 51 =? 0) || (51 * ((v + 1) / 43) =? v)))
                     (Zseq 0 256) = true) by (vm_compute; reflexivity).
    rewrite forallb_forall in Hall. specialize (Hall v ltac:(apply Zseq_in; lia)).
    rewrite !andb_true_iff, orb_true_iff, negb_true_iff, !Z.leb_le, Z.eqb_neq,
      Z.eqb_eq in Hall.
    split; [lia|]. split; [lia|]. intros E. destruct Hall as [_ [H|H]]; [lia|exact H]. }
  pose proof (component_bounds (under p) 0) as H0.
  pose proof (component_bounds (under p) 1) as H1.
  pose proof (component_bounds (under p) 2) as H2.
  change (component (under p) 0) with p.[0%nat] in H0.
  change (component (under p) 1) with p.[1%nat] in H1.
  change (component (under p) 2) with p.[2%nat] in H2.
  destruct (Hv _ H0) as (Hr & Hr' & Hr''), (Hv _ H1) as (Hg & Hg' & Hg''),
           (Hv _ H2) as (Hb & Hb' & Hb'').
  assert (E : WebSafe_index p
              = (p.[2%nat] + 1) / 43
                + 6 * ((p.[1%nat] + 1) / 43 + 6 * ((p.[0%nat] + 1) / 43))).
  { unfold WebSafe_index. rewrite !Z.quot_div_nonneg by lia. reflexivity. }
  set (i := WebSafe_index p) in *.
  rewrite output_web_palette_spec. cbn [app].
  replace (4 + 3 * Z.to_nat i)%nat
    with (List.length (chars "216" ++ endl) + 3 * Z.to_nat i)%nat by reflexivity.
  rewrite app_assoc, skipn_app, skipn_all2 by lia.
  replace (List.length (chars "216" ++ endl) + 3 * Z.to_nat i
           - List.length (chars "216" ++ endl))%nat with (3 * Z.to_nat i)%nat by lia.
  cbn [app]. rewrite web_palette_at by lia.
  rewrite Z.add_0_l, Z2Nat.id by lia. unfold web_color_at.
  exists (51 * (i / 36)), (51 * (i / 6 mod 6)), (51 * (i mod 6)).
  split; [reflexivity|].
  assert (Ei0 : i / 36 = (p.[0%nat] + 1) / 43)
    by (rewrite E; Z.to_euclidean_division_equations; lia).
  assert (Ei1 : i / 6 mod 6 = (p.[1%nat] + 1) / 43)
    by (rewrite E; Z.to_euclidean_division_equations; lia).
  assert (Ei2 : i mod 6 = (p.[2%nat] + 1) / 43)
    by (rewrite E; Z.to_euclidean_division_equations; lia).
  rewrite Ei0, Ei1, Ei2. tauto.
Qed.

(** * The flags and the stream *)

Lemma off_pixel_iff (color : Z * Z * Z) out_bg (W H : nat) :
  existsb (off color out_bg) (cells W H 0) = true
  <-> exists y x, (y < H)%nat /\ (x < W)%nat /\
        off_color color (bitmap out_bg y x) = true.
Proof.
  rewrite existsb_exists. unfold off. split.
  - intros ([y x] & Hin & Hoff). apply in_cells in Hin. cbn [fst snd] in Hoff.
    exists y, x. split; [lia|]. split; [lia|exact Hoff].
  - intros (y & x & Hy & Hx & Hoff). exists (y, x). split; [|exact Hoff].
    apply in_cells. lia.
Qed.

(** A pixel is off the colour of the first pixel exactly when it is not the
    first pixel. *)
Lemma off_first_pixel out_bg (q : pixel) :
  off_color (first_pixel out_bg) q = true <-> q <> bitmap out_bg 0 0.
Proof.
  rewrite <- pixels_differ_iff. unfold off_color, first_pixel, pixels_differ.
  cbn [background].
  rewrite (Z.eqb_sym (component (bitmap out_bg 0 0) 0)),
          (Z.eqb_sym (component (bitmap out_bg 0 0) 1)),
          (Z.eqb_sym (component (bitmap out_bg 0 0) 2)).
  reflexivity.
Qed.

(** X17. When the page and the background are two renderers, the web-safe
    and the default quantizers leave [has_background] true exactly when it
    was true before or a pixel of the background, within the image, is not
    the first pixel of the background: over a background of one colour the
    flag stays as it was. *)
Theorem background_seen (max_fg_colors : N) (out_fg out_bg : Renderer)
    (width height : Z) (o : outputs) :
  address out_fg <> address out_bg ->
  let seen (r : outputs) :=
    has_background r = true
    <-> has_background o = true
        \/ exists y x, (y < Z.to_nat height)%nat /\ (x < Z.to_nat width)%nat /\
             bitmap out_bg y x <> bitmap out_bg 0 0 in
  seen (WebSafeQuantizer out_fg out_bg width height o) /\
  forall r, DefaultQuantizer max_fg_colors out_fg out_bg width height o = Returns r ->
    seen r.
Proof.
  intros Hne seen.
  assert (Hseen : forall r,
            has_background r
            = has_background o
              || existsb (off (first_pixel out_bg) out_bg)
                   (cells (Z.to_nat width) (Z.to_nat height) 0) ->
            seen r).
  { intros r Hr. unfold seen. rewrite Hr, orb_true_iff, off_pixel_iff.
    split; (intros [H|(y & x & Hy & Hx & H)]; [left; exact H|right]);
      exists y, x; (split; [exact Hy|]); (split; [exact Hx|]);
      apply off_first_pixel; exact H. }
  split.
  - apply Hseen. destruct (WebSafeQuantizer_spec _ _ width height o Hne) as (l & -> & _).
    reflexivity.
  - intros r Hr. apply Hseen.
    destruct (DefaultQuantizer_body _ _ _ _ _ _ _ Hne Hr) as (l & Hl & ->).
    apply (Default_result_flags _ _ _ _ _ _ _ Hl).
Qed.

Lemma background_seen_witness :
  has_background (WebSafeQuantizer scenario_fg scenario_bg 2 1 scenario_outputs) = true
  <-> has_background scenario_outputs = true
      \/ exists y x, (y < Z.to_nat 1)%nat /\ (x < Z.to_nat 2)%nat /\
           bitmap scenario_bg y x <> bitmap scenario_bg 0 0.
Proof.
  destruct (background_seen 4080 scenario_fg scenario_bg 2 1 scenario_outputs
              ltac:(discriminate)) as [Hweb _].
  exact Hweb.
Defined.

(** X18. Whatever the renderers, one or two, no quantizer lowers a flag
    that its caller had raised, and none touches what the stream held: what
    it writes comes after. *)
Theorem outputs_kept (max_fg_colors : N) (out_fg out_bg : Renderer)
    (width height : Z) (o : outputs) :
  let kept (r : outputs) :=
    (has_foreground o = true -> has_foreground r = true) /\
    (has_background o = true -> has_background r = true) /\
    exists s, stream r = stream o ++ s in
  kept (DummyQuantizer out_fg out_bg width height o) /\
  kept (MaskQuantizer out_fg out_bg width height o) /\
  kept (WebSafeQuantizer out_fg out_bg width height o) /\
  forall r, DefaultQuantizer max_fg_colors out_fg out_bg width height o = Returns r ->
    kept r.
Proof.
  intros kept.
  assert (Hdummy : kept (dummy_quantizer width height o)
                   /\ kept (set_has_background (dummy_quantizer width height o) true)).
  { rewrite dummy_quantizer_spec. unfold kept.
    cbn [set_has_background has_foreground has_background stream].
    split; (split; [auto|]); (split; [auto|]); eexists; reflexivity. }
  destruct Hdummy as [Hdummy Hsame].
  split; [exact Hdummy|].
  destruct (Z.eq_dec (address out_fg) (address out_bg)) as [E|Hne].
  - unfold MaskQuantizer, WebSafeQuantizer, DefaultQuantizer.
    apply Z.eqb_eq in E. rewrite E.
    split; [exact Hsame|]. split; [exact Hsame|]. intros r [= <-]. exact Hsame.
  - split; [|split].
    + rewrite (MaskQuantizer_spec _ _ _ _ _ Hne). unfold kept.
      cbn [has_foreground has_background stream].
      split; [intros ->; reflexivity|]. split; [intros ->; reflexivity|].
      eexists. reflexivity.
    + destruct (WebSafeQuantizer_spec _ _ width height o Hne) as (l & -> & _).
      unfold kept. cbn [has_foreground has_background stream].
      split; [intros ->; reflexivity|]. split; [intros ->; reflexivity|].
      eexists. reflexivity.
    + intros r Hr.
      destruct (DefaultQuantizer_body _ _ _ _ _ _ _ Hne Hr) as (l & Hl & ->).
      destruct (Default_result_flags _ _ _ _ _ _ _ Hl) as (_ & Hf & Hb).
      destruct (Default_body_spec _ _ _ _ _ _ _ Hl) as (_ & _ & _ & _ & _ & Hres).
      destruct (Default_pass1_spec out_fg out_bg width height o)
        as (_ & _ & _ & Hst & _).
      unfold kept. rewrite Hf, Hb.
      split; [intros ->; reflexivity|]. split; [intros ->; reflexivity|].
      rewrite Hres. cbn [set_stream stream]. rewrite Hst, <- app_assoc.
      eexists. reflexivity.
Qed.

(** X19. On an image whose height is not negative, the rounds given to the
    search of the default quantizer are never exhausted: the quantizer
    returns or divides by zero in [reduce]. It divides by zero only with
    fewer than 8 colours allowed, two renderers and more colours met by the
    first scan than are allowed. Nothing is stated under a negative
    height, where the vector of the rows cannot be built. *)
Theorem Default_failure (max_fg_colors : N) (out_fg out_bg : Renderer)
    (width height : Z) (o : outputs) :
  0 <= height ->
  DefaultQuantizer max_fg_colors out_fg out_bg width height o <> OutOfFuel /\
  (DefaultQuantizer max_fg_colors out_fg out_bg width height o = DivisionByZero ->
   (max_fg_colors < 8)%N /\
   address out_fg <> address out_bg /\
   Z.of_N max_fg_colors
   < color_counter (Default_pass1 out_fg out_bg width height o)).
Proof.
  intros _. unfold DefaultQuantizer.
  destruct (Z.eqb_spec (address out_fg) (address out_bg)) as [E|Hne].
  - split; [discriminate|]. intros [=].
  - pose proof (Default_body_fuel max_fg_colors out_fg out_bg width height o) as Hfuel.
    split.
    + destruct (Default_body max_fg_colors out_fg out_bg width height o) as [l| |];
        [discriminate|discriminate|contradiction].
    + intros Hfail. split; [|split; [exact Hne|]].
      * destruct (N.lt_ge_cases max_fg_colors 8) as [H|H]; [exact H|exfalso].
        destruct (Default_body_returns max_fg_colors out_fg out_bg width height o H)
          as (l & Hl & _).
        rewrite Hl in Hfail. discriminate Hfail.
      * set (s := Default_pass1 out_fg out_bg width height o).
        destruct (Z.lt_ge_cases (Z.of_N max_fg_colors) (color_counter s)) as [H|H];
          [exact H|exfalso].
        assert (Hfind : find_palette max_fg_colors rounds (original_colors s)
                          {| divisor := 4; found := color_counter s;
                             quantized_colors := bitset_reset |}
                        = Returns {| divisor := 4; found := color_counter s;
                                     quantized_colors := bitset_reset |})
          by (apply find_palette_now; cbn [found]; lia).
        destruct (Default_body_after_search _ _ _ _ _ _ _ Hfind) as (l & Hl & _).
        rewrite Hl in Hfail. discriminate Hfail.
Qed.

(** Over the image of the eight colours, of one row, with 7 colours
    allowed, the default quantizer divides by zero: 7 is below 8, the
    renderers are two, and the first scan met more than 7 colours. *)
Lemma Default_failure_witness :
  0 <= 1 /\
  DefaultQuantizer 7 corners_fg corners_bg 8 1 scenario_outputs = DivisionByZero /\
  (7 < 8)%N /\
  address corners_fg <> address corners_bg /\
  Z.of_N 7 < color_counter (Default_pass1 corners_fg corners_bg 8 1 scenario_outputs).
Proof.
  split; [lia|]. split; [exact corners_divide_by_zero|].
  destruct (Default_failure 7 corners_fg corners_bg 8 1 scenario_outputs
              ltac:(lia)) as [_ Hfail].
  exact (Hfail corners_divide_by_zero).
Defined.

(** * The bits of the mask *)

Lemma grid_map {A B : Type} (g : A -> B) (f : nat -> nat -> A) (w h : nat) :
  map g (grid f w h) = grid (fun y x => g (f y x)) w h.
Proof.
  induction h as [|h IH]; [reflexivity|].
  rewrite !grid_succ, map_app, IH, map_map. reflexivity.
Qed.

(** X20. When the page and the background are two renderers, the mask
    quantizer sets the bitonal encoder up once, with the width and the
    height, and then gives it one bit for each pixel, row by row, and
    nothing else: as many bits as the image has pixels, each 0 or 1, the
    bit 1 at the pixels of the page that differ from the background. *)
Theorem Mask_bits (out_fg out_bg : Renderer) (width height : Z) (o : outputs) :
  address out_fg <> address out_bg ->
  exists bits : list Z,
    written o (MaskQuantizer out_fg out_bg width height o)
    = R4_new width height :: map R4_pixel bits /\
    List.length bits = (Z.to_nat height * Z.to_nat width)%nat /\
    Forall (fun b => b = 0 \/ b = 1) bits /\
    forall y x, (y < Z.to_nat height)%nat -> (x < Z.to_nat width)%nat ->
      (nth (y * Z.to_nat width + x) bits 0 = 1
       <-> bitmap out_fg y x <> bitmap out_bg y x).
Proof.
  intros Hne.
  set (bit := fun y x => if foreground out_fg out_bg y x then 1 else 0).
  exists (grid bit (Z.to_nat width) (Z.to_nat height)).
  split; [|split; [apply grid_length|split]].
  - apply written_app. rewrite (MaskQuantizer_spec _ _ _ _ _ Hne). cbn [stream].
    rewrite grid_map. reflexivity.
  - apply List.Forall_forall. intros b Hb. unfold grid in Hb.
    apply in_flat_map in Hb as (y & _ & Hb). apply in_map_iff in Hb as (x & <- & _).
    unfold bit. destruct (foreground out_fg out_bg y x); [right|left]; reflexivity.
  - intros y x Hy Hx. rewrite grid_nth by assumption. unfold bit.
    pose proof (foreground_iff out_fg out_bg y x) as Hf.
    destruct (foreground out_fg out_bg y x); split; intros H; try reflexivity.
    + intros E. apply Hf in E. discriminate E.
    + discriminate H.
    + exfalso. apply H, Hf. reflexivity.
Qed.

Lemma Mask_bits_witness :
  exists bits : list Z,
    written scenario_outputs (MaskQuantizer scenario_fg scenario_bg 2 1 scenario_outputs)
    = R4_new 2 1 :: map R4_pixel bits /\
    List.length bits = (Z.to_nat 1 * Z.to_nat 2)%nat.
Proof.
  destruct (Mask_bits scenario_fg scenario_bg 2 1 scenario_outputs ltac:(discriminate))
    as (bits & Hw & Hl & _).
  exists bits. split; [exact Hw|exact Hl].
Defined.

(** * The map of the colours *)

Lemma map_at_present (m : gmap Z Z) (key : Z) :
  is_Some (m !! key) -> snd (map_at m key) = m.
Proof.
  intros [v Hv]. unfold map_at. rewrite Hv. reflexivity.
Qed.

Lemma output_line_keeps (cm : gmap Z Z) (line : list Run.t) (s : list item) :
  (forall r, In r line -> is_Some (cm !! Run.color r)) ->
  fst (output_line cm line s) = cm.
Proof.
  unfold output_line. revert s.
  induction line as [|r line IH]; intros s Hkeys; cbn [fold_left]; [reflexivity|].
  pose proof (map_at_present cm (Run.color r) (Hkeys r ltac:(left; reflexivity))) as Hm.
  destruct (map_at cm (Run.color r)) as [index cm1]. cbn [snd] in Hm. subst cm1.
  apply IH. intros r' Hr'. apply Hkeys. right. exact Hr'.
Qed.

Lemma output_runs_keeps (height : Z) (runs : list (list Run.t)) (cm : gmap Z Z)
    (s : list item) :
  (forall y r, (y < Z.to_nat height)%nat -> In r (nth y runs []) ->
     is_Some (cm !! Run.color r)) ->
  fst (output_runs height runs cm s) = cm.
Proof.
  intros Hkeys. unfold output_runs.
  apply (for_ind (fun (y : nat) (t : gmap Z Z * list item) => fst t = cm)).
  - reflexivity.
  - intros y [cm' s'] Hy E. cbn [fst] in E. subst cm'.
    apply output_line_keeps. intros r Hr. apply (Hkeys y r Hy Hr).
Qed.

(** The keys of the map built by "Map colors into color indices": the key
    of no colour and every colour met. *)
Lemma map_colors_keys (divisor : Z) (original_colors quantized_colors : Z -> bool)
    (cm qm : gmap Z Z) :
  4 <= divisor <= 255 ->
  map_colors divisor original_colors quantized_colors = Returns (cm, qm) ->
  is_Some (cm !! Rgb18.none) /\
  forall c, 0 <= c < bitset_size -> original_colors c = true -> is_Some (cm !! c).
Proof.
  intros Hd. unfold map_colors.
  destruct (Z.eqb_spec divisor 4) as [E|NE].
  - intros Hmap. apply Returns_pair_inj in Hmap as [Hcm _]. rewrite <- Hcm.
    destruct (number_colors_indices original_colors {[ -1 := 0xfff ]})
      as [Hother Hnth].
    split.
    + rewrite Hother by (unfold Rgb18.none; lia). eexists. reflexivity.
    + intros c Hc Ho.
      assert (Hin : In c (members original_colors)) by (apply members_in; tauto).
      destruct (in_nth_error_Z _ _ Hin) as (i & Hi).
      rewrite (Hnth i c Hi). eexists. reflexivity.
  - destruct (map_reduced_spec divisor positions ltac:(lia) {[ -1 := 0xfff ]}
                (fst (number_colors quantized_colors ∅ 0)))
      as (cm' & qm' & Hrun & _ & Hother & Hin).
    rewrite Hrun. intros Hmap. apply Returns_pair_inj in Hmap as [Hcm _].
    rewrite <- Hcm. split.
    + rewrite Hother by (rewrite positions_in; unfold Rgb18.none; lia).
      eexists. reflexivity.
    + intros c Hc _. destruct (Hin c ltac:(apply positions_in, Hc)) as (nc & _ & Hm).
      rewrite Hm. eexists. reflexivity.
Qed.

(** X21. When the default quantizer returns, every colour of a run kept by
    the first scan is a key of the map of the colours, so that reading the
    map with [operator[]] while the runs are written adds no key: the maps
    that the quantizer leaves are the ones that "Map colors into color
    indices" built. *)
Theorem color_map_read_only (max_fg_colors : N) (out_fg out_bg : Renderer)
    (width height : Z) (o : outputs) (l : Default_locals) :
  Default_body max_fg_colors out_fg out_bg width height o = Returns l ->
  let s := Default_pass1 out_fg out_bg width height o in
  let p := palette l in
  map_colors (divisor p) (original_colors s) (quantized_colors p)
  = Returns (color_map l, quantized_color_map l) /\
  forall y r, (y < Z.to_nat height)%nat -> In r (nth y (runs s) []) ->
    is_Some (color_map l !! Run.color r).
Proof.
  intros Hl s p.
  destruct (Default_pass1_spec out_fg out_bg width height o)
    as (_ & _ & _ & _ & Hcount & _ & Hrows). fold s in Hcount, Hrows.
  destruct (Default_color_index _ _ _ _ _ _ _ Hl) as (Hdiv & _). fold p in Hdiv.
  destruct (Default_body_spec _ _ _ _ _ _ _ Hl) as (_ & (p0 & Hfind & Hp) & _).
  fold s in Hfind, Hp. fold p in Hp.
  assert (Hkeys : forall cm qm,
            map_colors (divisor p) (original_colors s) (quantized_colors p)
            = Returns (cm, qm) ->
            forall y r, (y < Z.to_nat height)%nat -> In r (nth y (runs s) []) ->
              is_Some (cm !! Run.color r)).
  { intros cm qm Hmap y r Hy Hr.
    destruct (map_colors_keys _ _ _ _ _ Hdiv Hmap) as [Hnone Hmet].
    destruct (Hrows y Hy) as [_ Hall]. rewrite List.Forall_forall in Hall.
    destruct (Hall r Hr) as [[Hk|Hk] _].
    - rewrite Hk. exact Hnone.
    - apply Hmet; [apply Hcount, Hk|exact Hk]. }
  revert Hl. unfold Default_body. fold s. rewrite Hfind, <- Hp.
  destruct (map_colors (divisor p) (original_colors s) (quantized_colors p))
    as [[cm qm]| |] eqn:Hmap; [|intros [=]|intros [=]].
  specialize (Hkeys cm qm eq_refl).
  pose proof (output_runs_keeps height (runs s) cm
                (output_palette (found p) (quantized_colors p)
                   (stream (out (cursors s)))) Hkeys) as Hsame.
  destruct (output_runs height (runs s) cm _) as [cm' s'].
  cbn [fst] in Hsame. subst cm'. intros Hl. apply Returns_inj in Hl. rewrite <- Hl.
  cbn [color_map quantized_color_map]. split; [reflexivity|exact Hkeys].
Qed.

Lemma color_map_read_only_witness :
  exists l,
    Default_body 4080 scenario_fg scenario_bg 2 1 scenario_outputs = Returns l /\
    map_colors (divisor (palette l))
      (original_colors (Default_pass1 scenario_fg scenario_bg 2 1 scenario_outputs))
      (quantized_colors (palette l))
    = Returns (color_map l, quantized_color_map l).
Proof.
  destruct (Default_body_returns 4080 scenario_fg scenario_bg 2 1 scenario_outputs
              ltac:(discriminate)) as (l & Hl & _).
  exists l. split; [exact Hl|]. apply (color_map_read_only _ _ _ _ _ _ _ Hl).
Defined.
